(** * BioBERT-CMC: the dictionary-driven span annotator

    A shallow embedding of [anotaciones/annotate_doccano_v2.py] (module [V2]
    below) and of [anotaciones/annotate_doccano_v2 copy.py] (module [V2Copy]):
    the normaliser, the lightweight lemmatiser, the cleaner, the pattern
    builder, the precompiled dictionary index and the span matcher
    [annotate_text].

    The span matcher is modelled on ASCII text: a text is a list of [ascii]
    characters, and [str.lower], the classes [\w] and [\s], [str.isspace]
    and [unicodedata.normalize] are what Python computes on the code points
    below 128 ([str.lower] folds [A-Z], [\w] is [[A-Za-z0-9_]], [\s] is
    [{9..13, 28..32}], normalisation changes nothing and no character is a
    combining mark).  A property that holds of the code on ASCII text only
    says so: it carries [ascii_text] in its statement, or it is about the
    ASCII model [clean_text] of the cleaner.  Character offsets are Python
    [int]s, modelled as [Z] ([str.find] may answer [-1]).

    The cleaner [clean_text] is modelled a second time on texts of arbitrary
    code points (module [Unicode]), where the characters it replaces and the
    whitespace of Unicode exist; on ASCII text the two models agree. *)

From Stdlib Require Import String Ascii.
From Stdlib Require Import List NArith ZArith Lia Bool QArith.
From Stdlib Require Import Permutation Sorted.
Import ListNotations.

Local Open Scope nat_scope.
Local Open Scope list_scope.

(** A Python [str]. *)
Definition str : Type := list ascii.

(** A string literal of the source. *)
Definition lit (x : string) : str := list_ascii_of_string x.

(** ** The [str] methods the source calls *)
Module Py.

Definition code (c : ascii) : nat := nat_of_ascii c.

Definition isupper (c : ascii) : bool := (65 <=? code c) && (code c <=? 90).
Definition islower (c : ascii) : bool := (97 <=? code c) && (code c <=? 122).
Definition isdigit (c : ascii) : bool := (48 <=? code c) && (code c <=? 57).

(** [c.isspace()] for an ASCII character; [\s] holds the same ones. *)
Definition isspace (c : ascii) : bool :=
  ((9 <=? code c) && (code c <=? 13)) || ((28 <=? code c) && (code c <=? 32)).

(** The regular-expression class [\w] on ASCII characters: letters, digits
    and the underscore. *)
Definition isword (c : ascii) : bool :=
  isupper c || islower c || isdigit c || (code c =? 95).

Definition lower_char (c : ascii) : ascii :=
  if isupper c then ascii_of_nat (code c + 32) else c.

(** [w.lower()] on ASCII text: [A-Z] are folded, character by character. *)
Definition lower (w : str) : str := map lower_char w.

(** [a == b] on strings. *)
Fixpoint eqb (a b : str) : bool :=
  match a, b with
  | [], [] => true
  | x :: a', y :: b' => Ascii.eqb x y && eqb a' b'
  | _, _ => false
  end.

(** [w.endswith(suf)] *)
Definition endswith (w suf : str) : bool :=
  eqb (skipn (length w - length suf) w) suf.

(** [w[:-k]]; with [k = 0] Python reads [w[:0]], the empty string. *)
Definition drop_last (k : nat) (w : str) : str :=
  if k =? 0 then [] else firstn (length w - k) w.

(** [w.startswith(pre)] *)
Fixpoint startswith (w pre : str) : bool :=
  match pre, w with
  | [], _ => true
  | p :: pre', c :: w' => Ascii.eqb c p && startswith w' pre'
  | _ :: _, [] => false
  end.

Fixpoint find_from (hay needle : str) (i : Z) : Z :=
  if startswith hay needle then i
  else match hay with
       | [] => (-1)%Z
       | _ :: hay' => find_from hay' needle (i + 1)%Z
       end.

(** [hay.find(needle)]: the first index of [needle], or [-1]. *)
Definition find (hay needle : str) : Z := find_from hay needle 0%Z.

(** [len(w)] as a Python [int]. *)
Definition len (w : str) : Z := Z.of_nat (length w).

Fixpoint split_from (s cur : str) : list str :=
  match s with
  | [] => match cur with [] => [] | _ => [cur] end
  | c :: s' =>
      if isspace c
      then match cur with [] => split_from s' [] | _ => cur :: split_from s' [] end
      else split_from s' (cur ++ [c])
  end.

(** [s.split()]: the maximal runs of non-whitespace characters. *)
Definition split (s : str) : list str := split_from s [].

Fixpoint lstrip (s : str) : str :=
  match s with
  | c :: s' => if isspace c then lstrip s' else s
  | [] => []
  end.

Definition rstrip (s : str) : str := rev (lstrip (rev s)).

(** [s.strip()] *)
Definition strip (s : str) : str := rstrip (lstrip s).

(** [text[a:b]] for offsets [0 <= a <= b]. *)
Definition slice (text : str) (a b : Z) : str :=
  firstn (Z.to_nat (b - a)) (skipn (Z.to_nat a) text).

(** [list(dict.fromkeys(words))]: the distinct items, in first-occurrence
    order. *)
Fixpoint fromkeys (seen words : list str) : list str :=
  match words with
  | [] => []
  | w :: ws =>
      if existsb (eqb w) seen then fromkeys seen ws
      else w :: fromkeys (w :: seen) ws
  end.

End Py.

(** ** The fragment of Python's [re] the source uses

    A pattern is kept as its syntax tree; matching is the backtracking search
    of [re], written with a continuation: alternatives are tried in order,
    repetition is greedy, and the first way to complete the whole match wins. *)
Module Re.

Inductive charclass : Type :=
| Space          (* \s *)
| Word           (* \w *)
| WordOrHyphen.  (* [\w\-] *)

Definition in_class (cls : charclass) (c : ascii) : bool :=
  match cls with
  | Space => Py.isspace c
  | Word => Py.isword c
  | WordOrHyphen => Py.isword c || Ascii.eqb c "-"%char
  end.

Inductive regex : Type :=
| Eps                                    (* the empty pattern *)
| Chr (a : ascii)                        (* one literal character *)
| Cat (r1 r2 : regex)                    (* r1 r2 *)
| Alt (r1 r2 : regex)                    (* r1|r2 *)
| Opt (r : regex)                        (* (?:r)? *)
| Rep (cls : charclass) (min : nat)      (* cls{min,} : \s* \s+ [\w\-]{3,} *)
| NotBehind (cls : charclass)            (* (?<!cls) *)
| NotAhead (cls : charclass)             (* (?!cls) *)
| WordBoundary.                          (* \b *)

(** What is left to match: the character before the cursor, the rest of the
    text and the number of characters consumed so far. *)
Definition cont : Type := option ascii -> str -> nat -> option nat.

Definition chr_eq (ignorecase : bool) (a c : ascii) : bool :=
  if ignorecase then Ascii.eqb (Py.lower_char a) (Py.lower_char c)
  else Ascii.eqb a c.

Definition word_at (c : option ascii) : bool :=
  match c with Some x => Py.isword x | None => false end.

Fixpoint rep_greedy (cls : charclass) (min : nat) (prev : option ascii)
  (s : str) (n : nat) (k : cont) {struct s} : option nat :=
  let stop := if min =? 0 then k prev s n else None in
  match s with
  | c :: s' =>
      if in_class cls c then
        match rep_greedy cls (pred min) (Some c) s' (S n) k with
        | Some e => Some e
        | None => stop
        end
      else stop
  | [] => stop
  end.

Fixpoint run (ignorecase : bool) (r : regex) (prev : option ascii) (s : str)
  (n : nat) (k : cont) {struct r} : option nat :=
  match r with
  | Eps => k prev s n
  | Chr a =>
      match s with
      | c :: s' => if chr_eq ignorecase a c then k (Some c) s' (S n) else None
      | [] => None
      end
  | Cat r1 r2 =>
      run ignorecase r1 prev s n (fun p s' n' => run ignorecase r2 p s' n' k)
  | Alt r1 r2 =>
      match run ignorecase r1 prev s n k with
      | Some e => Some e
      | None => run ignorecase r2 prev s n k
      end
  | Opt r1 =>
      match run ignorecase r1 prev s n k with
      | Some e => Some e
      | None => k prev s n
      end
  | Rep cls min => rep_greedy cls min prev s n k
  | NotBehind cls =>
      match prev with
      | Some c => if in_class cls c then None else k prev s n
      | None => k prev s n
      end
  | NotAhead cls =>
      match s with
      | c :: _ => if in_class cls c then None else k prev s n
      | [] => k prev s n
      end
  | WordBoundary =>
      if xorb (word_at prev) (word_at (hd_error s)) then k prev s n else None
  end.

(** A compiled pattern: [re.compile(pattern, flags)]. *)
Record pattern : Type := compile { source : regex; ignorecase : bool }.

(** One attempt at a fixed start position; the answer is the length of the
    match.  [must_advance] refuses the empty match (the scanner sets it right
    after an empty match at the same position). *)
Definition match_at (p : pattern) (prev : option ascii) (s : str)
  (must_advance : bool) : option nat :=
  run (ignorecase p) (source p) prev s 0
      (fun _ _ n => if must_advance && (n =? 0) then None else Some n).

(** The matches that start at one position, in the order the scanner yields
    them: none, one, or an empty match followed by a non-empty one. *)
Definition attempt (p : pattern) (prev : option ascii) (s : str) : list nat :=
  match match_at p prev s false with
  | None => []
  | Some 0 =>
      0 :: match match_at p prev s true with Some n => [n] | None => [] end
  | Some n => [n]
  end.

(** A match object: [m.start()], [m.end()], [m.group(0)]. *)
Record Match : Type := mkMatch { m_start : Z; m_end : Z; group0 : str }.

Fixpoint finditer_from (p : pattern) (prev : option ascii) (s : str) (pos : Z)
  (skip : nat) {struct s} : list Match :=
  match skip with
  | S k =>
      match s with
      | [] => []
      | c :: s' => finditer_from p (Some c) s' (pos + 1)%Z k
      end
  | O =>
      let ls := attempt p prev s in
      map (fun n => mkMatch pos (pos + Z.of_nat n)%Z (firstn n s)) ls
      ++ match s with
         | [] => []
         | c :: s' => finditer_from p (Some c) s' (pos + 1)%Z (pred (last ls 0))
         end
  end.

(** [pattern.finditer(text)]: the non-overlapping matches, left to right. *)
Definition finditer (p : pattern) (text : str) : list Match :=
  finditer_from p None text 0%Z 0.

(** [re.findall(pattern, text)] for a pattern without groups. *)
Definition findall (p : pattern) (text : str) : list str :=
  map group0 (finditer p text).

Fixpoint sub_from (p : pattern) (repl : str) (prev : option ascii) (s : str)
  (skip : nat) {struct s} : str :=
  match skip with
  | S k =>
      match s with
      | [] => []
      | c :: s' => sub_from p repl (Some c) s' k
      end
  | O =>
      let ls := attempt p prev s in
      concat (map (fun _ => repl) ls)
      ++ match s with
         | [] => []
         | c :: s' =>
             (if last ls 0 =? 0 then [c] else [])
             ++ sub_from p repl (Some c) s' (pred (last ls 0))
         end
  end.

(** [re.sub(pattern, repl, text)] for a replacement without group
    references. *)
Definition sub (p : pattern) (repl text : str) : str :=
  sub_from p repl None text 0.

(** [re.escape(w)]: the pattern that matches [w] literally. *)
Definition escape (w : str) : regex := fold_right (fun c r => Cat (Chr c) r) Eps w.

(** [r1|r2|...|rn], tried from left to right. *)
Fixpoint alternation (rs : list regex) : regex :=
  match rs with
  | [] => Eps
  | [r] => r
  | r :: rs' => Alt r (alternation rs')
  end.

(** [sep.join(rs)] on pattern sources. *)
Fixpoint join (sep : regex) (rs : list regex) : regex :=
  match rs with
  | [] => Eps
  | [r] => r
  | r :: rs' => Cat r (Cat sep (join sep rs'))
  end.

End Re.

(** ** The similarity backends

    [difflib.SequenceMatcher(None, a, b).ratio()] of the standard library
    (Ratcliff/Obershelp with the automatic-junk heuristic), and the optional
    [rapidfuzz] package.  Scores are kept as exact rationals. *)
Module Difflib.

(** The elements of [b] the automatic-junk heuristic drops from the index:
    [b] has at least 200 elements and the element occurs more than
    [len(b) // 100 + 1] times. *)
Definition popular (b : str) (c : ascii) : bool :=
  (200 <=? length b) && (length b / 100 + 1 <? count_occ ascii_dec b c).

(** The common prefix of [a] and [b]; [skip] breaks the run. *)
Fixpoint common_prefix (skip : ascii -> bool) (a b : str) : nat :=
  match a, b with
  | x :: a', y :: b' =>
      if Ascii.eqb x y && negb (skip y) then S (common_prefix skip a' b') else 0
  | _, _ => 0
  end.

Fixpoint best_in_b (pop : ascii -> bool) (a b : str) (i j : nat)
  (best : nat * nat * nat) : nat * nat * nat :=
  match b with
  | [] => best
  | _ :: b' =>
      let k := common_prefix pop a b in
      best_in_b pop a b' i (S j) (if snd best <? k then (i, j, k) else best)
  end.

Fixpoint best_in_a (pop : ascii -> bool) (a b : str) (i : nat)
  (best : nat * nat * nat) : nat * nat * nat :=
  match a with
  | [] => best
  | _ :: a' => best_in_a pop a' b (S i) (best_in_b pop a b i 0 best)
  end.

(** [find_longest_match] over the whole of [a] and [b]: the longest block of
    indexed elements, the earliest in [a] and then in [b], extended on both
    sides over equal elements. *)
Definition find_longest_match (pop : ascii -> bool) (a b : str)
  : nat * nat * nat :=
  let '(i, j, k) := best_in_a pop a b 0 (0, 0, 0) in
  let l := common_prefix (fun _ => false) (rev (firstn i a)) (rev (firstn j b)) in
  let r := common_prefix (fun _ => false) (skipn (i + k) a) (skipn (j + k) b) in
  (i - l, j - l, l + k + r).

(** The total size of the matching blocks: the longest block, then the
    same to the left and to the right of it. *)
Fixpoint matches (fuel : nat) (pop : ascii -> bool) (a b : str) : nat :=
  match fuel with
  | O => 0
  | S fuel' =>
      let '(i, j, k) := find_longest_match pop a b in
      if k =? 0 then 0
      else k + matches fuel' pop (firstn i a) (firstn j b)
             + matches fuel' pop (skipn (i + k) a) (skipn (j + k) b)
  end.

(** [SequenceMatcher(None, a, b).ratio()] *)
Definition ratio (a b : str) : Q :=
  let total := length a + length b in
  if total =? 0 then 1%Q
  else Qmake (Z.of_nat (2 * matches (S (length a)) (popular b) a b))
             (Pos.of_nat total).

End Difflib.

Module Rapidfuzz.

Fixpoint lcs (a b : str) : nat :=
  match a with
  | [] => 0
  | x :: a' =>
      (fix inner (b : str) : nat :=
         match b with
         | [] => 0
         | y :: b' =>
             if Ascii.eqb x y then S (lcs a' b')
             else Nat.max (lcs a' b) (inner b')
         end) b
  end.

(** [fuzz.ratio] of the rapidfuzz package, which is not part of the
    repository: the normalised indel similarity on the 0-100 scale,
    [100 * 2 * lcs / (len(a) + len(b))], and 100 for two empty strings. *)
Definition ratio (a b : str) : Q :=
  let total := length a + length b in
  if total =? 0 then 100%Q
  else (Qmake (Z.of_nat (2 * lcs a b)) (Pos.of_nat total) * 100)%Q.

End Rapidfuzz.

(** The optional import at the top of both files: whether [rapidfuzz] was
    found, and its [fuzz.ratio]. *)
Record backend : Type := mkBackend {
  HAS_FUZZ : bool;
  fuzz_ratio : str -> str -> Q
}.

(** [rapidfuzz] is not installed: the [except] branch. *)
Definition without_rapidfuzz : backend :=
  {| HAS_FUZZ := false; fuzz_ratio := fun _ _ => 0%Q |}.

(** [rapidfuzz] is installed. *)
Definition with_rapidfuzz : backend :=
  {| HAS_FUZZ := true; fuzz_ratio := Rapidfuzz.ratio |}.

(** [fuzzy_similarity(a, b)]: the fallback of both files. *)
Definition fuzzy_similarity (a b : str) : Q := (Difflib.ratio a b * 100)%Q.

(** [fuzz.ratio(wn, target) if HAS_FUZZ else fuzzy_similarity(wn, target)] *)
Definition similarity (b : backend) (wn target : str) : Q :=
  if HAS_FUZZ b then fuzz_ratio b wn target else fuzzy_similarity wn target.

(** [sim >= 88] *)
Definition at_least_88 (sim : Q) : bool := Qle_bool 88 sim.

(** ** The lemmatiser and the cleaner (the same text in both files) *)

Definition suf_list : list str :=
  map lit ["ing"; "ed"; "es"; "s"; "ion"; "ation"; "ment"; "ability";
           "ization"]%string.

(** The [for suf in suf_list] loop of [lightweight_lemma]. *)
Fixpoint strip_first_suffix (w : str) (sufs : list str) : str :=
  match sufs with
  | [] => w
  | suf :: sufs' =>
      if Py.endswith w suf && (length suf + 2 <? length w)
      then Py.drop_last (length suf) w
      else strip_first_suffix w sufs'
  end.

Definition lightweight_lemma (word : str) : str :=
  let w := Py.lower word in
  strip_first_suffix w suf_list.

(** [unicodedata.normalize(form, text)] on ASCII text: each of the four
    forms leaves a text of code points below 128 as it is. *)
Definition unicodedata_normalize (form : string) (text : str) : str := text.

(** [r'\s*-\s*'] *)
Definition hyphen_re : Re.pattern :=
  Re.compile (Re.Cat (Re.Rep Re.Space 0) (Re.Cat (Re.Chr "-") (Re.Rep Re.Space 0)))
             false.

(** [r'\s+'] *)
Definition spaces_re : Re.pattern := Re.compile (Re.Rep Re.Space 1) false.

(** [clean_text] on ASCII text.  The [replace] calls look for U+FEFF, U+200B,
    U+00A0, the curly quotes U+201C and U+201D and the em dash U+2014: none of
    them is an ASCII character, so on ASCII text they replace nothing.
    [Unicode.clean_text] below has them. *)
Definition clean_text (text : str) : str :=
  let text := unicodedata_normalize "NFKC" text in
  let text := Re.sub hyphen_re (lit "-") text in
  let text := Re.sub spaces_re (lit " ") text in
  Py.strip text.

(** ** What the two annotators share *)

(** A candidate interval [(start, end)] and an accepted annotation
    [[start, end, category]]. *)
Definition span : Type := (Z * Z)%type.
Definition annotation : Type := (Z * Z * string)%type.

(** [CATEGORIES]: the loaded [dictionary.json], category by category in file
    order. *)
Definition dictionary : Type := list (string * list str).

(** [any(s <= span_range[0] < e or s < span_range[1] <= e
         for s, e in used_spans)].
    [used_spans] is a Python set that is only ever added to and asked this
    question, so a list of its members stands for it. *)
Definition occupied (used_spans : list span) (span_range : span) : bool :=
  existsb (fun u : span =>
             let (s, e) := u in
             ((s <=? fst span_range) && (fst span_range <? e)
              || (s <? snd span_range) && (snd span_range <=? e))%Z)
          used_spans.

(** [(?:s|es|ing|ed|ion|ation|ment|ability|ization)?] *)
Definition suffix_group : Re.regex :=
  Re.Opt (Re.alternation
            (map (fun x => Re.escape (lit x))
                 ["s"; "es"; "ing"; "ed"; "ion"; "ation"; "ment"; "ability";
                  "ization"]%string)).

Fixpoint insert_by_len (t : str) (l : list str) : list str :=
  match l with
  | [] => [t]
  | u :: l' => if length t <? length u then u :: insert_by_len t l' else t :: l
  end.

(** [sorted(terms, key=lambda x: len(x), reverse=True)]: longest first, terms
    of one length in their original order. *)
Definition sorted_longest_first (terms : list str) : list str :=
  fold_right insert_by_len [] terms.

(** The state of one call of [annotate_text]. *)
Definition state : Type := (list annotation * list span)%type.

(** ** [annotate_doccano_v2.py] *)
Module V2.

(** [normalize_text_for_matching] on ASCII text: NFKD changes nothing, the
    apostrophe U+2019 that [replace] looks for is not ASCII, no ASCII
    character is a combining mark, and the text is lower-cased. *)
Definition normalize_text_for_matching (text : str) : str :=
  let text := unicodedata_normalize "NFKD" text in
  Py.lower text.

Definition build_flexible_pattern (term : str) : Re.pattern :=
  let words := Py.split term in
  let escaped_words := map (fun w => Re.escape (lightweight_lemma w)) words in
  let base_pattern := Re.join (Re.Rep Re.Space 1) escaped_words in
  let pattern :=
    if length term <? 6
    then Re.Cat (Re.NotBehind Re.Word) (Re.Cat base_pattern (Re.NotAhead Re.Word))
    else Re.Cat (Re.NotBehind Re.Word)
           (Re.Cat base_pattern (Re.Cat suffix_group (Re.NotAhead Re.Word))) in
  Re.compile pattern true.

Definition MIN_TERM_LEN : nat := 2.

(** The module-level loop that fills [PRECOMPILED]. *)
Definition precompile (CATEGORIES : dictionary)
  : list (string * list (str * Re.pattern)) :=
  map (fun entry : string * list str =>
         let (category, terms) := entry in
         let filtered_terms := filter (fun t => MIN_TERM_LEN <=? length t) terms in
         let terms_sorted := sorted_longest_first filtered_terms in
         (category, map (fun term => (term, build_flexible_pattern term)) terms_sorted))
      CATEGORIES.

Definition MIN_FUZZY_LEN : nat := 6.

(** [r"\b[\w\-]+\b"] *)
Definition word_re : Re.pattern :=
  Re.compile (Re.Cat Re.WordBoundary
                (Re.Cat (Re.Rep Re.WordOrHyphen 1) Re.WordBoundary)) false.

(** The body of [for match in pattern.finditer(text)]; the third component
    is [matched_here]. *)
Definition exact_step (category : string) (original_term : str)
  (st : state * bool) (m : Re.Match) : state * bool :=
  let '(annotations, used_spans, matched_here) := st in
  let span_range := (Re.m_start m, Re.m_end m) in
  if occupied used_spans span_range then st
  else
    let matched_word := Re.group0 m in
    if Py.eqb (Py.lower matched_word) (Py.lower original_term)
    then (annotations ++ [(Re.m_start m, Re.m_end m, category)],
          span_range :: used_spans, true)
    else st.

Definition exact_pass (text : str) (category : string) (original_term : str)
  (pattern : Re.pattern) (st : state) : state * bool :=
  fold_left (exact_step category original_term) (Re.finditer pattern text)
            (st, false).

Section Fuzzy.
Variable b : backend.
Variable text : str.
Variable category : string.
Variables target lemma_target : str.

(** [for w in words_unique: ...]; an accepted word ends the loop. *)
Fixpoint fuzzy_loop (words_unique : list str) (st : state) : state :=
  match words_unique with
  | [] => st
  | w :: rest =>
      let (annotations, used_spans) := st in
      let wn := normalize_text_for_matching w in
      if length w <? MIN_FUZZY_LEN then fuzzy_loop rest st
      else
        let idx := Py.find (Py.lower text) (Py.lower w) in
        let span_range := (idx, idx + Py.len w)%Z in
        if occupied used_spans span_range then fuzzy_loop rest st
        else if Py.eqb (lightweight_lemma wn) lemma_target then fuzzy_loop rest st
        else
          let sim := similarity b wn target in
          if at_least_88 sim
          then (annotations ++ [(idx, (idx + Py.len w)%Z, category)],
                span_range :: used_spans)
          else fuzzy_loop rest st
  end.

End Fuzzy.

(** The fuzzy pass of one term. *)
Definition fuzzy_pass (b : backend) (text : str) (category : string)
  (original_term : str) (words_unique : list str) (st : state) : state :=
  let target := normalize_text_for_matching original_term in
  let lemma_target := lightweight_lemma target in
  fuzzy_loop b text category target lemma_target words_unique st.

(** The body of [for original_term, pattern in term_list]. *)
Definition process_term (b : backend) (text : str) (words_unique : list str)
  (category : string) (st : state) (entry : str * Re.pattern) : state :=
  let (original_term, pattern) := entry in
  let (st1, matched_here) := exact_pass text category original_term pattern st in
  if negb matched_here && (MIN_FUZZY_LEN <=? length original_term)
  then fuzzy_pass b text category original_term words_unique st1
  else st1.

Definition annotate_text (b : backend)
  (PRECOMPILED : list (string * list (str * Re.pattern))) (text : str)
  : list annotation :=
  let words := Re.findall word_re text in
  let words_unique := Py.fromkeys [] words in
  fst (fold_left
         (fun (st : state) (entry : string * list (str * Re.pattern)) =>
            let (category, term_list) := entry in
            fold_left (process_term b text words_unique category) term_list st)
         PRECOMPILED ([], [])).

(** [annotate_text] with the index built from a given dictionary. *)
Definition annotate (b : backend) (CATEGORIES : dictionary) (text : str)
  : list annotation :=
  annotate_text b (precompile CATEGORIES) text.

End V2.

(** ** [annotate_doccano_v2 copy.py] *)
Module V2Copy.

(** [normalize_text_for_matching] on ASCII text: NFKD changes nothing, no
    ASCII character is a combining mark, and the text is lower-cased. *)
Definition normalize_text_for_matching (text : str) : str :=
  let text := unicodedata_normalize "NFKD" text in
  Py.lower text.

Definition EXCLUDE_SUFFIX_TERMS : list str :=
  map lit ["note"; "text"; "data"; "info"; "section"]%string.

(** [({base}|{lemma})] *)
Definition base_or_lemma (term : str) : Re.regex :=
  let base := Re.escape term in
  let lemma := Re.escape (lightweight_lemma term) in
  Re.Alt base lemma.

(** The first [def build_flexible_pattern]: the one bound to the name while
    the module-level loop fills [PRECOMPILED]. *)
Definition build_flexible_pattern (term : str) : Re.pattern :=
  let pattern :=
    if existsb (Py.eqb (Py.lower term)) EXCLUDE_SUFFIX_TERMS
    then Re.Cat (Re.NotBehind Re.Word)
           (Re.Cat (base_or_lemma term) (Re.NotAhead Re.Word))
    else Re.Cat (Re.NotBehind Re.Word)
           (Re.Cat (base_or_lemma term) (Re.Cat suffix_group (Re.NotAhead Re.Word))) in
  Re.compile pattern true.

(** The module-level loop that fills [PRECOMPILED]; [annotate_text] reads the
    pattern of an entry as a value that may be [None]. *)
Definition precompile (CATEGORIES : dictionary)
  : list (string * list (str * option Re.pattern)) :=
  map (fun entry : string * list str =>
         let (category, terms) := entry in
         let terms_sorted := sorted_longest_first terms in
         (category,
          map (fun term => (term, Some (build_flexible_pattern term))) terms_sorted))
      CATEGORIES.

(** The second [def build_flexible_pattern], which rebinds the name after
    [PRECOMPILED] has been filled; nothing calls it afterwards. *)
Definition build_flexible_pattern_redefined (term : str) : option Re.pattern :=
  if length term <? 3 then None
  else
    Some (Re.compile
            (Re.Cat (Re.NotBehind Re.Word)
               (Re.Cat (base_or_lemma term) (Re.Cat suffix_group (Re.NotAhead Re.Word))))
            true).

(** [r"\b[\w\-]{3,}\b"] *)
Definition word_re : Re.pattern :=
  Re.compile (Re.Cat Re.WordBoundary
                (Re.Cat (Re.Rep Re.WordOrHyphen 3) Re.WordBoundary)) false.

(** What a Python call gives back: a value, or the exception it raised. *)
Inductive outcome (A : Type) : Type :=
| Returned (a : A)
| Raised (exception : string).
Arguments Returned {A} a.
Arguments Raised {A} exception.

Definition bind {A B : Type} (x : outcome A) (f : A -> outcome B) : outcome B :=
  match x with
  | Returned a => f a
  | Raised e => Raised e
  end.

(** [pattern.finditer(text)] on an entry of [PRECOMPILED]: an attribute
    lookup on [None] raises. *)
Definition finditer (pattern : option Re.pattern) (text : str)
  : outcome (list Re.Match) :=
  match pattern with
  | Some p => Returned (Re.finditer p text)
  | None => Raised "AttributeError"
  end.

(** The body of [for match in pattern.finditer(text)]; the third component
    is [matched_here]. *)
Definition exact_step (category : string) (original_term : str)
  (st : state * bool) (m : Re.Match) : state * bool :=
  let '(annotations, used_spans, matched_here) := st in
  let span_range := (Re.m_start m, Re.m_end m) in
  if occupied used_spans span_range then st
  else if Py.eqb (lightweight_lemma (Re.group0 m)) (lightweight_lemma original_term)
  then (annotations ++ [(Re.m_start m, Re.m_end m, category)],
        span_range :: used_spans, true)
  else st.

Definition exact_pass (text : str) (category : string) (original_term : str)
  (pattern : option Re.pattern) (st : state) : outcome (state * bool) :=
  bind (finditer pattern text)
       (fun found =>
          Returned (fold_left (exact_step category original_term) found (st, false))).

Section Fuzzy.
Variable b : backend.
Variable text : str.
Variable category : string.
Variables target lemma_target : str.

(** [for w in words_unique: ...]; the [break] is reached by the first word
    that scores 88 or more, unless the [continue] of the overlap test is
    taken first. *)
Fixpoint fuzzy_loop (words_unique : list str) (st : state) : state :=
  match words_unique with
  | [] => st
  | w :: rest =>
      let (annotations, used_spans) := st in
      let wn := normalize_text_for_matching w in
      if length wn <? 3 then fuzzy_loop rest st
      else if Py.eqb (lightweight_lemma wn) lemma_target then fuzzy_loop rest st
      else
        let sim := similarity b wn target in
        if at_least_88 sim then
          let idx := Py.find (Py.lower text) (Py.lower w) in
          if (idx =? -1)%Z then st
          else
            let span_range := (idx, idx + Py.len w)%Z in
            if occupied used_spans span_range then fuzzy_loop rest st
            else (annotations ++ [(idx, (idx + Py.len w)%Z, category)],
                  span_range :: used_spans)
        else fuzzy_loop rest st
  end.

End Fuzzy.

(** The fuzzy pass of one term. *)
Definition fuzzy_pass (b : backend) (text : str) (category : string)
  (original_term : str) (words_unique : list str) (st : state) : state :=
  let target := normalize_text_for_matching original_term in
  let lemma_target := lightweight_lemma target in
  fuzzy_loop b text category target lemma_target words_unique st.

(** The body of [for original_term, pattern in term_list]. *)
Definition process_term (b : backend) (text : str) (words_unique : list str)
  (category : string) (st : state) (entry : str * option Re.pattern)
  : outcome state :=
  let (original_term, pattern) := entry in
  match pattern with
  | None => Returned st
  | Some _ =>
      bind (exact_pass text category original_term pattern st)
           (fun r =>
              let (st1, matched_here) := r in
              if negb matched_here
              then Returned (fuzzy_pass b text category original_term words_unique st1)
              else Returned st1)
  end.

(** A [for] loop whose body may raise. *)
Fixpoint for_each {A S : Type} (body : S -> A -> outcome S) (items : list A)
  (st : S) : outcome S :=
  match items with
  | [] => Returned st
  | x :: rest => bind (body st x) (for_each body rest)
  end.

Definition annotate_text (b : backend)
  (PRECOMPILED : list (string * list (str * option Re.pattern))) (text : str)
  : outcome (list annotation) :=
  let words := Re.findall word_re text in
  let words_unique := Py.fromkeys [] words in
  bind (for_each
          (fun (st : state) (entry : string * list (str * option Re.pattern)) =>
             let (category, term_list) := entry in
             for_each (process_term b text words_unique category) term_list st)
          PRECOMPILED ([], []))
       (fun st => Returned (fst st)).

(** [annotate_text] with the index built from a given dictionary. *)
Definition annotate (b : backend) (CATEGORIES : dictionary) (text : str)
  : outcome (list annotation) :=
  annotate_text b (precompile CATEGORIES) text.

End V2Copy.

(** ** What the claims speak of *)

(** [s.isascii()]: every code point of the text is below 128.  On such
    texts the model of [str.lower], [\w], [\s] and [unicodedata.normalize]
    above is what Python computes. *)
Definition ascii_text (s : str) : Prop :=
  forallb (fun c => Py.code c <? 128) s = true.

(** Two annotations share a character index. *)
Definition share_index (x y : annotation) : Prop :=
  exists i : Z,
    (fst (fst x) <= i < snd (fst x))%Z /\ (fst (fst y) <= i < snd (fst y))%Z.

(** No two annotations of a list share a character index. *)
Definition non_overlapping (l : list annotation) : Prop :=
  forall i j x y,
    nth_error l i = Some x -> nth_error l j = Some y -> i <> j ->
    ~ share_index x y.

(** A suffix of the list can be stripped from [w]: the test of
    [lightweight_lemma]'s loop. *)
Definition strippable (w suf : str) : bool :=
  Py.endswith w suf && (length suf + 2 <? length w).

(** The offset the fuzzy pass gives a word: its first occurrence in the
    text, case ignored. *)
Definition first_occurrence (text w : str) : Z :=
  Py.find (Py.lower text) (Py.lower w).

Definition word_span (text w : str) : span :=
  (first_occurrence text w, first_occurrence text w + Py.len w)%Z.

Definition word_annotation (text w : str) (category : string) : annotation :=
  (first_occurrence text w, (first_occurrence text w + Py.len w)%Z, category).

(** The word the fuzzy pass of [annotate_doccano_v2.py] accepts: long enough,
    over a free interval, outside the lemma family of the term, and scoring 88
    or more. *)
Definition v2_accepts (b : backend) (text term : str) (used_spans : list span)
  (w : str) : bool :=
  let wn := V2.normalize_text_for_matching w in
  let target := V2.normalize_text_for_matching term in
  negb (length w <? V2.MIN_FUZZY_LEN)
  && negb (occupied used_spans (word_span text w))
  && negb (Py.eqb (lightweight_lemma wn) (lightweight_lemma target))
  && at_least_88 (similarity b wn target).

(** The word that ends the fuzzy loop of the copy: three characters or more,
    outside the lemma family of the term, scoring 88 or more, and either not
    found in the text or found over a free interval. *)
Definition copy_stops_at (b : backend) (text term : str)
  (used_spans : list span) (w : str) : bool :=
  let wn := V2Copy.normalize_text_for_matching w in
  let target := V2Copy.normalize_text_for_matching term in
  negb (length wn <? 3)
  && negb (Py.eqb (lightweight_lemma wn) (lightweight_lemma target))
  && at_least_88 (similarity b wn target)
  && ((first_occurrence text w =? -1)%Z
      || negb (occupied used_spans (word_span text w))).

(** The state after a word was accepted. *)
Definition accept_word (text w : str) (category : string) (st : state) : state :=
  (fst st ++ [word_annotation text w category], word_span text w :: snd st).

(** An annotation the exact pass of a term may add: it comes from a match of
    the term's pattern whose surface has the lemma of the term, over an
    interval that passes the occupied test against [used_spans]. *)
Definition accepted_from (category : string) (original_term : str)
  (used_spans : list span) (found : list Re.Match) (a : annotation) : Prop :=
  exists m,
    In m found /\
    a = (Re.m_start m, Re.m_end m, category) /\
    lightweight_lemma (Re.group0 m) = lightweight_lemma original_term /\
    occupied used_spans (Re.m_start m, Re.m_end m) = false.

(** ** The shape of cleaned text *)

(** The number of whitespace characters a text starts with. *)
Fixpoint ws_len (s : str) : nat :=
  match s with
  | c :: s' => if Py.isspace c then S (ws_len s') else 0
  | [] => 0
  end.

(** No two neighbours of the text form a [bad] pair. *)
Fixpoint adjacent_ok (bad : ascii -> ascii -> bool) (t : str) : bool :=
  match t with
  | a :: t' =>
      match t' with
      | b :: _ => negb (bad a b) && adjacent_ok bad t'
      | [] => true
      end
  | [] => true
  end.

Definition is_hyphen (c : ascii) : bool := Ascii.eqb "-"%char c.

(** No whitespace next to a hyphen. *)
Definition hyphen_tight (t : str) : bool :=
  adjacent_ok (fun a b => Py.isspace a && is_hyphen b
                          || is_hyphen a && Py.isspace b) t.

(** Every whitespace character is a space, and no two of them are
    neighbours. *)
Definition single_spaced (t : str) : bool :=
  forallb (fun c => negb (Py.isspace c) || Ascii.eqb " "%char c) t
  && adjacent_ok (fun a b => Py.isspace a && Py.isspace b) t.

(** What [r'\s*-\s*'] matches at the start of [s]: the leading whitespace, a
    hyphen and the whitespace after it. *)
Definition hyphen_match (s : str) : option nat :=
  match Py.lstrip s with
  | c :: r => if is_hyphen c then Some (S (ws_len s) + ws_len r) else None
  | [] => None
  end.

(** What [r'\s+'] matches at the start of [s]: the leading whitespace, when
    there is some. *)
Definition spaces_match (s : str) : option nat :=
  if 1 <=? ws_len s then Some (ws_len s) else None.

(** The first character after the leading whitespace is a hyphen: the
    condition for [r'\s*-\s*'] to match at the start of [s]. *)
Definition hyphen_ahead (s : str) : bool :=
  match Py.lstrip s with
  | c :: _ => is_hyphen c
  | [] => false
  end.

(** What is left of [s] after that match. *)
Definition after_hyphen (s : str) : str := Py.lstrip (tl (Py.lstrip s)).

(** ** The scenarios *)

(** A short term in the first category and, in the second, a longer term
    that contains it with text on both sides. *)
Definition heart_dictionary : dictionary :=
  [("A", [lit "heart"]); ("B", [lit "acute heart failure"])]%string.
Definition heart_text : str := lit "acute heart failure onset".

Definition fatigue_dictionary : dictionary :=
  [("Symptom", [lit "fatigue"])]%string.
Definition fatigue_text : str := lit "Patients reported fatigued states.".

Definition note_dictionary : dictionary := [("Process", [lit "note"])]%string.
Definition note_text : str := lit "See the notes section.".

(** A term of two characters. *)
Definition unit_dictionary : dictionary := [("Unit", [lit "pH"])]%string.
Definition unit_text : str := lit "the pH of it".

(** The two ways the optional import can go. *)
Definition backends : list backend := [without_rapidfuzz; with_rapidfuzz].

(** ** What the further properties speak of *)

(** [text[i]] when [i] is an offset of the text, and nothing otherwise. *)
Definition char_at (text : str) (i : Z) : option ascii :=
  if (i <? 0)%Z then None else nth_error text (Z.to_nat i).

(** The interval of an annotation. *)
Definition span_of (a : annotation) : span := fst a.

(** The state of [annotate_text] only moves by accepting an annotation over
    an interval that passes the occupied test of the moment; [P] is what is
    known of each accepted annotation. *)
Inductive grows (P : annotation -> Prop) : state -> state -> Prop :=
| grows_refl (st : state) : grows P st st
| grows_step (st : state) (a : annotation) (st' : state) :
    P a ->
    occupied (snd st) (span_of a) = false ->
    grows P (fst st ++ [a], span_of a :: snd st) st' ->
    grows P st st'.

(** The later annotation reaches over the earlier one on both sides. *)
Definition reaches_over (later earlier : annotation) : Prop :=
  (fst (span_of later) < fst (span_of earlier))%Z /\
  (snd (span_of earlier) < snd (span_of later))%Z.

(** The annotation lies inside the text. *)
Definition within_text (text : str) (a : annotation) : Prop :=
  (0 <= fst (span_of a) <= snd (span_of a))%Z /\
  (snd (span_of a) <= Py.len text)%Z.

(** The match stands between two characters that are not word characters
    (or ends of the text). *)
Definition whole_word (text : str) (m : Re.Match) : Prop :=
  Re.word_at (char_at text (Re.m_start m - 1)) = false /\
  Re.word_at (char_at text (Re.m_end m)) = false.

(** The offsets of a match are offsets of the text. *)
Definition match_within (text : str) (m : Re.Match) : Prop :=
  (0 <= Re.m_start m <= Re.m_end m)%Z /\ (Re.m_end m <= Py.len text)%Z.

(** Where an accepted annotation comes from: a match of some pattern over
    the text, or the first occurrence of a word of the pool. *)
Definition exact_origin (text : str) (a : annotation) : Prop :=
  exists p m, In m (Re.finditer p text) /\ span_of a = (Re.m_start m, Re.m_end m).

Definition fuzzy_origin (text : str) (a : annotation) : Prop :=
  exists w, span_of a = word_span text w /\ first_occurrence text w <> (-1)%Z.

(** Whenever two annotations of the list share a character index, the one
    accepted later reaches over the one accepted earlier on both sides. *)
Definition accepted_order (l : list annotation) : Prop :=
  forall i j x y,
    i < j -> nth_error l i = Some x -> nth_error l j = Some y ->
    share_index x y -> reaches_over y x.

(** [y] is not longer than [x]: the order of a term list. *)
Definition not_longer (x y : str) : Prop := length y <= length x.

(** ** The record written for a chunk

    [process_single_file], [process_folder] and [process_all_articles] read
    the text of a chunk, build the same dictionary [json_line] from it and
    write it out; the record is built here from the text read and from the
    chunk number [int(...)] has parsed. *)
Module Doccano.

Record record : Type := mkRecord {
  id : Z;
  text : str;
  label : list annotation;
  Comments : list str
}.

(** [annotate_doccano_v2.py] *)
Definition json_line (b : backend)
  (PRECOMPILED : list (string * list (str * Re.pattern)))
  (chunk_num : Z) (raw : str) : record :=
  let text_clean := clean_text raw in
  let annotations := V2.annotate_text b PRECOMPILED text_clean in
  {| id := chunk_num; text := text_clean; label := annotations; Comments := [] |}.

(** [annotate_doccano_v2 copy.py] *)
Definition json_line_copy (b : backend)
  (PRECOMPILED : list (string * list (str * option Re.pattern)))
  (chunk_num : Z) (raw : str) : V2Copy.outcome record :=
  let text_clean := clean_text raw in
  V2Copy.bind (V2Copy.annotate_text b PRECOMPILED text_clean)
    (fun annotations =>
       V2Copy.Returned
         {| id := chunk_num; text := text_clean; label := annotations;
            Comments := [] |}).

End Doccano.

(** The offsets of the matches, without the matched strings. *)
Definition spans_of (found : list Re.Match) : list span :=
  map (fun m => (Re.m_start m, Re.m_end m)) found.

(** ** [clean_text] on Unicode text

    Here a text is the list of its code points, so that the characters
    [clean_text] looks for are there (U+FEFF, U+200B, U+00A0, the curly
    quotes and the em dash) and [\s] and [str.strip] see the whitespace of
    Unicode.  [unicodedata.normalize('NFKC', _)] reads the Unicode character
    database, which is not part of the repository: it is a parameter. *)
Module Unicode.

(** A Python [str]: the list of its code points. *)
Definition ustr : Type := list N.

Definition hyphen : N := 45.  (* U+002D, the hyphen *)
Definition space : N := 32.   (* U+0020, the space *)
Definition quote : N := 34.   (* U+0022, the straight double quote *)

(** The code points [c] with [c.isspace()]; the class [\s] of a [str]
    pattern holds the same ones. *)
Definition whitespace : list N :=
  [9; 10; 11; 12; 13; 28; 29; 30; 31; 32; 133; 160; 5760;
   8192; 8193; 8194; 8195; 8196; 8197; 8198; 8199; 8200; 8201; 8202;
   8232; 8233; 8239; 8287; 12288]%N.

Definition isspace (c : N) : bool := existsb (N.eqb c) whitespace.

(** [text.replace(old, new)] for an [old] of one character. *)
Definition replace (old : N) (new text : ustr) : ustr :=
  flat_map (fun c => if N.eqb c old then new else [c]) text.

Fixpoint lstrip (s : ustr) : ustr :=
  match s with
  | c :: s' => if isspace c then lstrip s' else s
  | [] => []
  end.

Definition rstrip (s : ustr) : ustr := rev (lstrip (rev s)).

(** [s.strip()] *)
Definition strip (s : ustr) : ustr := rstrip (lstrip s).

(** The patterns of [clean_text]: literal characters, concatenation and
    greedy runs of whitespace. *)
Inductive regex : Type :=
| Chr (a : N)             (* one literal character *)
| Cat (r1 r2 : regex)     (* r1 r2 *)
| Spaces (min : nat).     (* \s{min,} : \s* \s+ *)

(** What is left to match: the rest of the text and the number of characters
    consumed so far. *)
Definition cont : Type := ustr -> nat -> option nat.

Fixpoint spaces_greedy (min : nat) (s : ustr) (n : nat) (k : cont) {struct s}
  : option nat :=
  let stop := if min =? 0 then k s n else None in
  match s with
  | c :: s' =>
      if isspace c then
        match spaces_greedy (pred min) s' (S n) k with
        | Some e => Some e
        | None => stop
        end
      else stop
  | [] => stop
  end.

Fixpoint run (r : regex) (s : ustr) (n : nat) (k : cont) {struct r}
  : option nat :=
  match r with
  | Chr a =>
      match s with
      | c :: s' => if N.eqb a c then k s' (S n) else None
      | [] => None
      end
  | Cat r1 r2 => run r1 s n (fun s' n' => run r2 s' n' k)
  | Spaces min => spaces_greedy min s n k
  end.

(** One attempt at a fixed start position, as [Re.match_at]. *)
Definition match_at (p : regex) (s : ustr) (must_advance : bool) : option nat :=
  run p s 0 (fun _ n => if must_advance && (n =? 0) then None else Some n).

Definition attempt (p : regex) (s : ustr) : list nat :=
  match match_at p s false with
  | None => []
  | Some 0 => 0 :: match match_at p s true with Some n => [n] | None => [] end
  | Some n => [n]
  end.

Fixpoint sub_from (p : regex) (repl : ustr) (s : ustr) (skip : nat) {struct s}
  : ustr :=
  match skip with
  | S k =>
      match s with
      | [] => []
      | c :: s' => sub_from p repl s' k
      end
  | O =>
      let ls := attempt p s in
      concat (map (fun _ => repl) ls)
      ++ match s with
         | [] => []
         | c :: s' =>
             (if last ls 0 =? 0 then [c] else [])
             ++ sub_from p repl s' (pred (last ls 0))
         end
  end.

(** [re.sub(pattern, repl, text)] *)
Definition sub (p : regex) (repl text : ustr) : ustr := sub_from p repl text 0.

(** [r'\s*-\s*'] *)
Definition hyphen_re : regex := Cat (Spaces 0) (Cat (Chr hyphen) (Spaces 0)).

(** [r'\s+'] *)
Definition spaces_re : regex := Spaces 1.

Section Clean.

(** [unicodedata.normalize('NFKC', _)] *)
Variable NFKC : ustr -> ustr.

(** [clean_text], line by line. *)
Definition clean_text (text : ustr) : ustr :=
  let text := replace 160 [space] (replace 8203 [] (replace 65279 [] text)) in
  let text := NFKC text in
  let text := replace 8212 [hyphen]
                (replace 8221 [quote] (replace 8220 [quote] text)) in
  let text := sub hyphen_re [hyphen] text in
  let text := sub spaces_re [space] text in
  strip text.

End Clean.

(** The shape of cleaned text, as above. *)

(** The number of whitespace characters a text starts with. *)
Fixpoint ws_len (s : ustr) : nat :=
  match s with
  | c :: s' => if isspace c then S (ws_len s') else 0
  | [] => 0
  end.

(** No two neighbours of the text form a [bad] pair. *)
Fixpoint adjacent_ok (bad : N -> N -> bool) (t : ustr) : bool :=
  match t with
  | a :: t' =>
      match t' with
      | b :: _ => negb (bad a b) && adjacent_ok bad t'
      | [] => true
      end
  | [] => true
  end.

Definition is_hyphen (c : N) : bool := N.eqb hyphen c.

(** No whitespace next to a hyphen. *)
Definition hyphen_tight (t : ustr) : bool :=
  adjacent_ok (fun a b => isspace a && is_hyphen b
                          || is_hyphen a && isspace b) t.

(** Every whitespace character is a space, and no two of them are
    neighbours. *)
Definition single_spaced (t : ustr) : bool :=
  forallb (fun c => negb (isspace c) || N.eqb space c) t
  && adjacent_ok (fun a b => isspace a && isspace b) t.

(** What [r'\s*-\s*'] matches at the start of [s]: the leading whitespace, a
    hyphen and the whitespace after it. *)
Definition hyphen_match (s : ustr) : option nat :=
  match lstrip s with
  | c :: r => if is_hyphen c then Some (S (ws_len s) + ws_len r) else None
  | [] => None
  end.

(** What [r'\s+'] matches at the start of [s]: the leading whitespace, when
    there is some. *)
Definition spaces_match (s : ustr) : option nat :=
  if 1 <=? ws_len s then Some (ws_len s) else None.

(** The first character after the leading whitespace is a hyphen: the
    condition for [r'\s*-\s*'] to match at the start of [s]. *)
Definition hyphen_ahead (s : ustr) : bool :=
  match lstrip s with
  | c :: _ => is_hyphen c
  | [] => false
  end.

(** What is left of [s] after that match. *)
Definition after_hyphen (s : ustr) : ustr := lstrip (tl (lstrip s)).

(** None of the code points [cs] occurs in the text. *)
Definition free_of (cs : list N) (t : ustr) : Prop :=
  forall c, In c cs -> ~ In c t.

(** The step keeps a text in normal form: when normalising changes nothing
    before the step, it changes nothing after it. *)
Definition keeps_normal (NFKC : ustr -> ustr) (step : ustr -> ustr) : Prop :=
  forall t, NFKC t = t -> NFKC (step t) = step t.

(** What makes cleaned text stay as it is: normalising twice is normalising
    once; normalising brings in none of U+FEFF, U+200B and U+00A0; and the
    four later lines of [clean_text] keep a text in normal form. *)
Record normal_form (NFKC : ustr -> ustr) : Prop := {
  nf_idempotent : forall t, NFKC (NFKC t) = NFKC t;
  nf_invisible :
    forall t, free_of [65279; 8203; 160]%N t ->
              free_of [65279; 8203; 160]%N (NFKC t);
  nf_quotes :
    keeps_normal NFKC
      (fun t => replace 8212 [hyphen]
                  (replace 8221 [quote] (replace 8220 [quote] t)));
  nf_hyphens : keeps_normal NFKC (sub hyphen_re [hyphen]);
  nf_spaces : keeps_normal NFKC (sub spaces_re [space]);
  nf_strip : keeps_normal NFKC strip
}.

(** What is used of [unicodedata.normalize('NFKC', _)].  Besides the first
    two facts above: a piece of a text in normal form is in normal form, and
    so are two texts in normal form joined by a space, a hyphen or a straight
    quote, characters that combine with nothing. *)
Record closed_normal_form (NFKC : ustr -> ustr) : Prop := {
  cn_idempotent : forall t, NFKC (NFKC t) = NFKC t;
  cn_invisible :
    forall t, free_of [65279; 8203; 160]%N t ->
              free_of [65279; 8203; 160]%N (NFKC t);
  cn_piece : forall l t r, NFKC (l ++ t ++ r) = l ++ t ++ r -> NFKC t = t;
  cn_join :
    forall c a b, In c [space; hyphen; quote] ->
                  NFKC a = a -> NFKC b = b -> NFKC (a ++ c :: b) = a ++ c :: b
}.

End Unicode.

(** The code points of an ASCII text. *)
Definition codes (s : str) : Unicode.ustr := map N_of_ascii s.

(** * Properties *)

(** ** Strings *)

Lemma str_eqb_eq (a b : str) : Py.eqb a b = true <-> a = b.
Proof.
  revert b; induction a as [|x a IH]; intros [|y b]; simpl; split;
    try congruence; try reflexivity.
  - intros H. apply andb_true_iff in H as [H1 H2].
    apply Ascii.eqb_eq in H1. apply IH in H2. congruence.
  - intros H. injection H as -> ->.
    apply andb_true_iff. split; [apply Ascii.eqb_refl | now apply IH].
Qed.

Lemma str_eqb_refl (a : str) : Py.eqb a a = true.
Proof. now apply str_eqb_eq. Qed.

Lemma lower_char_idem (c : ascii) :
  Py.lower_char (Py.lower_char c) = Py.lower_char c.
Proof. destruct c as [[] [] [] [] [] [] [] []]; reflexivity. Qed.

Lemma lower_idem (w : str) : Py.lower (Py.lower w) = Py.lower w.
Proof.
  unfold Py.lower. rewrite map_map. apply map_ext. intros c. apply lower_char_idem.
Qed.

Lemma lower_app (a b : str) : Py.lower (a ++ b) = Py.lower a ++ Py.lower b.
Proof. apply map_app. Qed.

Lemma lower_length (w : str) : length (Py.lower w) = length w.
Proof. apply length_map. Qed.

(** A prefix of a lower-case string is in lower case. *)
Lemma lower_prefix (w x rest : str) :
  Py.lower w = x ++ rest -> Py.lower x = x.
Proof.
  intros H. pose proof (lower_idem w) as Hi. rewrite H, lower_app in Hi.
  apply (f_equal (firstn (length x))) in Hi.
  rewrite <- (lower_length x) in Hi at 1.
  rewrite firstn_app, Nat.sub_diag, firstn_all in Hi. simpl in Hi.
  rewrite firstn_app, Nat.sub_diag, firstn_all in Hi. simpl in Hi.
  now rewrite !app_nil_r in Hi.
Qed.

Lemma endswith_split (w suf : str) :
  Py.endswith w suf = true -> w = firstn (length w - length suf) w ++ suf.
Proof.
  unfold Py.endswith. intros H. apply str_eqb_eq in H.
  rewrite <- H at 2. symmetry. apply firstn_skipn.
Qed.

(** ** The lemmatiser *)

Lemma suf_list_nonempty : Forall (fun suf : str => 0 < length suf) suf_list.
Proof. repeat constructor. Qed.

(** What the suffix loop returns: the word itself when no suffix passes the
    test, and otherwise the word without the first suffix that does. *)
Lemma strip_first_suffix_cases (w : str) (sufs : list str) :
  Forall (fun suf : str => 0 < length suf) sufs ->
  (strip_first_suffix w sufs = w /\
   forall suf, In suf sufs -> strippable w suf = false)
  \/
  (exists suf, In suf sufs /\ strippable w suf = true /\
               w = strip_first_suffix w sufs ++ suf /\
               length suf + 2 < length w).
Proof.
  intros Hne. induction sufs as [|suf sufs IH]; simpl.
  - left. split; [reflexivity | intros ? []].
  - inversion Hne as [|? ? Hsuf Hrest]; subst.
    fold (strippable w suf). destruct (strippable w suf) eqn:E.
    + right. exists suf. split; [now left|]. split; [exact E|].
      unfold strippable in E. apply andb_true_iff in E as [E1 E2].
      apply Nat.ltb_lt in E2. split; [|exact E2].
      unfold Py.drop_last. destruct (Nat.eqb_spec (length suf) 0) as [Z0|_]; [lia|].
      now apply endswith_split.
    + destruct (IH Hrest) as [[H1 H2] | (s' & Hin & Hs & Hw & Hl)].
      * left. split; [exact H1|]. intros s' [<- | Hin]; [exact E | now apply H2].
      * right. exists s'. split; [now right|]. now repeat split.
Qed.

Lemma lemma_is_prefix (word : str) :
  exists rest, Py.lower word = lightweight_lemma word ++ rest.
Proof.
  unfold lightweight_lemma.
  destruct (strip_first_suffix_cases (Py.lower word) suf_list suf_list_nonempty)
    as [[H _] | (suf & _ & _ & H & _)].
  - exists []. now rewrite H, app_nil_r.
  - now exists suf.
Qed.

Lemma lemma_is_lower (word : str) :
  Py.lower (lightweight_lemma word) = lightweight_lemma word.
Proof.
  destruct (lemma_is_prefix word) as [rest H]. exact (lower_prefix _ _ _ H).
Qed.

(** The lemma of a word depends on its lower-case form only. *)
Lemma lemma_of_lower (a b : str) :
  Py.lower a = Py.lower b -> lightweight_lemma a = lightweight_lemma b.
Proof. unfold lightweight_lemma. now intros ->. Qed.

(** C10: [lightweight_lemma(w)] is a prefix of [w.lower()]; it is either the
    whole of [w.lower()] or what is left of it once a suffix of the list is
    removed, and then at least three characters are left; it is empty only
    when the word is. *)
Theorem lightweight_lemma_root (word : str) :
  (exists rest, Py.lower word = lightweight_lemma word ++ rest) /\
  (lightweight_lemma word = Py.lower word \/
   exists suf, In suf suf_list /\
               Py.lower word = lightweight_lemma word ++ suf /\
               3 <= length (lightweight_lemma word)) /\
  (word <> [] -> lightweight_lemma word <> []).
Proof.
  split; [apply lemma_is_prefix|].
  unfold lightweight_lemma.
  destruct (strip_first_suffix_cases (Py.lower word) suf_list suf_list_nonempty)
    as [[H _] | (suf & Hin & _ & H & Hl)].
  - split; [now left|]. rewrite H. intros Hw Hl. apply Hw.
    apply (f_equal (@length ascii)) in Hl. rewrite lower_length in Hl.
    now destruct word.
  - assert (Hlen : 3 <= length (strip_first_suffix (Py.lower word) suf_list)).
    { apply (f_equal (@length ascii)) in H. rewrite length_app in H. lia. }
    split.
    + right. exists suf. now repeat split.
    + intros _ Hnil. rewrite Hnil in Hlen. simpl in Hlen. lia.
Qed.

(** C2, as the code has it: lemmatising a root again leaves it unchanged
    exactly when no suffix of the list can be stripped from the root; one call
    strips one suffix, so a root that still ends in a listed suffix loses
    it. *)
Theorem lemma_stable_iff (word : str) :
  lightweight_lemma (lightweight_lemma word) = lightweight_lemma word <->
  forall suf, In suf suf_list -> strippable (lightweight_lemma word) suf = false.
Proof.
  unfold lightweight_lemma at 1. rewrite lemma_is_lower.
  destruct (strip_first_suffix_cases (lightweight_lemma word) suf_list
              suf_list_nonempty) as [[H1 H2] | (suf & Hin & Hs & Hw & Hl)].
  - split; [intros _; exact H2 | intros _; exact H1].
  - split.
    + intros Heq. rewrite Heq in Hw.
      apply (f_equal (@length ascii)) in Hw. rewrite length_app in Hw.
      pose proof suf_list_nonempty as Hne. rewrite Forall_forall in Hne.
      specialize (Hne suf Hin). simpl in Hne. lia.
    + intros Hall. rewrite (Hall suf Hin) in Hs. discriminate.
Qed.

(** C2, as the spec has it, fails: "winnings" loses its "s", and the root
    "winning" then loses its "ing". *)
Lemma lemma_not_stable_winnings :
  lightweight_lemma (lit "winnings") = lit "winning" /\
  lightweight_lemma (lightweight_lemma (lit "winnings")) = lit "winn" /\
  lightweight_lemma (lightweight_lemma (lit "winnings"))
  <> lightweight_lemma (lit "winnings").
Proof. repeat split. discriminate. Qed.

(** ** The cleaner *)

Lemma ws_len_skipn (s : str) : skipn (ws_len s) s = Py.lstrip s.
Proof.
  induction s as [|c s IH]; simpl; [reflexivity|].
  destruct (Py.isspace c); [exact IH | reflexivity].
Qed.

Lemma ws_len_le (s : str) : ws_len s <= length s.
Proof.
  induction s as [|c s IH]; simpl; [lia|]. destruct (Py.isspace c); simpl; lia.
Qed.

Lemma ws_len_lstrip (s : str) : ws_len (Py.lstrip s) = 0.
Proof.
  induction s as [|c s IH]; simpl; [reflexivity|].
  destruct (Py.isspace c) eqn:E; [exact IH|]. simpl. now rewrite E.
Qed.

Lemma lstrip_fixed (s : str) : ws_len s = 0 -> Py.lstrip s = s.
Proof. intros H. rewrite <- ws_len_skipn, H. reflexivity. Qed.

Lemma lstrip_idem (s : str) : Py.lstrip (Py.lstrip s) = Py.lstrip s.
Proof. apply lstrip_fixed, ws_len_lstrip. Qed.

(** [\s*] or [\s+] at the end of a pattern takes the whole run. *)
Lemma rep_space_last (s : str) :
  forall min prev n,
  Re.rep_greedy Re.Space min prev s n (fun _ _ m => Some m)
  = if min <=? ws_len s then Some (n + ws_len s) else None.
Proof.
  induction s as [|c s IH]; intros min prev n; simpl.
  - destruct min; simpl; [f_equal; lia | reflexivity].
  - destruct (Py.isspace c).
    + rewrite IH. destruct min as [|min]; simpl.
      * f_equal. lia.
      * destruct (min <=? ws_len s); [f_equal; lia | reflexivity].
    + destruct min; simpl; [f_equal; lia | reflexivity].
Qed.

(** [\s*] before something that cannot start with whitespace takes the whole
    run too: giving a character back never helps. *)
Lemma rep_space_then (k : Re.cont) :
  (forall p p' s n, k p s n = k p' s n) ->
  (forall p c s n, Py.isspace c = true -> k p (c :: s) n = None) ->
  forall s prev n,
  Re.rep_greedy Re.Space 0 prev s n k = k None (Py.lstrip s) (n + ws_len s).
Proof.
  intros Hprev Hfail. induction s as [|c s IH]; intros prev n; simpl.
  - rewrite Nat.add_0_r. apply Hprev.
  - destruct (Py.isspace c) eqn:E.
    + rewrite IH. replace (S n + ws_len s) with (n + S (ws_len s)) by lia.
      destruct (k None (Py.lstrip s) (n + S (ws_len s))); [reflexivity|].
      now apply Hfail.
    + rewrite Nat.add_0_r. apply Hprev.
Qed.

Lemma match_at_hyphen_re (prev : option ascii) (s : str) :
  Re.match_at hyphen_re prev s false = hyphen_match s.
Proof.
  unfold Re.match_at, hyphen_re, hyphen_match. cbn [Re.source Re.ignorecase Re.run andb].
  rewrite rep_space_then.
  - destruct (Py.lstrip s) as [|c r]; [reflexivity|].
    unfold Re.chr_eq, is_hyphen. destruct (Ascii.eqb "-" c); [|reflexivity].
    now rewrite rep_space_last.
  - intros p p' [|c r] n; reflexivity.
  - intros p c r n Hc. unfold Re.chr_eq.
    destruct (Ascii.eqb_spec "-"%char c) as [<-|]; [discriminate | reflexivity].
Qed.

Lemma match_at_spaces_re (prev : option ascii) (s : str) :
  Re.match_at spaces_re prev s false = spaces_match s.
Proof.
  unfold Re.match_at, spaces_re, spaces_match. cbn [Re.source Re.ignorecase Re.run andb].
  now rewrite rep_space_last.
Qed.

Lemma hyphen_match_bounds (s : str) (n : nat) :
  hyphen_match s = Some n -> 0 < n <= length s.
Proof.
  unfold hyphen_match. destruct (Py.lstrip s) as [|c r] eqn:E; [discriminate|].
  destruct (is_hyphen c); [|discriminate]. intros [= <-].
  pose proof (ws_len_le r). pose proof (ws_len_le s).
  pose proof (firstn_skipn (ws_len s) s) as Hs. rewrite ws_len_skipn, E in Hs.
  apply (f_equal (@length ascii)) in Hs.
  rewrite length_app, length_firstn in Hs. simpl in Hs. lia.
Qed.

Lemma spaces_match_bounds (s : str) (n : nat) :
  spaces_match s = Some n -> 0 < n <= length s.
Proof.
  unfold spaces_match. destruct (Nat.leb_spec 1 (ws_len s)); [|discriminate].
  intros [= <-]. pose proof (ws_len_le s). lia.
Qed.

(** [re.sub] for a pattern whose match at a position depends on the text
    ahead only and is never empty: position by position. *)
Section SubByPosition.
Variable p : Re.pattern.
Variable repl : str.
Variable f : str -> option nat.
Hypothesis match_f : forall prev s, Re.match_at p prev s false = f s.
Hypothesis f_bounds : forall s n, f s = Some n -> 0 < n <= length s.

Lemma attempt_by_f (prev : option ascii) (s : str) :
  Re.attempt p prev s = match f s with Some n => [n] | None => [] end.
Proof.
  unfold Re.attempt. rewrite match_f. destruct (f s) as [n|] eqn:E; [|reflexivity].
  apply f_bounds in E. destruct n; [lia | reflexivity].
Qed.

Lemma sub_from_prev (prev : option ascii) (s : str) :
  Re.sub_from p repl prev s 0 = Re.sub_from p repl None s 0.
Proof. destruct s; simpl; now rewrite !attempt_by_f. Qed.

Lemma sub_from_skip (k : nat) :
  forall s prev, k <= length s ->
  Re.sub_from p repl prev s k = Re.sub_from p repl None (skipn k s) 0.
Proof.
  induction k as [|k IH]; intros s prev Hk.
  - apply sub_from_prev.
  - destruct s as [|c s]; simpl in Hk; [lia|]. simpl. apply IH. lia.
Qed.

Lemma sub_nil : Re.sub p repl [] = [].
Proof.
  unfold Re.sub. simpl. rewrite attempt_by_f.
  destruct (f []) as [n|] eqn:E; [|reflexivity].
  apply f_bounds in E. simpl in E. lia.
Qed.

Lemma sub_cons (c : ascii) (s : str) :
  Re.sub p repl (c :: s)
  = match f (c :: s) with
    | Some n => repl ++ Re.sub p repl (skipn n (c :: s))
    | None => c :: Re.sub p repl s
    end.
Proof.
  unfold Re.sub. cbn [Re.sub_from]. rewrite attempt_by_f.
  destruct (f (c :: s)) as [n|] eqn:E.
  - apply f_bounds in E. destruct n as [|n]; [lia|]. simpl in E.
    cbn [map concat last Nat.eqb pred]. rewrite app_nil_r. cbn [app].
    rewrite sub_from_skip by lia. reflexivity.
  - cbn [map concat last Nat.eqb pred app]. now rewrite sub_from_prev.
Qed.

End SubByPosition.

Lemma hyphen_not_space (c : ascii) : is_hyphen c = true -> Py.isspace c = false.
Proof. unfold is_hyphen. intros H. apply Ascii.eqb_eq in H. now subst c. Qed.

Lemma skipn_succ {A : Type} (n : nat) :
  forall (l : list A) x r, skipn n l = x :: r -> skipn (S n) l = r.
Proof.
  induction n as [|n IH]; intros [|y l] x r H; simpl in *; try discriminate.
  - now injection H as _ ->.
  - destruct l; [destruct n; discriminate | exact (IH _ _ _ H)].
Qed.

Lemma lstrip_length (s : str) : length (Py.lstrip s) <= length s.
Proof.
  rewrite <- ws_len_skipn, length_skipn. lia.
Qed.

Lemma hyphen_match_ahead (s : str) :
  hyphen_match s
  = if hyphen_ahead s
    then Some (S (ws_len s) + ws_len (tl (Py.lstrip s))) else None.
Proof.
  unfold hyphen_match, hyphen_ahead. now destruct (Py.lstrip s).
Qed.

Lemma skipn_hyphen_match (s : str) :
  hyphen_ahead s = true ->
  skipn (S (ws_len s) + ws_len (tl (Py.lstrip s))) s = after_hyphen s.
Proof.
  unfold hyphen_ahead, after_hyphen. intros H.
  destruct (Py.lstrip s) as [|c r] eqn:E; [discriminate|]. simpl tl.
  rewrite Nat.add_comm, <- skipn_skipn.
  rewrite <- ws_len_skipn in E. rewrite (skipn_succ _ _ _ _ E).
  apply ws_len_skipn.
Qed.

Lemma after_hyphen_shorter (s : str) :
  hyphen_ahead s = true -> length (after_hyphen s) < length s.
Proof.
  unfold hyphen_ahead, after_hyphen. intros H.
  pose proof (lstrip_length s) as Hs.
  destruct (Py.lstrip s) as [|c r]; [discriminate|]. simpl tl.
  pose proof (lstrip_length r). simpl in Hs. lia.
Qed.

(** The two equations of [re.sub(r'\s*-\s*', '-', s)]. *)
Lemma sub_hyphen_match (s : str) :
  hyphen_ahead s = true ->
  Re.sub hyphen_re (lit "-") s
  = "-"%char :: Re.sub hyphen_re (lit "-") (after_hyphen s).
Proof.
  intros H. destruct s as [|c s]; [discriminate|].
  rewrite (sub_cons _ _ _ match_at_hyphen_re hyphen_match_bounds).
  rewrite hyphen_match_ahead, H. now rewrite skipn_hyphen_match.
Qed.

Lemma sub_hyphen_copy (c : ascii) (s : str) :
  hyphen_ahead (c :: s) = false ->
  Re.sub hyphen_re (lit "-") (c :: s) = c :: Re.sub hyphen_re (lit "-") s.
Proof.
  intros H. rewrite (sub_cons _ _ _ match_at_hyphen_re hyphen_match_bounds).
  now rewrite hyphen_match_ahead, H.
Qed.

Lemma sub_hyphen_nil : Re.sub hyphen_re (lit "-") [] = [].
Proof. exact (sub_nil _ _ _ match_at_hyphen_re hyphen_match_bounds). Qed.

Lemma sub_hyphen_head (s : str) :
  hd_error (Re.sub hyphen_re (lit "-") s)
  = if hyphen_ahead s then Some "-"%char else hd_error s.
Proof.
  destruct (hyphen_ahead s) eqn:E.
  - now rewrite sub_hyphen_match.
  - destruct s as [|c s]; [now rewrite sub_hyphen_nil|].
    now rewrite sub_hyphen_copy.
Qed.

(** The two equations of [re.sub(r'\s+', ' ', s)]. *)
Lemma sub_spaces_cons (c : ascii) (s : str) :
  Re.sub spaces_re (lit " ") (c :: s)
  = if Py.isspace c then " "%char :: Re.sub spaces_re (lit " ") (Py.lstrip s)
    else c :: Re.sub spaces_re (lit " ") s.
Proof.
  rewrite (sub_cons _ _ _ match_at_spaces_re spaces_match_bounds).
  unfold spaces_match. simpl ws_len. destruct (Py.isspace c); [|reflexivity].
  simpl. now rewrite ws_len_skipn.
Qed.

Lemma sub_spaces_nil : Re.sub spaces_re (lit " ") [] = [].
Proof. exact (sub_nil _ _ _ match_at_spaces_re spaces_match_bounds). Qed.

Lemma sub_spaces_head (s : str) :
  hd_error (Re.sub spaces_re (lit " ") s)
  = match s with
    | c :: _ => Some (if Py.isspace c then " "%char else c)
    | [] => None
    end.
Proof.
  destruct s as [|c s]; [now rewrite sub_spaces_nil|].
  rewrite sub_spaces_cons. now destruct (Py.isspace c).
Qed.

Lemma adjacent_ok_cons (bad : ascii -> ascii -> bool) (a : ascii) (t : str) :
  adjacent_ok bad (a :: t)
  = match hd_error t with
    | Some b => negb (bad a b) && adjacent_ok bad t
    | None => true
    end.
Proof. now destruct t. Qed.

Lemma adjacent_ok_tail bad (a : ascii) (t : str) :
  adjacent_ok bad (a :: t) = true -> adjacent_ok bad t = true.
Proof.
  rewrite adjacent_ok_cons. destruct t as [|b t]; [reflexivity|]. simpl hd_error.
  intros H. now apply andb_true_iff in H.
Qed.

Lemma adjacent_ok_suffix bad (l1 l2 : str) :
  adjacent_ok bad (l1 ++ l2) = true -> adjacent_ok bad l2 = true.
Proof.
  induction l1 as [|a l1 IH]; [auto|]. intros H. apply IH.
  exact (adjacent_ok_tail _ _ _ H).
Qed.

Lemma adjacent_ok_prefix bad (l1 l2 : str) :
  adjacent_ok bad (l1 ++ l2) = true -> adjacent_ok bad l1 = true.
Proof.
  induction l1 as [|a l1 IH]; [reflexivity|]. intros H.
  pose proof (IH (adjacent_ok_tail _ _ _ H)) as Ht.
  rewrite adjacent_ok_cons. destruct l1 as [|b l1]; [reflexivity|].
  simpl hd_error. simpl in H. apply andb_true_iff in H as [H _].
  now rewrite H, Ht.
Qed.

Lemma hyphen_ahead_cons (c : ascii) (s : str) :
  hyphen_ahead (c :: s) = if Py.isspace c then hyphen_ahead s else is_hyphen c.
Proof. unfold hyphen_ahead. simpl. now destruct (Py.isspace c). Qed.

(** In hyphen-tight text no hyphen follows a run of whitespace. *)
Lemma tight_space_no_hyphen (t : str) :
  forall c, Py.isspace c = true -> hyphen_tight (c :: t) = true ->
            hyphen_ahead t = false.
Proof.
  induction t as [|b t IH]; intros c Hc Ht; [reflexivity|].
  pose proof (adjacent_ok_tail _ _ _ Ht) as Ht'.
  unfold hyphen_tight in Ht. rewrite adjacent_ok_cons in Ht.
  simpl hd_error in Ht. apply andb_true_iff in Ht as [Hcb _].
  rewrite Hc in Hcb. rewrite hyphen_ahead_cons.
  destruct (Py.isspace b) eqn:Eb.
  - exact (IH b Eb Ht').
  - destruct (is_hyphen b); [simpl in Hcb; discriminate | reflexivity].
Qed.

Lemma ws_len_zero_head (s : str) :
  ws_len s = 0 ->
  match hd_error s with Some b => Py.isspace b = false | None => True end.
Proof.
  destruct s as [|b s]; simpl; [auto|]. now destruct (Py.isspace b).
Qed.

Lemma hyphen_tight_suffix (l1 l2 : str) :
  hyphen_tight (l1 ++ l2) = true -> hyphen_tight l2 = true.
Proof. apply adjacent_ok_suffix. Qed.

Lemma hyphen_tight_lstrip (s : str) :
  hyphen_tight s = true -> hyphen_tight (Py.lstrip s) = true.
Proof.
  intros H. rewrite <- (firstn_skipn (ws_len s) s), ws_len_skipn in H.
  exact (hyphen_tight_suffix _ _ H).
Qed.

(** After the first substitution no whitespace is left next to a hyphen. *)
Lemma sub_hyphen_tight (n : nat) :
  forall s, length s <= n -> hyphen_tight (Re.sub hyphen_re (lit "-") s) = true.
Proof.
  induction n as [|n IH]; intros s Hn.
  - destruct s; [now rewrite sub_hyphen_nil | simpl in Hn; lia].
  - destruct s as [|c s]; [now rewrite sub_hyphen_nil|]. simpl in Hn.
    destruct (hyphen_ahead (c :: s)) eqn:E.
    + rewrite (sub_hyphen_match _ E). unfold hyphen_tight.
      rewrite adjacent_ok_cons. fold (hyphen_tight (Re.sub hyphen_re (lit "-")
                                                       (after_hyphen (c :: s)))).
      pose proof (after_hyphen_shorter _ E) as Hl. simpl in Hl.
      rewrite IH by lia. rewrite sub_hyphen_head.
      destruct (hyphen_ahead (after_hyphen (c :: s))); [reflexivity|].
      pose proof (ws_len_zero_head (after_hyphen (c :: s))
                    (ws_len_lstrip _)) as Hh.
      destruct (hd_error (after_hyphen (c :: s))) as [b|]; [|reflexivity].
      rewrite Hh. reflexivity.
    + rewrite (sub_hyphen_copy _ _ E). unfold hyphen_tight.
      rewrite adjacent_ok_cons. fold (hyphen_tight (Re.sub hyphen_re (lit "-") s)).
      rewrite IH by lia. rewrite sub_hyphen_head.
      rewrite hyphen_ahead_cons in E.
      destruct (Py.isspace c) eqn:Ec.
      * rewrite E. destruct s as [|b s]; [reflexivity|]. simpl hd_error.
        rewrite hyphen_ahead_cons in E.
        destruct (Py.isspace b) eqn:Eb.
        -- destruct (is_hyphen b) eqn:Hb;
             [apply hyphen_not_space in Hb; congruence|].
           destruct (is_hyphen c) eqn:Hc;
             [apply hyphen_not_space in Hc; congruence | reflexivity].
        -- rewrite E. destruct (is_hyphen c) eqn:Hc;
             [apply hyphen_not_space in Hc; congruence | reflexivity].
      * rewrite E. cbn [andb orb].
        destruct (hyphen_ahead s); [reflexivity|].
        destruct (hd_error s); reflexivity.
Qed.

(** Hyphen-tight text is left as it is by the first substitution. *)
Lemma sub_hyphen_fixed (t : str) :
  hyphen_tight t = true -> Re.sub hyphen_re (lit "-") t = t.
Proof.
  induction t as [|c t IH]; intros Ht; [apply sub_hyphen_nil|].
  pose proof (adjacent_ok_tail _ _ _ Ht) as Ht'. specialize (IH Ht').
  destruct (hyphen_ahead (c :: t)) eqn:E.
  - rewrite hyphen_ahead_cons in E. destruct (Py.isspace c) eqn:Ec.
    + rewrite (tight_space_no_hyphen _ _ Ec Ht) in E. discriminate.
    + assert (Hah : hyphen_ahead (c :: t) = true)
        by (now rewrite hyphen_ahead_cons, Ec).
      rewrite (sub_hyphen_match _ Hah).
      unfold after_hyphen. simpl Py.lstrip at 2. rewrite Ec. simpl tl.
      unfold is_hyphen in E. apply Ascii.eqb_eq in E. subst c.
      assert (Hws : ws_len t = 0).
      { destruct t as [|b t]; [reflexivity|].
        unfold hyphen_tight in Ht. simpl in Ht.
        apply andb_true_iff in Ht as [Hb _]. simpl.
        destruct (Py.isspace b); [discriminate | reflexivity]. }
      rewrite (lstrip_fixed _ Hws). now rewrite IH.
  - rewrite (sub_hyphen_copy _ _ E). now rewrite IH.
Qed.

Lemma hyphen_tight_cons (a : ascii) (t : str) :
  hyphen_tight (a :: t)
  = match hd_error t with
    | Some b => negb (Py.isspace a && is_hyphen b || is_hyphen a && Py.isspace b)
    | None => true
    end && hyphen_tight t.
Proof.
  unfold hyphen_tight. rewrite adjacent_ok_cons.
  destruct t as [|b t]; reflexivity.
Qed.

Lemma single_spaced_cons (a : ascii) (t : str) :
  single_spaced (a :: t)
  = (negb (Py.isspace a) || Ascii.eqb " "%char a)
    && match hd_error t with
       | Some b => negb (Py.isspace a && Py.isspace b)
       | None => true
       end
    && single_spaced t.
Proof.
  unfold single_spaced. rewrite adjacent_ok_cons. cbn [forallb].
  destruct (hd_error t) as [b|] eqn:E.
  - destruct (negb (Py.isspace a) || Ascii.eqb " " a),
      (negb (Py.isspace a && Py.isspace b)),
      (forallb (fun c => negb (Py.isspace c) || Ascii.eqb " " c) t),
      (adjacent_ok (fun a0 b0 => Py.isspace a0 && Py.isspace b0) t); reflexivity.
  - destruct t; [|discriminate]. simpl. now rewrite !andb_true_r.
Qed.

(** After the second substitution every whitespace character is a single
    space. *)
Lemma sub_spaces_single (n : nat) :
  forall s, length s <= n -> single_spaced (Re.sub spaces_re (lit " ") s) = true.
Proof.
  induction n as [|n IH]; intros s Hn.
  - destruct s; [now rewrite sub_spaces_nil | simpl in Hn; lia].
  - destruct s as [|c s]; [now rewrite sub_spaces_nil|]. simpl in Hn.
    rewrite sub_spaces_cons. destruct (Py.isspace c) eqn:Ec.
    + rewrite single_spaced_cons, sub_spaces_head.
      rewrite IH by (pose proof (lstrip_length s); lia).
      pose proof (ws_len_zero_head _ (ws_len_lstrip s)) as Hh.
      destruct (Py.lstrip s) as [|b r]; [reflexivity|].
      simpl in Hh. rewrite Hh. simpl. now rewrite Hh.
    + rewrite single_spaced_cons, Ec, IH by lia. cbn [negb orb andb].
      now destruct (hd_error _).
Qed.

(** The second substitution keeps hyphens free of whitespace. *)
Lemma sub_spaces_tight (n : nat) :
  forall s, length s <= n -> hyphen_tight s = true ->
            hyphen_tight (Re.sub spaces_re (lit " ") s) = true.
Proof.
  induction n as [|n IH]; intros s Hn Ht.
  - destruct s; [now rewrite sub_spaces_nil | simpl in Hn; lia].
  - destruct s as [|c s]; [now rewrite sub_spaces_nil|]. simpl in Hn.
    pose proof (adjacent_ok_tail _ _ _ Ht) as Ht'. fold (hyphen_tight s) in Ht'.
    rewrite sub_spaces_cons. destruct (Py.isspace c) eqn:Ec.
    + rewrite hyphen_tight_cons, sub_spaces_head.
      rewrite IH;
        [| pose proof (lstrip_length s); lia | now apply hyphen_tight_lstrip].
      pose proof (tight_space_no_hyphen _ _ Ec Ht) as Hno.
      unfold hyphen_ahead in Hno.
      pose proof (ws_len_zero_head _ (ws_len_lstrip s)) as Hh.
      destruct (Py.lstrip s) as [|b r]; [reflexivity|].
      simpl in Hh. rewrite Hh, Hno. reflexivity.
    + rewrite hyphen_tight_cons, sub_spaces_head, IH by (lia || assumption).
      rewrite hyphen_tight_cons in Ht. apply andb_true_iff in Ht as [Hcb _].
      destruct s as [|b s]; [reflexivity|]. simpl hd_error in Hcb.
      rewrite Ec in *. cbn [andb orb] in *.
      destruct (Py.isspace b) eqn:Eb; [|now rewrite Eb, Hcb].
      destruct (is_hyphen c); [simpl in Hcb; discriminate | reflexivity].
Qed.

(** Single-spaced text is left as it is by the second substitution. *)
Lemma sub_spaces_fixed (u : str) :
  single_spaced u = true -> Re.sub spaces_re (lit " ") u = u.
Proof.
  induction u as [|c u IH]; intros Hu; [apply sub_spaces_nil|].
  rewrite single_spaced_cons in Hu.
  apply andb_true_iff in Hu as [Hu Hu3]. apply andb_true_iff in Hu as [Hu1 Hu2].
  rewrite sub_spaces_cons. destruct (Py.isspace c) eqn:Ec; [|now rewrite IH].
  cbn [negb orb] in Hu1. apply Ascii.eqb_eq in Hu1. subst c.
  assert (Hws : ws_len u = 0).
  { destruct u as [|b u]; [reflexivity|]. simpl in Hu2 |- *.
    destruct (Py.isspace b); [discriminate | reflexivity]. }
  now rewrite (lstrip_fixed _ Hws), IH.
Qed.

Lemma single_spaced_suffix (l1 l2 : str) :
  single_spaced (l1 ++ l2) = true -> single_spaced l2 = true.
Proof.
  unfold single_spaced. rewrite forallb_app. intros H.
  apply andb_true_iff in H as [H1 H2]. apply andb_true_iff in H1 as [_ H1].
  now rewrite H1, (adjacent_ok_suffix _ _ _ H2).
Qed.

Lemma single_spaced_prefix (l1 l2 : str) :
  single_spaced (l1 ++ l2) = true -> single_spaced l1 = true.
Proof.
  unfold single_spaced. rewrite forallb_app. intros H.
  apply andb_true_iff in H as [H1 H2]. apply andb_true_iff in H1 as [H1 _].
  now rewrite H1, (adjacent_ok_prefix _ _ _ H2).
Qed.

(** ** [strip] *)

Lemma rstrip_prefix (y : str) : exists r, y = Py.rstrip y ++ r.
Proof.
  unfold Py.rstrip. exists (rev (firstn (ws_len (rev y)) (rev y))).
  rewrite <- rev_app_distr, <- ws_len_skipn, firstn_skipn.
  now rewrite rev_involutive.
Qed.

Lemma strip_infix (s : str) : exists l r, s = l ++ Py.strip s ++ r.
Proof.
  unfold Py.strip. destruct (rstrip_prefix (Py.lstrip s)) as [r Hr].
  exists (firstn (ws_len s) s), r.
  now rewrite <- Hr, <- ws_len_skipn, firstn_skipn.
Qed.

Lemma rstrip_idem (y : str) : Py.rstrip (Py.rstrip y) = Py.rstrip y.
Proof. unfold Py.rstrip. now rewrite rev_involutive, lstrip_idem. Qed.

Lemma lstrip_rstrip (y : str) :
  ws_len y = 0 -> Py.lstrip (Py.rstrip y) = Py.rstrip y.
Proof.
  intros H. apply lstrip_fixed.
  destruct (rstrip_prefix y) as [r Hr].
  destruct (Py.rstrip y) as [|a z]; [reflexivity|].
  rewrite Hr in H. simpl in H |- *.
  destruct (Py.isspace a); [discriminate | reflexivity].
Qed.

Lemma strip_idem (s : str) : Py.strip (Py.strip s) = Py.strip s.
Proof.
  unfold Py.strip.
  now rewrite (lstrip_rstrip _ (ws_len_lstrip s)), rstrip_idem.
Qed.

(** Cleaned text has no whitespace next to a hyphen, only single spaces for
    whitespace, and none at either end. *)
Lemma clean_text_shape (x : str) :
  hyphen_tight (clean_text x) = true /\
  single_spaced (clean_text x) = true /\
  Py.strip (clean_text x) = clean_text x.
Proof.
  unfold clean_text, unicodedata_normalize.
  set (a := Re.sub hyphen_re (lit "-") x).
  set (c := Re.sub spaces_re (lit " ") a).
  assert (Ha : hyphen_tight a = true) by (apply (sub_hyphen_tight (length x)); lia).
  assert (Hc1 : hyphen_tight c = true)
    by (apply (sub_spaces_tight (length a)); [lia | exact Ha]).
  assert (Hc2 : single_spaced c = true)
    by (apply (sub_spaces_single (length a)); lia).
  destruct (strip_infix c) as (l & r & Hlr).
  rewrite Hlr in Hc1, Hc2. split; [|split].
  - exact (adjacent_ok_prefix _ _ _ (hyphen_tight_suffix _ _ Hc1)).
  - exact (single_spaced_prefix _ _ (single_spaced_suffix _ _ Hc2)).
  - apply strip_idem.
Qed.

(** On ASCII text, cleaning cleaned text gives the same text. *)
Lemma clean_text_fixed (x : str) : clean_text (clean_text x) = clean_text x.
Proof.
  destruct (clean_text_shape x) as (Ht & Hs & Hstrip).
  unfold clean_text at 1. unfold unicodedata_normalize.
  now rewrite (sub_hyphen_fixed _ Ht), (sub_spaces_fixed _ Hs).
Qed.

(** ** The cleaner on Unicode text

    The same steps as above, over code points and the whitespace of
    Unicode. *)
Lemma u_ws_len_skipn (s : Unicode.ustr) : skipn (Unicode.ws_len s) s = Unicode.lstrip s.
Proof.
  induction s as [|c s IH]; simpl; [reflexivity|].
  destruct (Unicode.isspace c); [exact IH | reflexivity].
Qed.

Lemma u_ws_len_le (s : Unicode.ustr) : Unicode.ws_len s <= length s.
Proof.
  induction s as [|c s IH]; simpl; [lia|]. destruct (Unicode.isspace c); simpl; lia.
Qed.

Lemma u_ws_len_lstrip (s : Unicode.ustr) : Unicode.ws_len (Unicode.lstrip s) = 0.
Proof.
  induction s as [|c s IH]; simpl; [reflexivity|].
  destruct (Unicode.isspace c) eqn:E; [exact IH|]. simpl. now rewrite E.
Qed.

Lemma u_lstrip_fixed (s : Unicode.ustr) : Unicode.ws_len s = 0 -> Unicode.lstrip s = s.
Proof. intros H. rewrite <- u_ws_len_skipn, H. reflexivity. Qed.

Lemma u_lstrip_idem (s : Unicode.ustr) : Unicode.lstrip (Unicode.lstrip s) = Unicode.lstrip s.
Proof. apply u_lstrip_fixed, u_ws_len_lstrip. Qed.

(** [\s*] or [\s+] at the end of a pattern takes the whole run. *)
Lemma u_rep_space_last (s : Unicode.ustr) :
  forall min n,
  Unicode.spaces_greedy min s n (fun _ m => Some m)
  = if min <=? Unicode.ws_len s then Some (n + Unicode.ws_len s) else None.
Proof.
  induction s as [|c s IH]; intros min n; simpl.
  - destruct min; simpl; [f_equal; lia | reflexivity].
  - destruct (Unicode.isspace c).
    + rewrite IH. destruct min as [|min]; simpl.
      * f_equal. lia.
      * destruct (min <=? Unicode.ws_len s); [f_equal; lia | reflexivity].
    + destruct min; simpl; [f_equal; lia | reflexivity].
Qed.

(** [\s*] before something that cannot start with whitespace takes the whole
    run too: giving a character back never helps. *)
Lemma u_rep_space_then (k : Unicode.cont) :
  (forall c s n, Unicode.isspace c = true -> k (c :: s) n = None) ->
  forall s n,
  Unicode.spaces_greedy 0 s n k = k (Unicode.lstrip s) (n + Unicode.ws_len s).
Proof.
  intros Hfail. induction s as [|c s IH]; intros n; simpl.
  - now rewrite Nat.add_0_r.
  - destruct (Unicode.isspace c) eqn:E.
    + rewrite IH. replace (S n + Unicode.ws_len s) with (n + S (Unicode.ws_len s)) by lia.
      destruct (k (Unicode.lstrip s) (n + S (Unicode.ws_len s))); [reflexivity|].
      now apply Hfail.
    + now rewrite Nat.add_0_r.
Qed.

Lemma u_match_at_hyphen_re (s : Unicode.ustr) :
  Unicode.match_at Unicode.hyphen_re s false = Unicode.hyphen_match s.
Proof.
  unfold Unicode.match_at, Unicode.hyphen_re, Unicode.hyphen_match.
  cbn [Unicode.run andb].
  rewrite u_rep_space_then.
  - destruct (Unicode.lstrip s) as [|c r]; [reflexivity|].
    unfold Unicode.is_hyphen. destruct (N.eqb Unicode.hyphen c); [|reflexivity].
    now rewrite u_rep_space_last.
  - intros c r n Hc.
    destruct (N.eqb_spec Unicode.hyphen c) as [<-|]; [discriminate | reflexivity].
Qed.

Lemma u_match_at_spaces_re (s : Unicode.ustr) :
  Unicode.match_at Unicode.spaces_re s false = Unicode.spaces_match s.
Proof.
  unfold Unicode.match_at, Unicode.spaces_re, Unicode.spaces_match.
  cbn [Unicode.run andb].
  now rewrite u_rep_space_last.
Qed.

Lemma u_hyphen_match_bounds (s : Unicode.ustr) (n : nat) :
  Unicode.hyphen_match s = Some n -> 0 < n <= length s.
Proof.
  unfold Unicode.hyphen_match. destruct (Unicode.lstrip s) as [|c r] eqn:E; [discriminate|].
  destruct (Unicode.is_hyphen c); [|discriminate]. intros [= <-].
  pose proof (u_ws_len_le r). pose proof (u_ws_len_le s).
  pose proof (firstn_skipn (Unicode.ws_len s) s) as Hs. rewrite u_ws_len_skipn, E in Hs.
  apply (f_equal (@length N)) in Hs.
  rewrite length_app, length_firstn in Hs. simpl in Hs. lia.
Qed.

Lemma u_spaces_match_bounds (s : Unicode.ustr) (n : nat) :
  Unicode.spaces_match s = Some n -> 0 < n <= length s.
Proof.
  unfold Unicode.spaces_match. destruct (Nat.leb_spec 1 (Unicode.ws_len s)); [|discriminate].
  intros [= <-]. pose proof (u_ws_len_le s). lia.
Qed.

(** [re.sub] for a pattern whose match at a position depends on the text
    ahead only and is never empty: position by position. *)
Section UnicodeSubByPosition.
Variable p : Unicode.regex.
Variable repl : Unicode.ustr.
Variable f : Unicode.ustr -> option nat.
Hypothesis match_f : forall s, Unicode.match_at p s false = f s.
Hypothesis f_bounds : forall s n, f s = Some n -> 0 < n <= length s.

Lemma u_attempt_by_f (s : Unicode.ustr) :
  Unicode.attempt p s = match f s with Some n => [n] | None => [] end.
Proof.
  unfold Unicode.attempt. rewrite match_f. destruct (f s) as [n|] eqn:E; [|reflexivity].
  apply f_bounds in E. destruct n; [lia | reflexivity].
Qed.

Lemma u_sub_from_skip (k : nat) :
  forall s, k <= length s ->
  Unicode.sub_from p repl s k = Unicode.sub_from p repl (skipn k s) 0.
Proof.
  induction k as [|k IH]; intros s Hk.
  - reflexivity.
  - destruct s as [|c s]; simpl in Hk; [lia|]. simpl. apply IH. lia.
Qed.

Lemma u_sub_nil : Unicode.sub p repl [] = [].
Proof.
  unfold Unicode.sub. simpl. rewrite u_attempt_by_f.
  destruct (f []) as [n|] eqn:E; [|reflexivity].
  apply f_bounds in E. simpl in E. lia.
Qed.

Lemma u_sub_cons (c : N) (s : Unicode.ustr) :
  Unicode.sub p repl (c :: s)
  = match f (c :: s) with
    | Some n => repl ++ Unicode.sub p repl (skipn n (c :: s))
    | None => c :: Unicode.sub p repl s
    end.
Proof.
  unfold Unicode.sub. cbn [Unicode.sub_from]. rewrite u_attempt_by_f.
  destruct (f (c :: s)) as [n|] eqn:E.
  - apply f_bounds in E. destruct n as [|n]; [lia|]. simpl in E.
    cbn [map concat last Nat.eqb pred]. rewrite app_nil_r. cbn [app].
    rewrite u_sub_from_skip by lia. reflexivity.
  - cbn [map concat last Nat.eqb pred app]. reflexivity.
Qed.

End UnicodeSubByPosition.

Lemma u_hyphen_not_space (c : N) : Unicode.is_hyphen c = true -> Unicode.isspace c = false.
Proof. unfold Unicode.is_hyphen. intros H. apply N.eqb_eq in H. now subst c. Qed.

Lemma u_lstrip_length (s : Unicode.ustr) : length (Unicode.lstrip s) <= length s.
Proof.
  rewrite <- u_ws_len_skipn, length_skipn. lia.
Qed.

Lemma u_hyphen_match_ahead (s : Unicode.ustr) :
  Unicode.hyphen_match s
  = if Unicode.hyphen_ahead s
    then Some (S (Unicode.ws_len s) + Unicode.ws_len (tl (Unicode.lstrip s))) else None.
Proof.
  unfold Unicode.hyphen_match, Unicode.hyphen_ahead. now destruct (Unicode.lstrip s).
Qed.

Lemma u_skipn_hyphen_match (s : Unicode.ustr) :
  Unicode.hyphen_ahead s = true ->
  skipn (S (Unicode.ws_len s) + Unicode.ws_len (tl (Unicode.lstrip s))) s = Unicode.after_hyphen s.
Proof.
  unfold Unicode.hyphen_ahead, Unicode.after_hyphen. intros H.
  destruct (Unicode.lstrip s) as [|c r] eqn:E; [discriminate|]. simpl tl.
  rewrite Nat.add_comm, <- skipn_skipn.
  rewrite <- u_ws_len_skipn in E. rewrite (skipn_succ _ _ _ _ E).
  apply u_ws_len_skipn.
Qed.

Lemma u_after_hyphen_shorter (s : Unicode.ustr) :
  Unicode.hyphen_ahead s = true -> length (Unicode.after_hyphen s) < length s.
Proof.
  unfold Unicode.hyphen_ahead, Unicode.after_hyphen. intros H.
  pose proof (u_lstrip_length s) as Hs.
  destruct (Unicode.lstrip s) as [|c r]; [discriminate|]. simpl tl.
  pose proof (u_lstrip_length r). simpl in Hs. lia.
Qed.

(** The two equations of [re.sub(r'\s*-\s*', '-', s)]. *)
Lemma u_sub_hyphen_match (s : Unicode.ustr) :
  Unicode.hyphen_ahead s = true ->
  Unicode.sub Unicode.hyphen_re [Unicode.hyphen] s
  = Unicode.hyphen :: Unicode.sub Unicode.hyphen_re [Unicode.hyphen] (Unicode.after_hyphen s).
Proof.
  intros H. destruct s as [|c s]; [discriminate|].
  rewrite (u_sub_cons _ _ _ u_match_at_hyphen_re u_hyphen_match_bounds).
  rewrite u_hyphen_match_ahead, H. now rewrite u_skipn_hyphen_match.
Qed.

Lemma u_sub_hyphen_copy (c : N) (s : Unicode.ustr) :
  Unicode.hyphen_ahead (c :: s) = false ->
  Unicode.sub Unicode.hyphen_re [Unicode.hyphen] (c :: s) = c :: Unicode.sub Unicode.hyphen_re [Unicode.hyphen] s.
Proof.
  intros H. rewrite (u_sub_cons _ _ _ u_match_at_hyphen_re u_hyphen_match_bounds).
  now rewrite u_hyphen_match_ahead, H.
Qed.

Lemma u_sub_hyphen_nil : Unicode.sub Unicode.hyphen_re [Unicode.hyphen] [] = [].
Proof. exact (u_sub_nil _ _ _ u_match_at_hyphen_re u_hyphen_match_bounds). Qed.

Lemma u_sub_hyphen_head (s : Unicode.ustr) :
  hd_error (Unicode.sub Unicode.hyphen_re [Unicode.hyphen] s)
  = if Unicode.hyphen_ahead s then Some Unicode.hyphen else hd_error s.
Proof.
  destruct (Unicode.hyphen_ahead s) eqn:E.
  - now rewrite u_sub_hyphen_match.
  - destruct s as [|c s]; [now rewrite u_sub_hyphen_nil|].
    now rewrite u_sub_hyphen_copy.
Qed.

(** The two equations of [re.sub(r'\s+', ' ', s)]. *)
Lemma u_sub_spaces_cons (c : N) (s : Unicode.ustr) :
  Unicode.sub Unicode.spaces_re [Unicode.space] (c :: s)
  = if Unicode.isspace c then Unicode.space :: Unicode.sub Unicode.spaces_re [Unicode.space] (Unicode.lstrip s)
    else c :: Unicode.sub Unicode.spaces_re [Unicode.space] s.
Proof.
  rewrite (u_sub_cons _ _ _ u_match_at_spaces_re u_spaces_match_bounds).
  unfold Unicode.spaces_match. simpl Unicode.ws_len. destruct (Unicode.isspace c); [|reflexivity].
  simpl. now rewrite u_ws_len_skipn.
Qed.

Lemma u_sub_spaces_nil : Unicode.sub Unicode.spaces_re [Unicode.space] [] = [].
Proof. exact (u_sub_nil _ _ _ u_match_at_spaces_re u_spaces_match_bounds). Qed.

Lemma u_sub_spaces_head (s : Unicode.ustr) :
  hd_error (Unicode.sub Unicode.spaces_re [Unicode.space] s)
  = match s with
    | c :: _ => Some (if Unicode.isspace c then Unicode.space else c)
    | [] => None
    end.
Proof.
  destruct s as [|c s]; [now rewrite u_sub_spaces_nil|].
  rewrite u_sub_spaces_cons. now destruct (Unicode.isspace c).
Qed.

Lemma u_adjacent_ok_cons (bad : N -> N -> bool) (a : N) (t : Unicode.ustr) :
  Unicode.adjacent_ok bad (a :: t)
  = match hd_error t with
    | Some b => negb (bad a b) && Unicode.adjacent_ok bad t
    | None => true
    end.
Proof. now destruct t. Qed.

Lemma u_adjacent_ok_tail bad (a : N) (t : Unicode.ustr) :
  Unicode.adjacent_ok bad (a :: t) = true -> Unicode.adjacent_ok bad t = true.
Proof.
  rewrite u_adjacent_ok_cons. destruct t as [|b t]; [reflexivity|]. simpl hd_error.
  intros H. now apply andb_true_iff in H.
Qed.

Lemma u_adjacent_ok_suffix bad (l1 l2 : Unicode.ustr) :
  Unicode.adjacent_ok bad (l1 ++ l2) = true -> Unicode.adjacent_ok bad l2 = true.
Proof.
  induction l1 as [|a l1 IH]; [auto|]. intros H. apply IH.
  exact (u_adjacent_ok_tail _ _ _ H).
Qed.

Lemma u_adjacent_ok_prefix bad (l1 l2 : Unicode.ustr) :
  Unicode.adjacent_ok bad (l1 ++ l2) = true -> Unicode.adjacent_ok bad l1 = true.
Proof.
  induction l1 as [|a l1 IH]; [reflexivity|]. intros H.
  pose proof (IH (u_adjacent_ok_tail _ _ _ H)) as Ht.
  rewrite u_adjacent_ok_cons. destruct l1 as [|b l1]; [reflexivity|].
  simpl hd_error. simpl in H. apply andb_true_iff in H as [H _].
  now rewrite H, Ht.
Qed.

Lemma u_hyphen_ahead_cons (c : N) (s : Unicode.ustr) :
  Unicode.hyphen_ahead (c :: s) = if Unicode.isspace c then Unicode.hyphen_ahead s else Unicode.is_hyphen c.
Proof. unfold Unicode.hyphen_ahead. simpl. now destruct (Unicode.isspace c). Qed.

(** In hyphen-tight text no hyphen follows a run of whitespace. *)
Lemma u_tight_space_no_hyphen (t : Unicode.ustr) :
  forall c, Unicode.isspace c = true -> Unicode.hyphen_tight (c :: t) = true ->
            Unicode.hyphen_ahead t = false.
Proof.
  induction t as [|b t IH]; intros c Hc Ht; [reflexivity|].
  pose proof (u_adjacent_ok_tail _ _ _ Ht) as Ht'.
  unfold Unicode.hyphen_tight in Ht. rewrite u_adjacent_ok_cons in Ht.
  simpl hd_error in Ht. apply andb_true_iff in Ht as [Hcb _].
  rewrite Hc in Hcb. rewrite u_hyphen_ahead_cons.
  destruct (Unicode.isspace b) eqn:Eb.
  - exact (IH b Eb Ht').
  - destruct (Unicode.is_hyphen b); [simpl in Hcb; discriminate | reflexivity].
Qed.

Lemma u_ws_len_zero_head (s : Unicode.ustr) :
  Unicode.ws_len s = 0 ->
  match hd_error s with Some b => Unicode.isspace b = false | None => True end.
Proof.
  destruct s as [|b s]; simpl; [auto|]. now destruct (Unicode.isspace b).
Qed.

Lemma u_hyphen_tight_suffix (l1 l2 : Unicode.ustr) :
  Unicode.hyphen_tight (l1 ++ l2) = true -> Unicode.hyphen_tight l2 = true.
Proof. apply u_adjacent_ok_suffix. Qed.

Lemma u_hyphen_tight_lstrip (s : Unicode.ustr) :
  Unicode.hyphen_tight s = true -> Unicode.hyphen_tight (Unicode.lstrip s) = true.
Proof.
  intros H. rewrite <- (firstn_skipn (Unicode.ws_len s) s), u_ws_len_skipn in H.
  exact (u_hyphen_tight_suffix _ _ H).
Qed.

(** After the first substitution no whitespace is left next to a hyphen. *)
Lemma u_sub_hyphen_tight (n : nat) :
  forall s, length s <= n -> Unicode.hyphen_tight (Unicode.sub Unicode.hyphen_re [Unicode.hyphen] s) = true.
Proof.
  induction n as [|n IH]; intros s Hn.
  - destruct s; [now rewrite u_sub_hyphen_nil | simpl in Hn; lia].
  - destruct s as [|c s]; [now rewrite u_sub_hyphen_nil|]. simpl in Hn.
    destruct (Unicode.hyphen_ahead (c :: s)) eqn:E.
    + rewrite (u_sub_hyphen_match _ E). unfold Unicode.hyphen_tight.
      rewrite u_adjacent_ok_cons. fold (Unicode.hyphen_tight (Unicode.sub Unicode.hyphen_re [Unicode.hyphen]
                                                       (Unicode.after_hyphen (c :: s)))).
      pose proof (u_after_hyphen_shorter _ E) as Hl. simpl in Hl.
      rewrite IH by lia. rewrite u_sub_hyphen_head.
      destruct (Unicode.hyphen_ahead (Unicode.after_hyphen (c :: s))); [reflexivity|].
      pose proof (u_ws_len_zero_head (Unicode.after_hyphen (c :: s))
                    (u_ws_len_lstrip _)) as Hh.
      destruct (hd_error (Unicode.after_hyphen (c :: s))) as [b|]; [|reflexivity].
      rewrite Hh. reflexivity.
    + rewrite (u_sub_hyphen_copy _ _ E). unfold Unicode.hyphen_tight.
      rewrite u_adjacent_ok_cons. fold (Unicode.hyphen_tight (Unicode.sub Unicode.hyphen_re [Unicode.hyphen] s)).
      rewrite IH by lia. rewrite u_sub_hyphen_head.
      rewrite u_hyphen_ahead_cons in E.
      destruct (Unicode.isspace c) eqn:Ec.
      * rewrite E. destruct s as [|b s]; [reflexivity|]. simpl hd_error.
        rewrite u_hyphen_ahead_cons in E.
        destruct (Unicode.isspace b) eqn:Eb.
        -- destruct (Unicode.is_hyphen b) eqn:Hb;
             [apply u_hyphen_not_space in Hb; congruence|].
           destruct (Unicode.is_hyphen c) eqn:Hc;
             [apply u_hyphen_not_space in Hc; congruence | reflexivity].
        -- rewrite E. destruct (Unicode.is_hyphen c) eqn:Hc;
             [apply u_hyphen_not_space in Hc; congruence | reflexivity].
      * rewrite E. cbn [andb orb].
        destruct (Unicode.hyphen_ahead s); [reflexivity|].
        destruct (hd_error s); reflexivity.
Qed.

(** Hyphen-tight text is left as it is by the first substitution. *)
Lemma u_sub_hyphen_fixed (t : Unicode.ustr) :
  Unicode.hyphen_tight t = true -> Unicode.sub Unicode.hyphen_re [Unicode.hyphen] t = t.
Proof.
  induction t as [|c t IH]; intros Ht; [apply u_sub_hyphen_nil|].
  pose proof (u_adjacent_ok_tail _ _ _ Ht) as Ht'. specialize (IH Ht').
  destruct (Unicode.hyphen_ahead (c :: t)) eqn:E.
  - rewrite u_hyphen_ahead_cons in E. destruct (Unicode.isspace c) eqn:Ec.
    + rewrite (u_tight_space_no_hyphen _ _ Ec Ht) in E. discriminate.
    + assert (Hah : Unicode.hyphen_ahead (c :: t) = true)
        by (now rewrite u_hyphen_ahead_cons, Ec).
      rewrite (u_sub_hyphen_match _ Hah).
      unfold Unicode.after_hyphen. simpl Unicode.lstrip at 2. rewrite Ec. simpl tl.
      unfold Unicode.is_hyphen in E. apply N.eqb_eq in E. subst c.
      assert (Hws : Unicode.ws_len t = 0).
      { destruct t as [|b t]; [reflexivity|].
        unfold Unicode.hyphen_tight in Ht. simpl in Ht.
        apply andb_true_iff in Ht as [Hb _]. simpl.
        destruct (Unicode.isspace b); [discriminate | reflexivity]. }
      rewrite (u_lstrip_fixed _ Hws). now rewrite IH.
  - rewrite (u_sub_hyphen_copy _ _ E). now rewrite IH.
Qed.

Lemma u_hyphen_tight_cons (a : N) (t : Unicode.ustr) :
  Unicode.hyphen_tight (a :: t)
  = match hd_error t with
    | Some b => negb (Unicode.isspace a && Unicode.is_hyphen b || Unicode.is_hyphen a && Unicode.isspace b)
    | None => true
    end && Unicode.hyphen_tight t.
Proof.
  unfold Unicode.hyphen_tight. rewrite u_adjacent_ok_cons.
  destruct t as [|b t]; reflexivity.
Qed.

Lemma u_single_spaced_cons (a : N) (t : Unicode.ustr) :
  Unicode.single_spaced (a :: t)
  = (negb (Unicode.isspace a) || N.eqb Unicode.space a)
    && match hd_error t with
       | Some b => negb (Unicode.isspace a && Unicode.isspace b)
       | None => true
       end
    && Unicode.single_spaced t.
Proof.
  unfold Unicode.single_spaced. rewrite u_adjacent_ok_cons. cbn [forallb].
  destruct (hd_error t) as [b|] eqn:E.
  - destruct (negb (Unicode.isspace a) || N.eqb Unicode.space a),
      (negb (Unicode.isspace a && Unicode.isspace b)),
      (forallb (fun c => negb (Unicode.isspace c) || N.eqb Unicode.space c) t),
      (Unicode.adjacent_ok (fun a0 b0 => Unicode.isspace a0 && Unicode.isspace b0) t); reflexivity.
  - destruct t; [|discriminate]. simpl. now rewrite !andb_true_r.
Qed.

(** After the second substitution every whitespace character is a single
    space. *)
Lemma u_sub_spaces_single (n : nat) :
  forall s, length s <= n -> Unicode.single_spaced (Unicode.sub Unicode.spaces_re [Unicode.space] s) = true.
Proof.
  induction n as [|n IH]; intros s Hn.
  - destruct s; [now rewrite u_sub_spaces_nil | simpl in Hn; lia].
  - destruct s as [|c s]; [now rewrite u_sub_spaces_nil|]. simpl in Hn.
    rewrite u_sub_spaces_cons. destruct (Unicode.isspace c) eqn:Ec.
    + rewrite u_single_spaced_cons, u_sub_spaces_head.
      rewrite IH by (pose proof (u_lstrip_length s); lia).
      pose proof (u_ws_len_zero_head _ (u_ws_len_lstrip s)) as Hh.
      destruct (Unicode.lstrip s) as [|b r]; [reflexivity|].
      simpl in Hh. rewrite Hh. simpl. now rewrite Hh.
    + rewrite u_single_spaced_cons, Ec, IH by lia. cbn [negb orb andb].
      now destruct (hd_error _).
Qed.

(** The second substitution keeps hyphens free of whitespace. *)
Lemma u_sub_spaces_tight (n : nat) :
  forall s, length s <= n -> Unicode.hyphen_tight s = true ->
            Unicode.hyphen_tight (Unicode.sub Unicode.spaces_re [Unicode.space] s) = true.
Proof.
  induction n as [|n IH]; intros s Hn Ht.
  - destruct s; [now rewrite u_sub_spaces_nil | simpl in Hn; lia].
  - destruct s as [|c s]; [now rewrite u_sub_spaces_nil|]. simpl in Hn.
    pose proof (u_adjacent_ok_tail _ _ _ Ht) as Ht'. fold (Unicode.hyphen_tight s) in Ht'.
    rewrite u_sub_spaces_cons. destruct (Unicode.isspace c) eqn:Ec.
    + rewrite u_hyphen_tight_cons, u_sub_spaces_head.
      rewrite IH;
        [| pose proof (u_lstrip_length s); lia | now apply u_hyphen_tight_lstrip].
      pose proof (u_tight_space_no_hyphen _ _ Ec Ht) as Hno.
      unfold Unicode.hyphen_ahead in Hno.
      pose proof (u_ws_len_zero_head _ (u_ws_len_lstrip s)) as Hh.
      destruct (Unicode.lstrip s) as [|b r]; [reflexivity|].
      simpl in Hh. rewrite Hh, Hno. reflexivity.
    + rewrite u_hyphen_tight_cons, u_sub_spaces_head, IH by (lia || assumption).
      rewrite u_hyphen_tight_cons in Ht. apply andb_true_iff in Ht as [Hcb _].
      destruct s as [|b s]; [reflexivity|]. simpl hd_error in Hcb.
      rewrite Ec in *. cbn [andb orb] in *.
      destruct (Unicode.isspace b) eqn:Eb; [|now rewrite Eb, Hcb].
      destruct (Unicode.is_hyphen c); [simpl in Hcb; discriminate | reflexivity].
Qed.

(** Single-spaced text is left as it is by the second substitution. *)
Lemma u_sub_spaces_fixed (u : Unicode.ustr) :
  Unicode.single_spaced u = true -> Unicode.sub Unicode.spaces_re [Unicode.space] u = u.
Proof.
  induction u as [|c u IH]; intros Hu; [apply u_sub_spaces_nil|].
  rewrite u_single_spaced_cons in Hu.
  apply andb_true_iff in Hu as [Hu Hu3]. apply andb_true_iff in Hu as [Hu1 Hu2].
  rewrite u_sub_spaces_cons. destruct (Unicode.isspace c) eqn:Ec; [|now rewrite IH].
  cbn [negb orb] in Hu1. apply N.eqb_eq in Hu1. subst c.
  assert (Hws : Unicode.ws_len u = 0).
  { destruct u as [|b u]; [reflexivity|]. simpl in Hu2 |- *.
    destruct (Unicode.isspace b); [discriminate | reflexivity]. }
  now rewrite (u_lstrip_fixed _ Hws), IH.
Qed.

Lemma u_single_spaced_suffix (l1 l2 : Unicode.ustr) :
  Unicode.single_spaced (l1 ++ l2) = true -> Unicode.single_spaced l2 = true.
Proof.
  unfold Unicode.single_spaced. rewrite forallb_app. intros H.
  apply andb_true_iff in H as [H1 H2]. apply andb_true_iff in H1 as [_ H1].
  now rewrite H1, (u_adjacent_ok_suffix _ _ _ H2).
Qed.

Lemma u_single_spaced_prefix (l1 l2 : Unicode.ustr) :
  Unicode.single_spaced (l1 ++ l2) = true -> Unicode.single_spaced l1 = true.
Proof.
  unfold Unicode.single_spaced. rewrite forallb_app. intros H.
  apply andb_true_iff in H as [H1 H2]. apply andb_true_iff in H1 as [H1 _].
  now rewrite H1, (u_adjacent_ok_prefix _ _ _ H2).
Qed.

(** [strip] on Unicode text *)

Lemma u_rstrip_prefix (y : Unicode.ustr) : exists r, y = Unicode.rstrip y ++ r.
Proof.
  unfold Unicode.rstrip. exists (rev (firstn (Unicode.ws_len (rev y)) (rev y))).
  rewrite <- rev_app_distr, <- u_ws_len_skipn, firstn_skipn.
  now rewrite rev_involutive.
Qed.

Lemma u_strip_infix (s : Unicode.ustr) : exists l r, s = l ++ Unicode.strip s ++ r.
Proof.
  unfold Unicode.strip. destruct (u_rstrip_prefix (Unicode.lstrip s)) as [r Hr].
  exists (firstn (Unicode.ws_len s) s), r.
  now rewrite <- Hr, <- u_ws_len_skipn, firstn_skipn.
Qed.

Lemma u_rstrip_idem (y : Unicode.ustr) : Unicode.rstrip (Unicode.rstrip y) = Unicode.rstrip y.
Proof. unfold Unicode.rstrip. now rewrite rev_involutive, u_lstrip_idem. Qed.

Lemma u_lstrip_rstrip (y : Unicode.ustr) :
  Unicode.ws_len y = 0 -> Unicode.lstrip (Unicode.rstrip y) = Unicode.rstrip y.
Proof.
  intros H. apply u_lstrip_fixed.
  destruct (u_rstrip_prefix y) as [r Hr].
  destruct (Unicode.rstrip y) as [|a z]; [reflexivity|].
  rewrite Hr in H. simpl in H |- *.
  destruct (Unicode.isspace a); [discriminate | reflexivity].
Qed.

Lemma u_strip_idem (s : Unicode.ustr) : Unicode.strip (Unicode.strip s) = Unicode.strip s.
Proof.
  unfold Unicode.strip.
  now rewrite (u_lstrip_rstrip _ (u_ws_len_lstrip s)), u_rstrip_idem.
Qed.


(** [replace] *)

Lemma u_replace_absent (old : N) (new t : Unicode.ustr) :
  ~ In old t -> Unicode.replace old new t = t.
Proof.
  unfold Unicode.replace. induction t as [|c t IH]; intros H; [reflexivity|].
  simpl. destruct (N.eqb_spec c old) as [->|_].
  - elim H. now left.
  - simpl. f_equal. apply IH. intros Hin. apply H. now right.
Qed.

Lemma u_replace_in (old : N) (new t : Unicode.ustr) (c : N) :
  In c (Unicode.replace old new t) -> In c new \/ (In c t /\ c <> old).
Proof.
  unfold Unicode.replace. intros H. apply in_flat_map in H as (d & Hd & Hc).
  destruct (N.eqb_spec d old) as [->|Hne]; [now left|].
  destruct Hc as [<- | []]. right. now split.
Qed.

Lemma u_free_of_replace (cs : list N) (old : N) (new t : Unicode.ustr) :
  Unicode.free_of cs new -> Unicode.free_of cs t ->
  Unicode.free_of cs (Unicode.replace old new t).
Proof.
  intros Hn Ht c Hc Hin. apply u_replace_in in Hin as [Hin | [Hin _]].
  - exact (Hn c Hc Hin).
  - exact (Ht c Hc Hin).
Qed.

Lemma u_replace_fixed (cs : list N) (old : N) (new t : Unicode.ustr) :
  In old cs -> Unicode.free_of cs t -> Unicode.replace old new t = t.
Proof. intros Hc Ht. apply u_replace_absent. now apply Ht. Qed.

(** The first line of [clean_text] leaves none of the three characters. *)
Lemma u_first_line_free (x : Unicode.ustr) :
  Unicode.free_of [65279; 8203; 160]%N
    (Unicode.replace 160 [Unicode.space]
       (Unicode.replace 8203 [] (Unicode.replace 65279 [] x))).
Proof.
  intros c Hc Hin.
  apply u_replace_in in Hin as [[<- | []] | [Hin H1]];
    [simpl in Hc; repeat (destruct Hc as [Hc | Hc]; [discriminate|]); exact Hc|].
  apply u_replace_in in Hin as [[] | [Hin H2]].
  apply u_replace_in in Hin as [[] | [Hin H3]].
  simpl in Hc. destruct Hc as [<- | [<- | [<- | []]]]; congruence.
Qed.

(** The third line leaves no curly quote and no em dash. *)
Lemma u_third_line_free (x : Unicode.ustr) :
  Unicode.free_of [8220; 8221; 8212]%N
    (Unicode.replace 8212 [Unicode.hyphen]
       (Unicode.replace 8221 [Unicode.quote]
          (Unicode.replace 8220 [Unicode.quote] x))).
Proof.
  intros c Hc Hin.
  apply u_replace_in in Hin as [[<- | []] | [Hin H1]];
    [simpl in Hc; repeat (destruct Hc as [Hc | Hc]; [discriminate|]); exact Hc|].
  apply u_replace_in in Hin as [[<- | []] | [Hin H2]];
    [simpl in Hc; repeat (destruct Hc as [Hc | Hc]; [discriminate|]); exact Hc|].
  apply u_replace_in in Hin as [[<- | []] | [Hin H3]];
    [simpl in Hc; repeat (destruct Hc as [Hc | Hc]; [discriminate|]); exact Hc|].
  simpl in Hc. destruct Hc as [<- | [<- | [<- | []]]]; congruence.
Qed.

(** The characters of the text after the two substitutions and [strip] are
    characters of the text before them, hyphens or spaces. *)
Lemma u_lstrip_in (s : Unicode.ustr) (c : N) : In c (Unicode.lstrip s) -> In c s.
Proof.
  rewrite <- u_ws_len_skipn. intros H.
  rewrite <- (firstn_skipn (Unicode.ws_len s) s). apply in_or_app. now right.
Qed.

Lemma u_after_hyphen_in (s : Unicode.ustr) (c : N) :
  In c (Unicode.after_hyphen s) -> In c s.
Proof.
  unfold Unicode.after_hyphen. intros H. apply u_lstrip_in in H.
  apply u_lstrip_in. destruct (Unicode.lstrip s); [exact H | now right].
Qed.

Lemma u_sub_hyphen_in (c : N) (n : nat) :
  forall s, length s <= n ->
  In c (Unicode.sub Unicode.hyphen_re [Unicode.hyphen] s) ->
  c = Unicode.hyphen \/ In c s.
Proof.
  induction n as [|n IH]; intros s Hn.
  - destruct s; [now rewrite u_sub_hyphen_nil | simpl in Hn; lia].
  - destruct s as [|d s]; [now rewrite u_sub_hyphen_nil|]. simpl in Hn.
    destruct (Unicode.hyphen_ahead (d :: s)) eqn:E.
    + rewrite (u_sub_hyphen_match _ E).
      pose proof (u_after_hyphen_shorter _ E) as Hl. simpl in Hl.
      intros [<- | H]; [now left|].
      apply IH in H as [-> | H]; [now left | | lia].
      right. now apply u_after_hyphen_in.
    + rewrite (u_sub_hyphen_copy _ _ E).
      intros [<- | H]; [right; now left|].
      apply IH in H as [-> | H]; [now left | right; now right | lia].
Qed.

Lemma u_sub_spaces_in (c : N) (n : nat) :
  forall s, length s <= n ->
  In c (Unicode.sub Unicode.spaces_re [Unicode.space] s) ->
  c = Unicode.space \/ In c s.
Proof.
  induction n as [|n IH]; intros s Hn.
  - destruct s; [now rewrite u_sub_spaces_nil | simpl in Hn; lia].
  - destruct s as [|d s]; [now rewrite u_sub_spaces_nil|]. simpl in Hn.
    rewrite u_sub_spaces_cons. destruct (Unicode.isspace d).
    + intros [<- | H]; [now left|].
      apply IH in H as [-> | H];
        [now left | right; right; now apply u_lstrip_in
         | pose proof (u_lstrip_length s); lia].
    + intros [<- | H]; [right; now left|].
      apply IH in H as [-> | H]; [now left | right; now right | lia].
Qed.

Lemma u_strip_in (s : Unicode.ustr) (c : N) : In c (Unicode.strip s) -> In c s.
Proof.
  destruct (u_strip_infix s) as (l & r & H). intros Hin. rewrite H.
  apply in_or_app. right. apply in_or_app. now left.
Qed.

Lemma u_free_of_later_lines (cs : list N) (t : Unicode.ustr) :
  ~ In Unicode.hyphen cs -> ~ In Unicode.space cs ->
  Unicode.free_of cs t ->
  Unicode.free_of cs
    (Unicode.strip
       (Unicode.sub Unicode.spaces_re [Unicode.space]
          (Unicode.sub Unicode.hyphen_re [Unicode.hyphen] t))).
Proof.
  intros Hh Hs Ht c Hc Hin. apply u_strip_in in Hin.
  apply (u_sub_spaces_in c _ _ (le_n _)) in Hin as [-> | Hin]; [now apply Hs|].
  apply (u_sub_hyphen_in c _ _ (le_n _)) in Hin as [-> | Hin]; [now apply Hh|].
  exact (Ht c Hc Hin).
Qed.

(** After the two substitutions and [strip], the text has no whitespace next
    to a hyphen, only single spaces for whitespace, and none at either end. *)
Lemma u_later_lines_shape (t : Unicode.ustr) :
  let y := Unicode.strip
             (Unicode.sub Unicode.spaces_re [Unicode.space]
                (Unicode.sub Unicode.hyphen_re [Unicode.hyphen] t)) in
  Unicode.hyphen_tight y = true /\
  Unicode.single_spaced y = true /\
  Unicode.strip y = y.
Proof.
  cbv zeta.
  set (a := Unicode.sub Unicode.hyphen_re [Unicode.hyphen] t).
  set (c := Unicode.sub Unicode.spaces_re [Unicode.space] a).
  assert (Ha : Unicode.hyphen_tight a = true)
    by (apply (u_sub_hyphen_tight (length t)); lia).
  assert (Hc1 : Unicode.hyphen_tight c = true)
    by (apply (u_sub_spaces_tight (length a)); [lia | exact Ha]).
  assert (Hc2 : Unicode.single_spaced c = true)
    by (apply (u_sub_spaces_single (length a)); lia).
  destruct (u_strip_infix c) as (l & r & Hlr).
  rewrite Hlr in Hc1, Hc2. split; [|split].
  - exact (u_adjacent_ok_prefix _ _ _ (u_hyphen_tight_suffix _ _ Hc1)).
  - exact (u_single_spaced_prefix _ _ (u_single_spaced_suffix _ _ Hc2)).
  - apply u_strip_idem.
Qed.

(** Normal form and the later lines of [clean_text]. *)
Section NormalFormClosure.
Variable NFKC : Unicode.ustr -> Unicode.ustr.
Hypothesis piece :
  forall l t r, NFKC (l ++ t ++ r) = l ++ t ++ r -> NFKC t = t.
Hypothesis join :
  forall c a b, In c [Unicode.space; Unicode.hyphen; Unicode.quote] ->
                NFKC a = a -> NFKC b = b -> NFKC (a ++ c :: b) = a ++ c :: b.

Lemma u_normal_prefix (a b : Unicode.ustr) : NFKC (a ++ b) = a ++ b -> NFKC a = a.
Proof. intros H. apply (piece [] a b). exact H. Qed.

Lemma u_normal_suffix (a b : Unicode.ustr) : NFKC (a ++ b) = a ++ b -> NFKC b = b.
Proof. intros H. apply (piece a b []). now rewrite app_nil_r. Qed.

Lemma u_replace_normal (old c : N) :
  In c [Unicode.space; Unicode.hyphen; Unicode.quote] ->
  forall s p, NFKC (p ++ s) = p ++ s ->
              NFKC (p ++ Unicode.replace old [c] s) = p ++ Unicode.replace old [c] s.
Proof.
  intros Hc. induction s as [|d s IH]; intros p H; [exact H|].
  unfold Unicode.replace. cbn [flat_map]. fold (Unicode.replace old [c] s).
  destruct (N.eqb d old).
  - cbn [app]. apply join; [exact Hc | exact (u_normal_prefix _ _ H) |].
    apply (IH []). cbn [app].
    apply (u_normal_suffix (p ++ [d])). now rewrite <- app_assoc.
  - cbn [app]. change (p ++ d :: Unicode.replace old [c] s)
      with (p ++ [d] ++ Unicode.replace old [c] s).
    rewrite app_assoc. apply IH. now rewrite <- app_assoc.
Qed.

Lemma u_after_hyphen_suffix (s : Unicode.ustr) :
  Unicode.hyphen_ahead s = true -> exists pre, s = pre ++ Unicode.after_hyphen s.
Proof.
  intros H. eexists. rewrite <- (u_skipn_hyphen_match _ H).
  symmetry. apply firstn_skipn.
Qed.

Lemma u_sub_hyphen_normal (n : nat) :
  forall s p, length s <= n -> NFKC (p ++ s) = p ++ s ->
  NFKC (p ++ Unicode.sub Unicode.hyphen_re [Unicode.hyphen] s)
  = p ++ Unicode.sub Unicode.hyphen_re [Unicode.hyphen] s.
Proof.
  induction n as [|n IH]; intros s p Hn H.
  - destruct s; [now rewrite u_sub_hyphen_nil | simpl in Hn; lia].
  - destruct s as [|c s]; [now rewrite u_sub_hyphen_nil|]. simpl in Hn.
    destruct (Unicode.hyphen_ahead (c :: s)) eqn:E.
    + rewrite (u_sub_hyphen_match _ E).
      apply join; [simpl; auto | exact (u_normal_prefix _ _ H) |].
      pose proof (u_after_hyphen_shorter _ E) as Hl. simpl in Hl.
      apply (IH _ []); [lia|]. cbn [app].
      destruct (u_after_hyphen_suffix _ E) as [pre Hpre].
      apply (u_normal_suffix (p ++ pre)). rewrite <- app_assoc, <- Hpre. exact H.
    + rewrite (u_sub_hyphen_copy _ _ E).
      change (p ++ c :: Unicode.sub Unicode.hyphen_re [Unicode.hyphen] s)
        with (p ++ [c] ++ Unicode.sub Unicode.hyphen_re [Unicode.hyphen] s).
      rewrite app_assoc. apply IH; [lia|]. now rewrite <- app_assoc.
Qed.

Lemma u_sub_spaces_normal (n : nat) :
  forall s p, length s <= n -> NFKC (p ++ s) = p ++ s ->
  NFKC (p ++ Unicode.sub Unicode.spaces_re [Unicode.space] s)
  = p ++ Unicode.sub Unicode.spaces_re [Unicode.space] s.
Proof.
  induction n as [|n IH]; intros s p Hn H.
  - destruct s; [now rewrite u_sub_spaces_nil | simpl in Hn; lia].
  - destruct s as [|c s]; [now rewrite u_sub_spaces_nil|]. simpl in Hn.
    rewrite u_sub_spaces_cons. destruct (Unicode.isspace c).
    + apply join; [simpl; auto | exact (u_normal_prefix _ _ H) |].
      apply (IH _ []); [pose proof (u_lstrip_length s); lia|]. cbn [app].
      apply (u_normal_suffix (p ++ c :: firstn (Unicode.ws_len s) s)).
      rewrite <- app_assoc. cbn [app].
      now rewrite <- u_ws_len_skipn, firstn_skipn.
    + change (p ++ c :: Unicode.sub Unicode.spaces_re [Unicode.space] s)
        with (p ++ [c] ++ Unicode.sub Unicode.spaces_re [Unicode.space] s).
      rewrite app_assoc. apply IH; [lia|]. now rewrite <- app_assoc.
Qed.

Lemma u_strip_normal (s : Unicode.ustr) : NFKC s = s -> NFKC (Unicode.strip s) = Unicode.strip s.
Proof.
  intros H. destruct (u_strip_infix s) as (l & r & Hs).
  apply (piece l _ r). now rewrite <- Hs.
Qed.

End NormalFormClosure.

(** The facts [Unicode.normal_form] asks of the normaliser follow from the
    closure facts of [Unicode.closed_normal_form]. *)
Lemma normal_form_of_closure (NFKC : Unicode.ustr -> Unicode.ustr) :
  Unicode.closed_normal_form NFKC -> Unicode.normal_form NFKC.
Proof.
  intros [Hidem Hinv Hpiece Hjoin]. constructor.
  - exact Hidem.
  - exact Hinv.
  - intros t Ht.
    apply (u_replace_normal NFKC Hpiece Hjoin 8212 Unicode.hyphen
             ltac:(simpl; auto) _ []). cbn [app].
    apply (u_replace_normal NFKC Hpiece Hjoin 8221 Unicode.quote
             ltac:(simpl; auto) _ []). cbn [app].
    apply (u_replace_normal NFKC Hpiece Hjoin 8220 Unicode.quote
             ltac:(simpl; auto) _ []). exact Ht.
  - intros t Ht. exact (u_sub_hyphen_normal NFKC Hpiece Hjoin _ t [] (le_n _) Ht).
  - intros t Ht. exact (u_sub_spaces_normal NFKC Hpiece Hjoin _ t [] (le_n _) Ht).
  - intros t Ht. exact (u_strip_normal NFKC Hpiece t Ht).
Qed.

(** Cleaning cleaned text gives the same text when the later lines of
    [clean_text] keep a text in normal form. *)
Lemma clean_text_fixed_normal (NFKC : Unicode.ustr -> Unicode.ustr)
  (x : Unicode.ustr) :
  Unicode.normal_form NFKC ->
  Unicode.clean_text NFKC (Unicode.clean_text NFKC x)
  = Unicode.clean_text NFKC x.
Proof.
  intros [Hidem Hinv Hq Hh Hs Hst].
  unfold Unicode.clean_text at 2.
  set (r := Unicode.replace 160 [Unicode.space]
              (Unicode.replace 8203 [] (Unicode.replace 65279 [] x))).
  set (q := Unicode.replace 8212 [Unicode.hyphen]
              (Unicode.replace 8221 [Unicode.quote]
                 (Unicode.replace 8220 [Unicode.quote] (NFKC r)))).
  set (y := Unicode.strip
              (Unicode.sub Unicode.spaces_re [Unicode.space]
                 (Unicode.sub Unicode.hyphen_re [Unicode.hyphen] q))).
  assert (Hr : Unicode.free_of [65279; 8203; 160]%N r)
    by apply u_first_line_free.
  assert (Hq1 : Unicode.free_of [65279; 8203; 160]%N q).
  { unfold q. repeat apply u_free_of_replace;
      try (intros c Hc [<- | []]; simpl in Hc;
           repeat (destruct Hc as [Hc | Hc]; [discriminate|]); exact Hc).
    now apply Hinv. }
  assert (Hy1 : Unicode.free_of [65279; 8203; 160]%N y).
  { apply u_free_of_later_lines; [| |exact Hq1];
      intros Hc; simpl in Hc;
      repeat (destruct Hc as [Hc | Hc]; [discriminate|]); exact Hc. }
  assert (Hy2 : Unicode.free_of [8220; 8221; 8212]%N y).
  { apply u_free_of_later_lines; [| |apply u_third_line_free];
      intros Hc; simpl in Hc;
      repeat (destruct Hc as [Hc | Hc]; [discriminate|]); exact Hc. }
  assert (Hn : NFKC y = y).
  { apply Hst, Hs, Hh. exact (Hq (NFKC r) (Hidem r)). }
  destruct (u_later_lines_shape q) as (Ht & Hsp & Hstrip). fold y in Ht, Hsp, Hstrip.
  unfold Unicode.clean_text.
  rewrite (u_replace_fixed [65279; 8203; 160]%N 65279 [] y) by (simpl; auto).
  rewrite (u_replace_fixed [65279; 8203; 160]%N 8203 [] y) by (simpl; auto).
  rewrite (u_replace_fixed [65279; 8203; 160]%N 160 [Unicode.space] y)
    by (simpl; auto).
  rewrite Hn.
  rewrite (u_replace_fixed [8220; 8221; 8212]%N 8220 [Unicode.quote] y)
    by (simpl; auto).
  rewrite (u_replace_fixed [8220; 8221; 8212]%N 8221 [Unicode.quote] y)
    by (simpl; auto).
  rewrite (u_replace_fixed [8220; 8221; 8212]%N 8212 [Unicode.hyphen] y)
    by (simpl; auto).
  now rewrite (u_sub_hyphen_fixed _ Ht), (u_sub_spaces_fixed _ Hsp).
Qed.

(** C6: cleaning cleaned text gives the same text, whatever the code points
    of the text are.  Of [unicodedata.normalize('NFKC', _)] the proof uses
    what [Unicode.closed_normal_form] lists: normalising twice is normalising
    once, normalising brings in none of U+FEFF, U+200B and U+00A0, a piece of
    a text in normal form is in normal form, and so are two texts in normal
    form joined by a space, a hyphen or a straight quote. *)
Theorem clean_text_idempotent (NFKC : Unicode.ustr -> Unicode.ustr)
  (x : Unicode.ustr) :
  Unicode.closed_normal_form NFKC ->
  Unicode.clean_text NFKC (Unicode.clean_text NFKC x)
  = Unicode.clean_text NFKC x.
Proof.
  intros H. apply clean_text_fixed_normal. now apply normal_form_of_closure.
Qed.

(** The facts asked of the normaliser hold of one that changes nothing; the
    text starts with U+FEFF and holds U+00A0, an em dash, an em space and a
    curly quote. *)
Lemma clean_text_idempotent_witness :
  Unicode.clean_text (fun t => t)
    (Unicode.clean_text (fun t => t) [65279; 97; 160; 8212; 8195; 98; 8220]%N)
  = Unicode.clean_text (fun t => t) [65279; 97; 160; 8212; 8195; 98; 8220]%N.
Proof.
  apply clean_text_idempotent. constructor; auto.
Defined.

(** ** The two models of the cleaner on ASCII text *)

Lemma ascii_text_cons (c : ascii) (s : str) :
  ascii_text (c :: s) <-> (Py.code c <? 128) = true /\ ascii_text s.
Proof. unfold ascii_text. simpl. apply andb_true_iff. Qed.

Lemma ascii_text_app (a b : str) :
  ascii_text (a ++ b) <-> ascii_text a /\ ascii_text b.
Proof. unfold ascii_text. rewrite forallb_app. apply andb_true_iff. Qed.

Lemma ascii_text_skipn (n : nat) (s : str) :
  ascii_text s -> ascii_text (skipn n s).
Proof.
  intros H. rewrite <- (firstn_skipn n s) in H. now apply ascii_text_app in H.
Qed.

Lemma ascii_text_rev (s : str) : ascii_text s -> ascii_text (rev s).
Proof.
  unfold ascii_text. rewrite !forallb_forall. intros H c Hc.
  apply H. now apply in_rev.
Qed.

Lemma ascii_text_lstrip (s : str) : ascii_text s -> ascii_text (Py.lstrip s).
Proof. rewrite <- ws_len_skipn. apply ascii_text_skipn. Qed.

Lemma ascii_text_codes (s : str) :
  ascii_text s <-> forall c, In c (codes s) -> (c < 128)%N.
Proof.
  unfold ascii_text, codes. rewrite forallb_forall. split.
  - intros H c Hc. apply in_map_iff in Hc as (a & <- & Ha).
    specialize (H a Ha). apply Nat.ltb_lt in H. unfold Py.code in H.
    unfold nat_of_ascii in H. lia.
  - intros H a Ha. apply Nat.ltb_lt. unfold Py.code, nat_of_ascii.
    specialize (H (N_of_ascii a) (in_map _ _ _ Ha)). lia.
Qed.

Lemma isspace_code (c : ascii) :
  (Py.code c <? 128) = true -> Unicode.isspace (N_of_ascii c) = Py.isspace c.
Proof.
  destruct c as [[] [] [] [] [] [] [] []]; intros H;
    solve [reflexivity | discriminate H].
Qed.

Lemma is_hyphen_code (c : ascii) :
  Unicode.is_hyphen (N_of_ascii c) = is_hyphen c.
Proof. destruct c as [[] [] [] [] [] [] [] []]; reflexivity. Qed.

Lemma lstrip_codes (s : str) :
  ascii_text s -> Unicode.lstrip (codes s) = codes (Py.lstrip s).
Proof.
  induction s as [|c s IH]; intros H; [reflexivity|].
  apply ascii_text_cons in H as [Hc Hs]. simpl.
  rewrite (isspace_code _ Hc). destruct (Py.isspace c); [now apply IH | reflexivity].
Qed.

Lemma hyphen_ahead_codes (s : str) :
  ascii_text s -> Unicode.hyphen_ahead (codes s) = hyphen_ahead s.
Proof.
  intros H. unfold Unicode.hyphen_ahead, hyphen_ahead. rewrite (lstrip_codes _ H).
  destruct (Py.lstrip s) as [|c r]; [reflexivity | apply is_hyphen_code].
Qed.

Lemma ascii_text_after_hyphen (s : str) :
  ascii_text s -> ascii_text (after_hyphen s).
Proof.
  intros H. unfold after_hyphen. apply ascii_text_lstrip.
  apply ascii_text_lstrip in H. destruct (Py.lstrip s) as [|c r]; [exact H|].
  now apply ascii_text_cons in H.
Qed.

Lemma after_hyphen_codes (s : str) :
  ascii_text s -> Unicode.after_hyphen (codes s) = codes (after_hyphen s).
Proof.
  intros H. unfold Unicode.after_hyphen, after_hyphen. rewrite (lstrip_codes _ H).
  apply ascii_text_lstrip in H. destruct (Py.lstrip s) as [|c r]; [reflexivity|].
  apply ascii_text_cons in H as [_ H]. now apply lstrip_codes.
Qed.

Lemma sub_hyphen_codes (n : nat) :
  forall s, length s <= n -> ascii_text s ->
  Unicode.sub Unicode.hyphen_re [Unicode.hyphen] (codes s)
  = codes (Re.sub hyphen_re (lit "-") s).
Proof.
  induction n as [|n IH]; intros s Hn Hs.
  - destruct s; [|simpl in Hn; lia]. change (codes []) with (@nil N).
    now rewrite u_sub_hyphen_nil, sub_hyphen_nil.
  - destruct s as [|c s];
      [change (codes []) with (@nil N); now rewrite u_sub_hyphen_nil, sub_hyphen_nil|].
    simpl in Hn. destruct (hyphen_ahead (c :: s)) eqn:E.
    + rewrite (sub_hyphen_match _ E).
      rewrite u_sub_hyphen_match by (now rewrite hyphen_ahead_codes).
      rewrite (after_hyphen_codes _ Hs).
      pose proof (after_hyphen_shorter _ E) as Hl. simpl in Hl.
      rewrite IH by (lia || now apply ascii_text_after_hyphen). reflexivity.
    + rewrite (sub_hyphen_copy _ _ E).
      change (codes (c :: s)) with (N_of_ascii c :: codes s).
      rewrite u_sub_hyphen_copy
        by (change (N_of_ascii c :: codes s) with (codes (c :: s));
            now rewrite hyphen_ahead_codes).
      apply ascii_text_cons in Hs as [_ Hs].
      rewrite IH by (lia || assumption). reflexivity.
Qed.

Lemma sub_spaces_codes (n : nat) :
  forall s, length s <= n -> ascii_text s ->
  Unicode.sub Unicode.spaces_re [Unicode.space] (codes s)
  = codes (Re.sub spaces_re (lit " ") s).
Proof.
  induction n as [|n IH]; intros s Hn Hs.
  - destruct s; [|simpl in Hn; lia]. change (codes []) with (@nil N).
    now rewrite u_sub_spaces_nil, sub_spaces_nil.
  - destruct s as [|c s];
      [change (codes []) with (@nil N); now rewrite u_sub_spaces_nil, sub_spaces_nil|].
    simpl in Hn. apply ascii_text_cons in Hs as [Hc Hs].
    change (codes (c :: s)) with (N_of_ascii c :: codes s).
    rewrite u_sub_spaces_cons, sub_spaces_cons, (isspace_code _ Hc).
    destruct (Py.isspace c).
    + rewrite (lstrip_codes _ Hs).
      rewrite IH; [reflexivity | pose proof (lstrip_length s); lia
                  | now apply ascii_text_lstrip].
    + rewrite IH by (lia || assumption). reflexivity.
Qed.

Lemma strip_codes (s : str) :
  ascii_text s -> Unicode.strip (codes s) = codes (Py.strip s).
Proof.
  intros H. unfold Unicode.strip, Py.strip, Unicode.rstrip, Py.rstrip.
  rewrite (lstrip_codes _ H). unfold codes at 1. rewrite <- map_rev.
  fold (codes (rev (Py.lstrip s))).
  rewrite lstrip_codes by (now apply ascii_text_rev, ascii_text_lstrip).
  unfold codes. now rewrite map_rev.
Qed.

Lemma codes_free (cs : list N) (s : str) :
  ascii_text s -> Forall (fun c => 128 <= c)%N cs -> Unicode.free_of cs (codes s).
Proof.
  intros Hs Hcs c Hc Hin. rewrite Forall_forall in Hcs. specialize (Hcs c Hc).
  apply ascii_text_codes in Hin; [lia | exact Hs].
Qed.

(** Substitution keeps ASCII text ASCII. *)
Lemma ascii_text_sub_hyphen (s : str) :
  ascii_text s -> ascii_text (Re.sub hyphen_re (lit "-") s).
Proof.
  intros Hs. apply ascii_text_codes. intros c Hc.
  rewrite <- (sub_hyphen_codes _ _ (le_n _) Hs) in Hc.
  apply (u_sub_hyphen_in c _ _ (le_n _)) in Hc as [-> | Hc]; [reflexivity|].
  now apply (proj1 (ascii_text_codes s)).
Qed.

Lemma ascii_text_sub_spaces (s : str) :
  ascii_text s -> ascii_text (Re.sub spaces_re (lit " ") s).
Proof.
  intros Hs. apply ascii_text_codes. intros c Hc.
  rewrite <- (sub_spaces_codes _ _ (le_n _) Hs) in Hc.
  apply (u_sub_spaces_in c _ _ (le_n _)) in Hc as [-> | Hc]; [reflexivity|].
  now apply (proj1 (ascii_text_codes s)).
Qed.

(** X17: on ASCII text the two models of [clean_text] agree: the [replace]
    calls find nothing to replace, the normaliser changes nothing, and the
    two substitutions and [strip] see the same whitespace. *)
Theorem cleaning_ascii_text (NFKC : Unicode.ustr -> Unicode.ustr) (x : str) :
  (forall t, ascii_text t -> NFKC (codes t) = codes t) ->
  ascii_text x ->
  Unicode.clean_text NFKC (codes x) = codes (clean_text x).
Proof.
  intros Hn Hx. unfold Unicode.clean_text, clean_text, unicodedata_normalize.
  assert (H1 : Unicode.free_of [65279; 8203; 160]%N (codes x))
    by (apply codes_free; [exact Hx | repeat constructor; discriminate]).
  assert (H2 : Unicode.free_of [8220; 8221; 8212]%N (codes x))
    by (apply codes_free; [exact Hx | repeat constructor; discriminate]).
  rewrite (u_replace_fixed [65279; 8203; 160]%N 65279 [] _) by (simpl; auto).
  rewrite (u_replace_fixed [65279; 8203; 160]%N 8203 [] _) by (simpl; auto).
  rewrite (u_replace_fixed [65279; 8203; 160]%N 160 [Unicode.space] _)
    by (simpl; auto).
  rewrite (Hn x Hx).
  rewrite (u_replace_fixed [8220; 8221; 8212]%N 8220 [Unicode.quote] _)
    by (simpl; auto).
  rewrite (u_replace_fixed [8220; 8221; 8212]%N 8221 [Unicode.quote] _)
    by (simpl; auto).
  rewrite (u_replace_fixed [8220; 8221; 8212]%N 8212 [Unicode.hyphen] _)
    by (simpl; auto).
  rewrite (sub_hyphen_codes _ _ (le_n _) Hx).
  rewrite (sub_spaces_codes _ _ (le_n _) (ascii_text_sub_hyphen _ Hx)).
  apply strip_codes. now apply ascii_text_sub_spaces, ascii_text_sub_hyphen.
Qed.

Lemma cleaning_ascii_text_witness :
  Unicode.clean_text (fun t => t) (codes (lit " re - entry  of the virus "))
  = codes (clean_text (lit " re - entry  of the virus ")).
Proof.
  apply cleaning_ascii_text; [reflexivity | reflexivity].
Defined.

(** ** The shape of cleaned Unicode text *)

Lemma u_ws_len_rstrip (y : Unicode.ustr) :
  Unicode.ws_len y = 0 -> Unicode.ws_len (Unicode.rstrip y) = 0.
Proof.
  intros H. destruct (u_rstrip_prefix y) as [r Hr].
  destruct (Unicode.rstrip y) as [|a z]; [reflexivity|].
  rewrite Hr in H. simpl in H |- *.
  destruct (Unicode.isspace a); [discriminate | reflexivity].
Qed.

(** X18: whatever the text is and whatever the normaliser answers, cleaned
    text holds no whitespace but single spaces, none of them next to another
    or next to a hyphen, and none at either end. *)
Theorem cleaned_unicode_text_shape (NFKC : Unicode.ustr -> Unicode.ustr)
  (x : Unicode.ustr) :
  (forall c, In c (Unicode.clean_text NFKC x) ->
             Unicode.isspace c = true -> c = Unicode.space) /\
  (forall l a b r, Unicode.clean_text NFKC x = l ++ a :: b :: r ->
     Unicode.isspace a && Unicode.isspace b = false /\
     Unicode.isspace a && Unicode.is_hyphen b = false /\
     Unicode.is_hyphen a && Unicode.isspace b = false) /\
  (forall c r, Unicode.clean_text NFKC x = c :: r -> Unicode.isspace c = false) /\
  (forall l c, Unicode.clean_text NFKC x = l ++ [c] -> Unicode.isspace c = false).
Proof.
  unfold Unicode.clean_text.
  set (q := Unicode.replace 8212 [Unicode.hyphen] _).
  destruct (u_later_lines_shape q) as (Ht & Hs & _).
  set (y := Unicode.strip _) in *.
  unfold Unicode.single_spaced in Hs. apply andb_true_iff in Hs as [Hall Hadj].
  split; [|split; [|split]].
  - intros c Hin Hc. rewrite forallb_forall in Hall. specialize (Hall c Hin).
    rewrite Hc in Hall. cbn [negb orb] in Hall.
    apply N.eqb_eq in Hall. now subst c.
  - intros l a b r E. rewrite E in Ht, Hadj.
    apply u_adjacent_ok_suffix in Hadj. unfold Unicode.hyphen_tight in Ht.
    apply u_adjacent_ok_suffix in Ht. simpl in Hadj, Ht.
    apply andb_true_iff in Hadj as [Hadj _]. apply andb_true_iff in Ht as [Ht _].
    apply negb_true_iff in Hadj, Ht. apply orb_false_iff in Ht as [Ht1 Ht2].
    now repeat split.
  - intros c r E.
    assert (Hw : Unicode.ws_len y = 0).
    { unfold y, Unicode.strip. apply u_ws_len_rstrip, u_ws_len_lstrip. }
    rewrite E in Hw. simpl in Hw. now destruct (Unicode.isspace c).
  - intros l c E.
    assert (Hw : Unicode.ws_len (rev y) = 0).
    { unfold y, Unicode.strip, Unicode.rstrip. rewrite rev_involutive.
      apply u_ws_len_lstrip. }
    rewrite E, rev_app_distr in Hw. simpl in Hw. now destruct (Unicode.isspace c).
Qed.

(** ** The fallback similarity *)

Lemma common_prefix_le skip (a b : str) :
  Difflib.common_prefix skip a b <= length a /\
  Difflib.common_prefix skip a b <= length b.
Proof.
  revert b; induction a as [|x a IH]; intros [|y b]; simpl; try lia.
  destruct (Ascii.eqb x y && negb (skip y)); [|lia].
  destruct (IH b). lia.
Qed.

Lemma best_in_b_bounds pop (a b : str) (i : nat) (N M : nat) :
  i + length a <= N ->
  forall j best,
  j + length b <= M ->
  fst (fst best) + snd best <= N /\ snd (fst best) + snd best <= M ->
  let r := Difflib.best_in_b pop a b i j best in
  fst (fst r) + snd r <= N /\ snd (fst r) + snd r <= M.
Proof.
  intros Ha. induction b as [|y b IH]; intros j best Hb Hbest; simpl; [exact Hbest|].
  simpl in Hb. apply IH; [lia|].
  destruct (snd best <? _); [|exact Hbest].
  destruct (common_prefix_le pop a (y :: b)) as [H1 H2]. simpl in *. lia.
Qed.

Lemma best_in_a_bounds pop (b : str) (N : nat) (a : str) :
  forall i best,
  i + length a <= N ->
  fst (fst best) + snd best <= N /\ snd (fst best) + snd best <= length b ->
  let r := Difflib.best_in_a pop a b i best in
  fst (fst r) + snd r <= N /\ snd (fst r) + snd r <= length b.
Proof.
  induction a as [|x a IH]; intros i best Ha Hbest; simpl; [exact Hbest|].
  simpl in Ha. apply IH; [lia|].
  apply (best_in_b_bounds pop (x :: a) b i N (length b)); simpl;
    first [lia | exact Hbest].
Qed.

(** The block [find_longest_match] answers lies inside both strings. *)
Lemma find_longest_match_bounds pop (a b : str) :
  let r := Difflib.find_longest_match pop a b in
  fst (fst r) + snd r <= length a /\ snd (fst r) + snd r <= length b.
Proof.
  unfold Difflib.find_longest_match.
  pose proof (best_in_a_bounds pop b (length a) a 0 (0, 0, 0)) as H.
  destruct (Difflib.best_in_a pop a b 0 (0, 0, 0)) as [[i j] k].
  simpl in H. destruct H as [Hi Hj]; [lia | lia |].
  cbn [fst snd].
  destruct (common_prefix_le (fun _ => false) (rev (firstn i a)) (rev (firstn j b)))
    as [Hl1 Hl2].
  destruct (common_prefix_le (fun _ => false) (skipn (i + k) a) (skipn (j + k) b))
    as [Hr1 Hr2].
  rewrite length_rev, length_firstn in Hl1, Hl2.
  rewrite length_skipn in Hr1, Hr2. lia.
Qed.

(** The fuel [ratio] gives to [matches] is enough: more fuel changes
    nothing. *)
Lemma matches_fuel pop (f1 : nat) :
  forall f2 a b, length a < f1 -> length a < f2 ->
  Difflib.matches f1 pop a b = Difflib.matches f2 pop a b.
Proof.
  induction f1 as [|f1 IH]; intros f2 a b H1 H2; [lia|].
  destruct f2 as [|f2]; [lia|]. simpl.
  pose proof (find_longest_match_bounds pop a b) as Hb.
  destruct (Difflib.find_longest_match pop a b) as [[i j] k].
  cbn [fst snd] in Hb. destruct (Nat.eqb_spec k 0) as [|Hk]; [reflexivity|].
  assert (length (firstn i a) < length a) by (rewrite length_firstn; lia).
  assert (length (skipn (i + k) a) < length a) by (rewrite length_skipn; lia).
  rewrite (IH f2 (firstn i a)) by lia.
  rewrite (IH f2 (skipn (i + k) a)) by lia. reflexivity.
Qed.

(** ** The exact pass *)

Lemma occupied_cons (u : span) (used : list span) (x : span) :
  occupied (u :: used) x = false -> occupied used x = false.
Proof. simpl. intros H. now apply orb_false_iff in H as [_ H]. Qed.

Section ExactFold.
Variable category : string.
Variable original_term : str.
Variable step : state * bool -> Re.Match -> state * bool.

Hypothesis step_cases : forall ann used mh m,
  step (ann, used, mh) m = (ann, used, mh) \/
  (step (ann, used, mh) m
   = (ann ++ [(Re.m_start m, Re.m_end m, category)],
      (Re.m_start m, Re.m_end m) :: used, true) /\
   occupied used (Re.m_start m, Re.m_end m) = false /\
   lightweight_lemma (Re.group0 m) = lightweight_lemma original_term).

(** The loop over the matches only appends; the flag tells whether it
    appended; each appended annotation passed both tests. *)
Lemma exact_fold_shape (found : list Re.Match) :
  forall ann used mh,
  exists new used',
    fold_left step found (ann, used, mh) = (ann ++ new, used', mh || negb (length new =? 0))
    /\ Forall (accepted_from category original_term used found) new.
Proof.
  induction found as [|m found IH]; intros ann used mh; simpl.
  - exists [], used. simpl. now rewrite app_nil_r, orb_false_r.
  - destruct (step_cases ann used mh m) as [-> | (-> & Hocc & Hlem)].
    + destruct (IH ann used mh) as (new & used' & Hf & Hall).
      exists new, used'. split; [exact Hf|].
      eapply Forall_impl; [|exact Hall].
      intros a (m' & Hin & Ha & Hl & Ho). exists m'. split; [now right | auto].
    + destruct (IH (ann ++ [(Re.m_start m, Re.m_end m, category)])
                  ((Re.m_start m, Re.m_end m) :: used) true)
        as (new & used' & Hf & Hall).
      exists ((Re.m_start m, Re.m_end m, category) :: new), used'.
      split.
      * etransitivity; [exact Hf|]. rewrite <- app_assoc. simpl.
        now rewrite orb_true_r.
      * constructor.
        -- exists m. split; [now left | auto].
        -- eapply Forall_impl; [|exact Hall].
           intros a (m' & Hin & Ha & Hl & Ho). exists m'.
           split; [now right|]. split; [exact Ha|]. split; [exact Hl|].
           exact (occupied_cons _ _ _ Ho).
Qed.

End ExactFold.

Lemma v2_exact_step_cases (category : string) (original_term : str) :
  forall ann used mh m,
  V2.exact_step category original_term (ann, used, mh) m = (ann, used, mh) \/
  (V2.exact_step category original_term (ann, used, mh) m
   = (ann ++ [(Re.m_start m, Re.m_end m, category)],
      (Re.m_start m, Re.m_end m) :: used, true) /\
   occupied used (Re.m_start m, Re.m_end m) = false /\
   lightweight_lemma (Re.group0 m) = lightweight_lemma original_term).
Proof.
  intros ann used mh m. unfold V2.exact_step.
  destruct (occupied used (Re.m_start m, Re.m_end m)) eqn:Ho; [now left|].
  destruct (Py.eqb (Py.lower (Re.group0 m)) (Py.lower original_term)) eqn:Ht;
    [|now left].
  right. repeat split. apply lemma_of_lower. now apply str_eqb_eq.
Qed.

Lemma copy_exact_step_cases (category : string) (original_term : str) :
  forall ann used mh m,
  V2Copy.exact_step category original_term (ann, used, mh) m = (ann, used, mh) \/
  (V2Copy.exact_step category original_term (ann, used, mh) m
   = (ann ++ [(Re.m_start m, Re.m_end m, category)],
      (Re.m_start m, Re.m_end m) :: used, true) /\
   occupied used (Re.m_start m, Re.m_end m) = false /\
   lightweight_lemma (Re.group0 m) = lightweight_lemma original_term).
Proof.
  intros ann used mh m. unfold V2Copy.exact_step.
  destruct (occupied used (Re.m_start m, Re.m_end m)) eqn:Ho; [now left|].
  destruct (Py.eqb (lightweight_lemma (Re.group0 m))
              (lightweight_lemma original_term)) eqn:Ht; [|now left].
  right. repeat split. now apply str_eqb_eq.
Qed.

Lemma v2_exact_pass_shape text category original_term pattern (st : state) :
  exists new used',
    V2.exact_pass text category original_term pattern st
    = (fst st ++ new, used', negb (length new =? 0)) /\
    Forall (accepted_from category original_term (snd st)
              (Re.finditer pattern text)) new.
Proof.
  destruct st as [ann used]. unfold V2.exact_pass.
  destruct (exact_fold_shape category original_term _
              (v2_exact_step_cases category original_term)
              (Re.finditer pattern text) ann used false) as (new & used' & H & Hall).
  now exists new, used'.
Qed.

Lemma copy_exact_pass_shape text category original_term pattern (st : state) :
  exists new used',
    V2Copy.exact_pass text category original_term (Some pattern) st
    = V2Copy.Returned (fst st ++ new, used', negb (length new =? 0)) /\
    Forall (accepted_from category original_term (snd st)
              (Re.finditer pattern text)) new.
Proof.
  destruct st as [ann used]. unfold V2Copy.exact_pass. simpl.
  destruct (exact_fold_shape category original_term _
              (copy_exact_step_cases category original_term)
              (Re.finditer pattern text) ann used false) as (new & used' & H & Hall).
  exists new, used'. split; [|exact Hall]. f_equal. exact H.
Qed.

(** The string of a match is the text between its two offsets. *)
Lemma finditer_from_group0 (p : Re.pattern) (s : str) :
  forall prev pos skip m,
  In m (Re.finditer_from p prev s pos skip) ->
  exists k n,
    Re.m_start m = (pos + Z.of_nat k)%Z /\
    Re.m_end m = (Re.m_start m + Z.of_nat n)%Z /\
    Re.group0 m = firstn n (skipn k s).
Proof.
  induction s as [|c s IH]; intros prev pos skip m Hin.
  - destruct skip; [|destruct Hin]. simpl in Hin. rewrite app_nil_r in Hin.
    apply in_map_iff in Hin as (n & <- & _). exists 0, n. simpl.
    now rewrite Z.add_0_r.
  - destruct skip as [|skip]; cbn [Re.finditer_from] in Hin.
    + apply in_app_or in Hin as [Hin | Hin].
      * apply in_map_iff in Hin as (n & <- & _). exists 0, n. simpl.
        now rewrite Z.add_0_r.
      * apply IH in Hin as (k & n & H1 & H2 & H3). exists (S k), n.
        split; [lia|]. now split.
    + apply IH in Hin as (k & n & H1 & H2 & H3). exists (S k), n.
      split; [lia|]. now split.
Qed.

Lemma finditer_group0 (p : Re.pattern) (text : str) (m : Re.Match) :
  In m (Re.finditer p text) ->
  Re.group0 m = Py.slice text (Re.m_start m) (Re.m_end m).
Proof.
  intros Hin. apply finditer_from_group0 in Hin as (k & n & H1 & H2 & H3).
  unfold Py.slice. rewrite H2, H1, H3. f_equal; [lia|]. f_equal. lia.
Qed.

(** X16: in both files the exact pass of a term only appends annotations, and
    each one it appends comes from a match of the term's pattern whose
    surface, the text between the two offsets, has the lemma of the term, and
    whose interval passed the occupied test against the set the pass started
    with: neither its start nor its end lies inside an interval of that
    set. *)
Theorem exact_pass_lemma_agrees (text : str) (category : string)
  (original_term : str) (pattern : Re.pattern) (st : state) :
  (exists new,
     fst (fst (V2.exact_pass text category original_term pattern st))
     = fst st ++ new /\
     Forall (accepted_from category original_term (snd st)
               (Re.finditer pattern text)) new) /\
  (exists new r,
     V2Copy.exact_pass text category original_term (Some pattern) st
     = V2Copy.Returned r /\
     fst (fst r) = fst st ++ new /\
     Forall (accepted_from category original_term (snd st)
               (Re.finditer pattern text)) new) /\
  (forall m, In m (Re.finditer pattern text) ->
             Re.group0 m = Py.slice text (Re.m_start m) (Re.m_end m)).
Proof.
  split; [|split; [|apply finditer_group0]].
  - destruct (v2_exact_pass_shape text category original_term pattern st)
      as (new & used' & H & Hall).
    exists new. now rewrite H.
  - destruct (copy_exact_pass_shape text category original_term pattern st)
      as (new & used' & H & Hall).
    exists new. eexists. split; [exact H|]. now split.
Qed.

(** ** The fuzzy pass *)

Lemma v2_fuzzy_pass_find b text category term (words : list str) (st : state) :
  V2.fuzzy_pass b text category term words st =
  match find (v2_accepts b text term (snd st)) words with
  | Some w => accept_word text w category st
  | None => st
  end.
Proof.
  destruct st as [ann used]. unfold V2.fuzzy_pass.
  induction words as [|w words IH]; [reflexivity|].
  cbn [V2.fuzzy_loop find]. unfold v2_accepts at 1.
  fold (first_occurrence text w). fold (word_span text w).
  cbn [snd].
  destruct (length w <? V2.MIN_FUZZY_LEN); [exact IH|].
  destruct (occupied used (word_span text w)); [exact IH|].
  destruct (Py.eqb _ _); [exact IH|].
  destruct (at_least_88 _); [reflexivity | exact IH].
Qed.

Lemma copy_fuzzy_pass_find b text category term (words : list str) (st : state) :
  V2Copy.fuzzy_pass b text category term words st =
  match find (copy_stops_at b text term (snd st)) words with
  | Some w =>
      if (first_occurrence text w =? -1)%Z then st
      else accept_word text w category st
  | None => st
  end.
Proof.
  destruct st as [ann used]. unfold V2Copy.fuzzy_pass.
  induction words as [|w words IH]; [reflexivity|].
  cbn [V2Copy.fuzzy_loop find]. unfold copy_stops_at at 1.
  fold (first_occurrence text w). fold (word_span text w).
  cbn [snd].
  destruct (length (V2Copy.normalize_text_for_matching w) <? 3); [exact IH|].
  destruct (Py.eqb _ _); [exact IH|].
  destruct (at_least_88 _); [|exact IH].
  cbn [negb andb].
  destruct (first_occurrence text w =? -1)%Z eqn:E.
  - cbn [orb]. now rewrite E.
  - cbn [orb]. destruct (occupied used (word_span text w)); [exact IH|].
    cbn [negb]. now rewrite E.
Qed.

Lemma v2_fuzzy_pass_adds b text category term words (st : state) :
  exists fz,
    fst (V2.fuzzy_pass b text category term words st) = fst st ++ fz /\
    length fz <= 1.
Proof.
  rewrite v2_fuzzy_pass_find.
  destruct (find _ words) as [w|].
  - exists [word_annotation text w category]. split; [reflexivity | simpl; lia].
  - exists []. split; [now rewrite app_nil_r | simpl; lia].
Qed.

Lemma copy_fuzzy_pass_adds b text category term words (st : state) :
  exists fz,
    fst (V2Copy.fuzzy_pass b text category term words st) = fst st ++ fz /\
    length fz <= 1.
Proof.
  rewrite copy_fuzzy_pass_find.
  destruct (find _ words) as [w|];
    [destruct (first_occurrence text w =? -1)%Z|].
  - exists []. split; [now rewrite app_nil_r | simpl; lia].
  - exists [word_annotation text w category]. split; [reflexivity | simpl; lia].
  - exists []. split; [now rewrite app_nil_r | simpl; lia].
Qed.

(** C7: the fuzzy pass of a term ends at the first word of the pool that
    passes the filters and scores 88 or more, and accepts that word only; so
    one term adds at most one annotation after those of its exact pass. *)
Theorem fuzzy_pass_at_most_one (b : backend) (text : str) (category : string)
  (term : str) (words_unique : list str) (st : state) :
  V2.fuzzy_pass b text category term words_unique st
  = match find (v2_accepts b text term (snd st)) words_unique with
    | Some w => accept_word text w category st
    | None => st
    end
  /\
  V2Copy.fuzzy_pass b text category term words_unique st
  = match find (copy_stops_at b text term (snd st)) words_unique with
    | Some w =>
        if (first_occurrence text w =? -1)%Z then st
        else accept_word text w category st
    | None => st
    end
  /\
  (forall pattern, exists fz,
     fst (V2.process_term b text words_unique category st (term, pattern))
     = fst (fst (V2.exact_pass text category term pattern st)) ++ fz /\
     length fz <= 1)
  /\
  (forall pattern, exists st1 matched_here st' fz,
     V2Copy.exact_pass text category term (Some pattern) st
     = V2Copy.Returned (st1, matched_here) /\
     V2Copy.process_term b text words_unique category st (term, Some pattern)
     = V2Copy.Returned st' /\
     fst st' = fst st1 ++ fz /\
     length fz <= 1).
Proof.
  split; [apply v2_fuzzy_pass_find|]. split; [apply copy_fuzzy_pass_find|].
  split.
  - intros pattern. unfold V2.process_term.
    destruct (V2.exact_pass text category term pattern st) as [st1 mh].
    destruct (negb mh && (V2.MIN_FUZZY_LEN <=? length term)).
    + apply v2_fuzzy_pass_adds.
    + exists []. split; [now rewrite app_nil_r | simpl; lia].
  - intros p.
    destruct (copy_exact_pass_shape text category term p st)
      as (new & used' & H & _).
    unfold V2Copy.process_term. rewrite H. cbn [V2Copy.bind].
    exists (fst st ++ new, used'), (negb (length new =? 0)).
    destruct (negb (negb (length new =? 0))).
    + destruct (copy_fuzzy_pass_adds b text category term words_unique
                  (fst st ++ new, used')) as (fz & Hfz & Hlen).
      eexists. exists fz. split; [reflexivity|]. split; [reflexivity|].
      split; [exact Hfz | exact Hlen].
    + eexists. exists []. split; [reflexivity|]. split; [reflexivity|].
      split; [now rewrite app_nil_r | simpl; lia].
Qed.

(** C8, as the code has it: in both files the fuzzy pass is skipped once the
    exact pass of the term has accepted a span; [annotate_doccano_v2.py] also
    skips it for a term shorter than [MIN_FUZZY_LEN]; the copy has no such
    threshold.  The flag [matched_here] is set exactly when the exact pass
    appended an annotation. *)
Theorem fuzzy_pass_gate (b : backend) (text : str) (words_unique : list str)
  (category : string) (term : str) (pattern : Re.pattern) (st : state) :
  (snd (V2.exact_pass text category term pattern st) = true
   \/ length term < V2.MIN_FUZZY_LEN ->
   V2.process_term b text words_unique category st (term, pattern)
   = fst (V2.exact_pass text category term pattern st))
  /\
  (forall r,
     V2Copy.exact_pass text category term (Some pattern) st = V2Copy.Returned r ->
     snd r = true ->
     V2Copy.process_term b text words_unique category st (term, Some pattern)
     = V2Copy.Returned (fst r))
  /\
  (snd (V2.exact_pass text category term pattern st) = true <->
   fst (fst (V2.exact_pass text category term pattern st)) <> fst st)
  /\
  (forall r,
     V2Copy.exact_pass text category term (Some pattern) st = V2Copy.Returned r ->
     (snd r = true <-> fst (fst r) <> fst st)).
Proof.
  assert (Happ : forall (l new : list annotation),
             negb (length new =? 0) = true <-> l ++ new <> l).
  { intros l new. destruct new as [|a new]; simpl.
    - rewrite app_nil_r. split; [discriminate | intros H; now elim H].
    - split; [|reflexivity]. intros _ H.
      apply (f_equal (@length annotation)) in H. rewrite length_app in H.
      simpl in H. lia. }
  split; [|split; [|split]].
  - unfold V2.process_term.
    destruct (V2.exact_pass text category term pattern st) as [st1 mh].
    cbn [fst snd]. intros [-> | Hlen]; [reflexivity|].
    apply Nat.leb_gt in Hlen. rewrite Hlen. now rewrite andb_false_r.
  - intros [st1 mh] Hr Hmh. cbn [fst snd] in *. subst mh.
    unfold V2Copy.process_term. rewrite Hr. reflexivity.
  - destruct (v2_exact_pass_shape text category term pattern st)
      as (new & used' & H & _).
    rewrite H. cbn [fst snd]. apply Happ.
  - intros r Hr.
    destruct (copy_exact_pass_shape text category term pattern st)
      as (new & used' & H & _).
    rewrite H in Hr. injection Hr as <-. cbn [fst snd]. apply Happ.
Qed.

(** ** The scenarios *)

(** C1: the occupied test looks for the start or the end of the candidate
    inside an occupied interval, so a candidate that reaches over an occupied
    interval on both sides passes it.  With "heart" in the first category and
    "acute heart failure" in the second, both files return the two spans
    [6, 11) and [0, 19), which share the indices 6 to 10. *)
Theorem containing_span_accepted :
  (forall b, V2.annotate b heart_dictionary heart_text
             = [(6, 11, "A"); (0, 19, "B")]%Z%string) /\
  (forall b, V2Copy.annotate b heart_dictionary heart_text
             = V2Copy.Returned [(6, 11, "A"); (0, 19, "B")]%Z%string) /\
  occupied [(6, 11)%Z] (0, 19)%Z = false /\
  share_index (6, 11, "A"%string)%Z (0, 19, "B"%string)%Z /\
  ~ non_overlapping [(6, 11, "A"); (0, 19, "B")]%Z%string.
Proof.
  split; [intros b; vm_compute; reflexivity|].
  split; [intros b; vm_compute; reflexivity|].
  split; [reflexivity|].
  assert (Hs : share_index (6, 11, "A"%string)%Z (0, 19, "B"%string)%Z).
  { exists 6%Z. simpl. lia. }
  split; [exact Hs|].
  intros H. apply (H 0 1 _ _ eq_refl eq_refl); [discriminate | exact Hs].
Qed.

(** C3: the exact pass tests the lemma of the matched surface, but the
    interval it accepts need not be free.  In the scenario above the term
    "heart" leaves [6, 11) occupied; when the term "acute heart failure" comes
    up, the exact pass of either file accepts its match [0, 19), whose surface
    has the lemma of the term, although the indices 6 to 10 are taken. *)
Theorem exact_pass_accepts_occupied_interval :
  (forall b,
     V2.process_term b heart_text
       (Py.fromkeys [] (Re.findall V2.word_re heart_text)) "A" ([], [])
       (lit "heart", V2.build_flexible_pattern (lit "heart"))
     = ([(6, 11, "A"%string)], [(6, 11)])%Z) /\
  (forall b,
     V2Copy.process_term b heart_text
       (Py.fromkeys [] (Re.findall V2Copy.word_re heart_text)) "A" ([], [])
       (lit "heart", Some (V2Copy.build_flexible_pattern (lit "heart")))
     = V2Copy.Returned ([(6, 11, "A"%string)], [(6, 11)])%Z) /\
  V2.exact_pass heart_text "B" (lit "acute heart failure")
    (V2.build_flexible_pattern (lit "acute heart failure"))
    ([(6, 11, "A"%string)], [(6, 11)])%Z
  = (([(6, 11, "A"); (0, 19, "B")]%string, [(0, 19); (6, 11)]), true)%Z /\
  V2Copy.exact_pass heart_text "B" (lit "acute heart failure")
    (Some (V2Copy.build_flexible_pattern (lit "acute heart failure")))
    ([(6, 11, "A"%string)], [(6, 11)])%Z
  = V2Copy.Returned
      (([(6, 11, "A"); (0, 19, "B")]%string, [(0, 19); (6, 11)]), true)%Z /\
  lightweight_lemma (Py.slice heart_text 0 19)
  = lightweight_lemma (lit "acute heart failure") /\
  share_index (6, 11, "A"%string)%Z (0, 19, "B"%string)%Z.
Proof.
  split; [intros b; vm_compute; reflexivity|].
  split; [intros b; vm_compute; reflexivity|].
  split; [vm_compute; reflexivity|].
  split; [vm_compute; reflexivity|].
  split; [vm_compute; reflexivity|].
  exists 6%Z. simpl. lia.
Qed.

(** C9: the copy does not pass over a term that is too short.  Its index is
    filled with the first [build_flexible_pattern], which builds a pattern for
    every term, so no entry holds [None] and the guard of [annotate_text] is
    never taken; the second [build_flexible_pattern], which answers [None]
    for a term of fewer than three characters, is bound too late.  The term
    "pH" is matched: the copy returns the span [4, 6) over it. *)
Theorem short_term_not_skipped :
  length (lit "pH") < 3 /\
  V2Copy.build_flexible_pattern_redefined (lit "pH") = None /\
  (forall b words_unique category st term,
     V2Copy.process_term b unit_text words_unique category st (term, None)
     = V2Copy.Returned st) /\
  (forall CATEGORIES category term_list entry,
     In (category, term_list) (V2Copy.precompile CATEGORIES) ->
     In entry term_list ->
     snd entry = Some (V2Copy.build_flexible_pattern (fst entry))) /\
  Forall (fun b =>
            V2Copy.annotate b unit_dictionary unit_text
            = V2Copy.Returned [(4, 6, "Unit"%string)]%Z)
         backends /\
  Py.slice unit_text 4 6 = lit "pH".
Proof.
  split; [vm_compute; lia|].
  split; [reflexivity|].
  split; [reflexivity|].
  split.
  - intros CATS category term_list entry Hin Hentry.
    unfold V2Copy.precompile in Hin. apply in_map_iff in Hin as ([c ts] & Heq & _).
    injection Heq as _ <-.
    apply in_map_iff in Hentry as (t & <- & _). reflexivity.
  - split; [|reflexivity]. repeat constructor; vm_compute; reflexivity.
Qed.

(** C4, as the spec has it, fails: the pattern of "fatigue" is the term
    followed by an optional suffix, "fatigued" is not "fatigue" followed by
    "ed", and the exact pass of either file finds and accepts nothing. *)
Lemma fatigued_not_an_exact_match :
  Re.finditer (V2.build_flexible_pattern (lit "fatigue")) fatigue_text = [] /\
  Re.finditer (V2Copy.build_flexible_pattern (lit "fatigue")) fatigue_text = [] /\
  V2.exact_pass fatigue_text "Symptom" (lit "fatigue")
    (V2.build_flexible_pattern (lit "fatigue")) ([], [])
  = (([], []), false) /\
  V2Copy.exact_pass fatigue_text "Symptom" (lit "fatigue")
    (Some (V2Copy.build_flexible_pattern (lit "fatigue"))) ([], [])
  = V2Copy.Returned (([], []), false).
Proof. repeat split. Qed.

(** C4, as the code has it: both files, with either backend, return the one
    span [18, 26) labelled Symptom, which covers "fatigued"; it is the fuzzy
    pass that accepts it, as the word of the pool that scores 88 or more
    against "fatigue". *)
Theorem fatigued_accepted_by_fuzzy_pass :
  Forall (fun b =>
            V2.annotate b fatigue_dictionary fatigue_text
            = [(18, 26, "Symptom")]%Z%string /\
            V2Copy.annotate b fatigue_dictionary fatigue_text
            = V2Copy.Returned [(18, 26, "Symptom")]%Z%string /\
            V2.fuzzy_pass b fatigue_text "Symptom" (lit "fatigue")
              (Py.fromkeys [] (Re.findall V2.word_re fatigue_text)) ([], [])
            = accept_word fatigue_text (lit "fatigued") "Symptom" ([], []) /\
            V2Copy.fuzzy_pass b fatigue_text "Symptom" (lit "fatigue")
              (Py.fromkeys [] (Re.findall V2Copy.word_re fatigue_text)) ([], [])
            = accept_word fatigue_text (lit "fatigued") "Symptom" ([], []))
         backends /\
  word_annotation fatigue_text (lit "fatigued") "Symptom"
  = (18, 26, "Symptom"%string)%Z /\
  Py.slice fatigue_text 18 26 = lit "fatigued".
Proof.
  split; [|split; reflexivity].
  repeat constructor; vm_compute; reflexivity.
Qed.

(** C5: "note" is on the exclusion list of the copy, and its pattern, which
    has no suffix group, finds nothing in the text; but the fuzzy pass of the
    copy runs for every term without an exact match, "notes" has the lemma
    "not" and not "note", and it scores 800/9 against "note": the copy
    returns the span [8, 13) over "notes". *)
Theorem generic_note_matches_notes :
  existsb (Py.eqb (Py.lower (lit "note"))) V2Copy.EXCLUDE_SUFFIX_TERMS = true /\
  Re.finditer (V2Copy.build_flexible_pattern (lit "note")) note_text = [] /\
  lightweight_lemma (lit "notes") = lit "not" /\
  (fuzzy_similarity (lit "notes") (lit "note") == 800 # 9)%Q /\
  Py.slice note_text 8 13 = lit "notes" /\
  Forall (fun b =>
            V2Copy.annotate b note_dictionary note_text
            = V2Copy.Returned [(8, 13, "Process")]%Z%string)
         backends.
Proof.
  repeat split. repeat constructor; vm_compute; reflexivity.
Qed.

(** C8, as the spec has it, fails for the copy: "note" has four characters,
    fewer than the [MIN_FUZZY_LEN] of [annotate_doccano_v2.py], its exact pass
    accepts nothing, and its fuzzy pass adds a span. *)
Lemma copy_fuzzy_pass_has_no_threshold :
  length (lit "note") < V2.MIN_FUZZY_LEN /\
  V2Copy.exact_pass note_text "Process" (lit "note")
    (Some (V2Copy.build_flexible_pattern (lit "note"))) ([], [])
  = V2Copy.Returned (([], []), false) /\
  V2Copy.process_term without_rapidfuzz note_text
    (Py.fromkeys [] (Re.findall V2Copy.word_re note_text)) "Process" ([], [])
    (lit "note", Some (V2Copy.build_flexible_pattern (lit "note")))
  = V2Copy.Returned ([(8, 13, "Process"%string)], [(8, 13)])%Z /\
  V2.annotate without_rapidfuzz note_dictionary note_text = [].
Proof.
  split; [vm_compute; lia|]. repeat split.
Qed.

(** The gate of [annotate_doccano_v2.py] at a term below the threshold. *)
Lemma fuzzy_pass_gate_witness :
  V2.process_term without_rapidfuzz note_text
    (Py.fromkeys [] (Re.findall V2.word_re note_text)) "Process" ([], [])
    (lit "note", V2.build_flexible_pattern (lit "note"))
  = fst (V2.exact_pass note_text "Process" (lit "note")
           (V2.build_flexible_pattern (lit "note")) ([], [])).
Proof.
  apply (proj1 (fuzzy_pass_gate without_rapidfuzz note_text
                  (Py.fromkeys [] (Re.findall V2.word_re note_text)) "Process"
                  (lit "note") (V2.build_flexible_pattern (lit "note")) ([], []))).
  right. vm_compute. lia.
Defined.

(** * Further properties *)

(** ** The matcher *)

(** A repetition that succeeds has consumed characters of its class, at
    least [min] of them, and handed the rest to what follows. *)
Lemma rep_greedy_reaches (cls : Re.charclass) (s : str) :
  forall min prev n k e,
  Re.rep_greedy cls min prev s n k = Some e ->
  exists p' m,
    min <= m <= length s /\
    forallb (Re.in_class cls) (firstn m s) = true /\
    k p' (skipn m s) (n + m) = Some e.
Proof.
  induction s as [|c s IH]; intros min prev n k e H; simpl in H.
  - destruct (Nat.eqb_spec min 0) as [->|]; [|discriminate].
    exists prev, 0. rewrite Nat.add_0_r. simpl. repeat split; auto.
  - assert (Hstop : (if min =? 0 then k prev (c :: s) n else None) = Some e ->
                    exists p' m,
                      min <= m <= length (c :: s) /\
                      forallb (Re.in_class cls) (firstn m (c :: s)) = true /\
                      k p' (skipn m (c :: s)) (n + m) = Some e).
    { destruct (Nat.eqb_spec min 0) as [->|]; [|discriminate]. intros Hk.
      exists prev, 0. rewrite Nat.add_0_r. simpl. repeat split; auto. lia. }
    destruct (Re.in_class cls c) eqn:Ec; [|exact (Hstop H)].
    destruct (Re.rep_greedy cls (pred min) (Some c) s (S n) k) as [e'|] eqn:Er;
      [|exact (Hstop H)].
    injection H as <-. apply IH in Er as (p' & m & Hm & Hall & Hk).
    exists p', (S m). simpl. rewrite Ec, Hall.
    replace (n + S m) with (S n + m) by lia. repeat split; auto; lia.
Qed.

(** A pattern that succeeds has consumed a prefix of the text and handed the
    rest to what follows. *)
Lemma run_reaches (ic : bool) (r : Re.regex) :
  forall prev s n k e,
  Re.run ic r prev s n k = Some e ->
  exists p' m, m <= length s /\ k p' (skipn m s) (n + m) = Some e.
Proof.
  induction r as [|a|r1 IH1 r2 IH2|r1 IH1 r2 IH2|r1 IH1|cls min|cls|cls|];
    intros prev s n k e H; simpl in H.
  - exists prev, 0. rewrite Nat.add_0_r. split; [lia | exact H].
  - destruct s as [|c s]; [discriminate|].
    destruct (Re.chr_eq ic a c); [|discriminate].
    exists (Some c), 1. simpl. replace (n + 1) with (S n) by lia.
    split; [lia | exact H].
  - apply IH1 in H as (p1 & m1 & Hm1 & H).
    apply IH2 in H as (p2 & m2 & Hm2 & H).
    rewrite length_skipn in Hm2. rewrite skipn_skipn in H.
    exists p2, (m2 + m1). split; [lia|].
    now replace (n + (m2 + m1)) with (n + m1 + m2) by lia.
  - destruct (Re.run ic r1 prev s n k) as [e'|] eqn:E1.
    + injection H as <-. now apply IH1 in E1.
    + now apply IH2 in H.
  - destruct (Re.run ic r1 prev s n k) as [e'|] eqn:E1.
    + injection H as <-. now apply IH1 in E1.
    + exists prev, 0. rewrite Nat.add_0_r. split; [lia | exact H].
  - apply rep_greedy_reaches in H as (p' & m & Hm & _ & H).
    exists p', m. split; [lia | exact H].
  - assert (Hk : k prev s n = Some e)
      by (destruct prev as [c|]; [destruct (Re.in_class cls c); [discriminate|]|];
          exact H).
    exists prev, 0. rewrite Nat.add_0_r. split; [lia | exact Hk].
  - assert (Hk : k prev s n = Some e)
      by (destruct s as [|c s']; [|destruct (Re.in_class cls c); [discriminate|]];
          exact H).
    exists prev, 0. rewrite Nat.add_0_r. split; [lia | exact Hk].
  - destruct (xorb _ _); [|discriminate].
    exists prev, 0. rewrite Nat.add_0_r. split; [lia | exact H].
Qed.

(** A match never runs past the end of the text. *)
Lemma match_at_le (p : Re.pattern) prev (s : str) adv (n : nat) :
  Re.match_at p prev s adv = Some n -> n <= length s.
Proof.
  unfold Re.match_at. intros H. apply run_reaches in H as (p' & m & Hm & H).
  simpl in H. destruct (adv && (m =? 0)); [discriminate|]. injection H as <-.
  exact Hm.
Qed.

Lemma attempt_matches (p : Re.pattern) prev (s : str) (n : nat) :
  In n (Re.attempt p prev s) -> exists adv, Re.match_at p prev s adv = Some n.
Proof.
  unfold Re.attempt.
  destruct (Re.match_at p prev s false) as [[|n0]|] eqn:E0; simpl.
  - intros [<- | H]; [now exists false|].
    destruct (Re.match_at p prev s true) as [n1|] eqn:E1; [|destruct H].
    destruct H as [<- | []]. now exists true.
  - intros [<- | []]. now exists false.
  - intros [].
Qed.

(** The character before offset [k] of [s], [prev] standing before [s]. *)
Lemma nth_error_skipn_hd {A : Type} (k : nat) :
  forall s : list A, hd_error (skipn k s) = nth_error s k.
Proof.
  induction k as [|k IH]; intros [|c s]; simpl; auto.
Qed.

(** Every match the scanner yields was found by [match_at] at its start,
    with the character before the start as context. *)
Lemma finditer_from_matches (p : Re.pattern) (s : str) :
  forall prev pos skip m,
  In m (Re.finditer_from p prev s pos skip) ->
  exists k n adv,
    k <= length s /\
    Re.m_start m = (pos + Z.of_nat k)%Z /\
    Re.m_end m = (Re.m_start m + Z.of_nat n)%Z /\
    Re.group0 m = firstn n (skipn k s) /\
    Re.match_at p (match k with 0 => prev | S k' => nth_error s k' end)
      (skipn k s) adv = Some n.
Proof.
  induction s as [|c s IH]; intros prev pos skip m Hin.
  - destruct skip; [|destruct Hin]. simpl in Hin. rewrite app_nil_r in Hin.
    apply in_map_iff in Hin as (n & <- & Hn).
    apply attempt_matches in Hn as [adv Hn].
    exists 0, n, adv. simpl. rewrite Z.add_0_r. repeat split; auto.
  - assert (Hrec : forall skip',
               In m (Re.finditer_from p (Some c) s (pos + 1)%Z skip') ->
               exists k n adv,
                 k <= length (c :: s) /\
                 Re.m_start m = (pos + Z.of_nat k)%Z /\
                 Re.m_end m = (Re.m_start m + Z.of_nat n)%Z /\
                 Re.group0 m = firstn n (skipn k (c :: s)) /\
                 Re.match_at p (match k with 0 => prev
                                        | S k' => nth_error (c :: s) k' end)
                   (skipn k (c :: s)) adv = Some n).
    { intros skip' H. apply IH in H as (k & n & adv & Hk & H1 & H2 & H3 & H4).
      exists (S k), n, adv. simpl length. split; [lia|]. split; [lia|].
      split; [exact H2|]. split; [exact H3|].
      simpl skipn. destruct k; exact H4. }
    destruct skip as [|skip]; cbn [Re.finditer_from] in Hin.
    + apply in_app_or in Hin as [Hin | Hin]; [|exact (Hrec _ Hin)].
      apply in_map_iff in Hin as (n & <- & Hn).
      apply attempt_matches in Hn as [adv Hn].
      exists 0, n, adv. simpl. rewrite Z.add_0_r. repeat split; auto. lia.
    + exact (Hrec _ Hin).
Qed.

Lemma finditer_matches (p : Re.pattern) (text : str) (m : Re.Match) :
  In m (Re.finditer p text) ->
  exists k n adv,
    k <= length text /\
    Re.m_start m = Z.of_nat k /\
    Re.m_end m = Z.of_nat (k + n) /\
    Re.group0 m = firstn n (skipn k text) /\
    n <= length text - k /\
    Re.match_at p (match k with 0 => None | S k' => nth_error text k' end)
      (skipn k text) adv = Some n.
Proof.
  intros Hin. apply finditer_from_matches in Hin
    as (k & n & adv & Hk & H1 & H2 & H3 & H4).
  exists k, n, adv. pose proof (match_at_le _ _ _ _ _ H4) as Hn.
  rewrite length_skipn in Hn. repeat split; auto; lia.
Qed.

Lemma finditer_within (p : Re.pattern) (text : str) (m : Re.Match) :
  In m (Re.finditer p text) -> match_within text m.
Proof.
  intros Hin. apply finditer_matches in Hin
    as (k & n & adv & Hk & H1 & H2 & _ & Hn & _).
  unfold match_within, Py.len. lia.
Qed.

Lemma char_at_before (text : str) (k : nat) :
  char_at text (Z.of_nat k - 1)
  = match k with 0 => None | S k' => nth_error text k' end.
Proof.
  unfold char_at. destruct k as [|k'].
  - reflexivity.
  - destruct (Z.ltb_spec (Z.of_nat (S k') - 1) 0); [lia|].
    f_equal. lia.
Qed.

Lemma char_at_after (text : str) (k n : nat) :
  char_at text (Z.of_nat (k + n)) = hd_error (skipn n (skipn k text)).
Proof.
  unfold char_at. destruct (Z.ltb_spec (Z.of_nat (k + n)) 0); [lia|].
  rewrite Nat2Z.id, skipn_skipn, nth_error_skipn_hd. f_equal. lia.
Qed.

(** A pattern between [(?<!\w)] and [(?!\w)] matches whole words only. *)
Lemma guarded_match (ic : bool) (body : Re.regex) prev (s : str) adv (n : nat) :
  Re.match_at
    (Re.compile (Re.Cat (Re.NotBehind Re.Word) (Re.Cat body (Re.NotAhead Re.Word)))
                ic) prev s adv = Some n ->
  Re.word_at prev = false /\ Re.word_at (hd_error (skipn n s)) = false.
Proof.
  unfold Re.match_at. cbn [Re.source Re.ignorecase Re.run]. intros H.
  assert (Hp : Re.word_at prev = false /\
               Re.run ic body prev s 0
                 (fun p s' n' =>
                    match s' with
                    | c :: _ =>
                        if Re.in_class Re.Word c then None
                        else if adv && (n' =? 0) then None else Some n'
                    | [] => if adv && (n' =? 0) then None else Some n'
                    end) = Some n).
  { destruct prev as [c|]; [|now split]. simpl in H |- *.
    destruct (Py.isword c); [discriminate | now split]. }
  destruct Hp as [Hp Hrun]. split; [exact Hp|].
  apply run_reaches in Hrun as (p' & m & _ & Hk). simpl in Hk.
  destruct (skipn m s) as [|c r] eqn:Es.
  - destruct (adv && (m =? 0)); [discriminate|]. injection Hk as <-.
    now rewrite Es.
  - simpl in Hk. destruct (Py.isword c) eqn:Ew; [discriminate|].
    destruct (adv && (m =? 0)); [discriminate|]. injection Hk as <-.
    rewrite Es. exact Ew.
Qed.

Lemma guarded_finditer (p : Re.pattern) (text : str) :
  (forall prev s adv n,
     Re.match_at p prev s adv = Some n ->
     Re.word_at prev = false /\ Re.word_at (hd_error (skipn n s)) = false) ->
  Forall (whole_word text) (Re.finditer p text).
Proof.
  intros Hg. apply Forall_forall. intros m Hin.
  apply finditer_matches in Hin as (k & n & adv & _ & H1 & H2 & _ & _ & Hm).
  apply Hg in Hm as [Hb Ha].
  unfold whole_word. rewrite H1, H2, char_at_before, char_at_after.
  now split.
Qed.

(** Every pattern the two files build is of that form. *)
Lemma v2_pattern_guarded (term : str) prev (s : str) adv (n : nat) :
  Re.match_at (V2.build_flexible_pattern term) prev s adv = Some n ->
  Re.word_at prev = false /\ Re.word_at (hd_error (skipn n s)) = false.
Proof.
  unfold V2.build_flexible_pattern. destruct (length term <? 6); intros H.
  - exact (guarded_match _ _ _ _ _ _ H).
  - exact (guarded_match true (Re.Cat _ suffix_group) _ _ _ _ H).
Qed.

Lemma copy_pattern_guarded (term : str) prev (s : str) adv (n : nat) :
  Re.match_at (V2Copy.build_flexible_pattern term) prev s adv = Some n ->
  Re.word_at prev = false /\ Re.word_at (hd_error (skipn n s)) = false.
Proof.
  unfold V2Copy.build_flexible_pattern.
  destruct (existsb _ V2Copy.EXCLUDE_SUFFIX_TERMS); intros H.
  - exact (guarded_match _ _ _ _ _ _ H).
  - exact (guarded_match true (Re.Cat (V2Copy.base_or_lemma term) suffix_group)
             prev s adv n H).
Qed.

Lemma copy_redefined_pattern_guarded (term : str) (p : Re.pattern)
  prev (s : str) adv (n : nat) :
  V2Copy.build_flexible_pattern_redefined term = Some p ->
  Re.match_at p prev s adv = Some n ->
  Re.word_at prev = false /\ Re.word_at (hd_error (skipn n s)) = false.
Proof.
  unfold V2Copy.build_flexible_pattern_redefined.
  destruct (length term <? 3); [discriminate|]. intros [= <-] H.
  exact (guarded_match true (Re.Cat (V2Copy.base_or_lemma term) suffix_group)
           prev s adv n H).
Qed.

(** X1: every match of a pattern built for a term, in either file, lies
    inside the text and stands between two characters that are not word
    characters (or ends of the text): a term is never found inside a longer
    word. *)
Theorem built_patterns_match_whole_words (term text : str) :
  Forall (fun m => whole_word text m /\ match_within text m)
         (Re.finditer (V2.build_flexible_pattern term) text) /\
  Forall (fun m => whole_word text m /\ match_within text m)
         (Re.finditer (V2Copy.build_flexible_pattern term) text) /\
  (forall p, V2Copy.build_flexible_pattern_redefined term = Some p ->
             Forall (fun m => whole_word text m /\ match_within text m)
                    (Re.finditer p text)).
Proof.
  assert (Hw : forall p, Forall (match_within text) (Re.finditer p text)).
  { intros p. apply Forall_forall. intros m. apply finditer_within. }
  assert (Hboth : forall p, Forall (whole_word text) (Re.finditer p text) ->
                  Forall (fun m => whole_word text m /\ match_within text m)
                         (Re.finditer p text)).
  { intros p H. specialize (Hw p). rewrite Forall_forall in *.
    intros m Hm. split; auto. }
  split; [|split].
  - apply Hboth, guarded_finditer, v2_pattern_guarded.
  - apply Hboth, guarded_finditer, copy_pattern_guarded.
  - intros p Hp. apply Hboth, guarded_finditer. intros prev s adv n.
    exact (copy_redefined_pattern_guarded term p prev s adv n Hp).
Qed.

(** ** How the state of [annotate_text] moves *)

Lemma grows_trans (P : annotation -> Prop) (st1 st2 st3 : state) :
  grows P st1 st2 -> grows P st2 st3 -> grows P st1 st3.
Proof.
  intros H12 H23. induction H12 as [st | st a st' Pa Ho H IH]; [exact H23|].
  exact (grows_step P st a st3 Pa Ho (IH H23)).
Qed.

Lemma grows_impl (P Q : annotation -> Prop) (st st' : state) :
  (forall a, P a -> Q a) -> grows P st st' -> grows Q st st'.
Proof.
  intros HPQ H. induction H as [st | st a st' Pa Ho H IH]; [constructor|].
  exact (grows_step Q st a st' (HPQ a Pa) Ho IH).
Qed.

Lemma grows_one (P : annotation -> Prop) (st : state) (a : annotation) :
  P a -> occupied (snd st) (span_of a) = false ->
  grows P st (fst st ++ [a], span_of a :: snd st).
Proof. intros Pa Ho. exact (grows_step P st a _ Pa Ho (grows_refl P _)). Qed.

Section ExactGrows.
Variable category : string.
Variable step : state * bool -> Re.Match -> state * bool.
Variable Pm : Re.Match -> Prop.

Hypothesis step_cases : forall ann used mh m,
  step (ann, used, mh) m = (ann, used, mh) \/
  (step (ann, used, mh) m
   = (ann ++ [(Re.m_start m, Re.m_end m, category)],
      (Re.m_start m, Re.m_end m) :: used, true) /\
   occupied used (Re.m_start m, Re.m_end m) = false /\
   Pm m).

Lemma exact_fold_grows (found : list Re.Match) :
  forall ann used mh,
  grows (fun a => exists m, In m found /\
                            a = (Re.m_start m, Re.m_end m, category) /\ Pm m)
        (ann, used) (fst (fold_left step found (ann, used, mh))).
Proof.
  induction found as [|m found IH]; intros ann used mh; simpl; [constructor|].
  assert (Hweak : forall st st',
             grows (fun a => exists m', In m' found /\
                       a = (Re.m_start m', Re.m_end m', category) /\ Pm m') st st' ->
             grows (fun a => exists m', In m' (m :: found) /\
                       a = (Re.m_start m', Re.m_end m', category) /\ Pm m') st st').
  { intros st st'. apply grows_impl. intros a (m' & Hin & Ha & Hp).
    exists m'. split; [now right | now split]. }
  destruct (step_cases ann used mh m) as [-> | (-> & Hocc & Hp)].
  - apply Hweak, IH.
  - eapply grows_step with (a := (Re.m_start m, Re.m_end m, category)).
    + exists m. split; [now left | now split].
    + exact Hocc.
    + apply Hweak, IH.
Qed.

End ExactGrows.

Lemma v2_exact_step_lower (category : string) (original_term : str) :
  forall ann used mh m,
  V2.exact_step category original_term (ann, used, mh) m = (ann, used, mh) \/
  (V2.exact_step category original_term (ann, used, mh) m
   = (ann ++ [(Re.m_start m, Re.m_end m, category)],
      (Re.m_start m, Re.m_end m) :: used, true) /\
   occupied used (Re.m_start m, Re.m_end m) = false /\
   Py.lower (Re.group0 m) = Py.lower original_term).
Proof.
  intros ann used mh m. unfold V2.exact_step.
  destruct (occupied used (Re.m_start m, Re.m_end m)) eqn:Ho; [now left|].
  destruct (Py.eqb (Py.lower (Re.group0 m)) (Py.lower original_term)) eqn:Ht;
    [|now left].
  right. repeat split. now apply str_eqb_eq.
Qed.

Lemma v2_exact_pass_grows text category term pattern (st : state) :
  grows (fun a => exists m, In m (Re.finditer pattern text) /\
                            a = (Re.m_start m, Re.m_end m, category) /\
                            Py.lower (Re.group0 m) = Py.lower term)
        st (fst (V2.exact_pass text category term pattern st)).
Proof.
  destruct st as [ann used]. unfold V2.exact_pass.
  exact (exact_fold_grows category _ _ (v2_exact_step_lower category term)
           (Re.finditer pattern text) ann used false).
Qed.

Lemma copy_exact_pass_grows text category term pattern (st : state) :
  exists r,
    V2Copy.exact_pass text category term (Some pattern) st = V2Copy.Returned r /\
    grows (fun a => exists m, In m (Re.finditer pattern text) /\
                              a = (Re.m_start m, Re.m_end m, category) /\
                              lightweight_lemma (Re.group0 m)
                              = lightweight_lemma term)
          st (fst r).
Proof.
  destruct st as [ann used]. unfold V2Copy.exact_pass. simpl.
  eexists. split; [reflexivity|].
  exact (exact_fold_grows category _ _ (copy_exact_step_cases category term)
           (Re.finditer pattern text) ann used false).
Qed.

Lemma v2_fuzzy_pass_grows b text category term words (st : state) :
  grows (fun a => exists w, In w words /\ a = word_annotation text w category)
        st (V2.fuzzy_pass b text category term words st).
Proof.
  rewrite v2_fuzzy_pass_find.
  destruct (find _ words) as [w|] eqn:E; [|constructor].
  apply find_some in E as [Hin Hacc]. unfold v2_accepts in Hacc.
  apply andb_true_iff in Hacc as [Hacc _].
  apply andb_true_iff in Hacc as [Hacc _].
  apply andb_true_iff in Hacc as [_ Hocc].
  apply negb_true_iff in Hocc.
  apply (grows_one _ st (word_annotation text w category)); [|exact Hocc].
  now exists w.
Qed.

Lemma copy_fuzzy_pass_grows b text category term words (st : state) :
  grows (fun a => exists w, In w words /\ a = word_annotation text w category /\
                            first_occurrence text w <> (-1)%Z)
        st (V2Copy.fuzzy_pass b text category term words st).
Proof.
  rewrite copy_fuzzy_pass_find.
  destruct (find _ words) as [w|] eqn:E; [|constructor].
  destruct (Z.eqb_spec (first_occurrence text w) (-1)) as [|Hidx]; [constructor|].
  apply find_some in E as [Hin Hacc]. unfold copy_stops_at in Hacc.
  apply andb_true_iff in Hacc as [_ Hocc].
  apply orb_true_iff in Hocc as [Hocc | Hocc];
    [apply Z.eqb_eq in Hocc; contradiction|].
  apply negb_true_iff in Hocc.
  apply (grows_one _ st (word_annotation text w category)); [|exact Hocc].
  now exists w.
Qed.

Lemma v2_process_term_grows b text words category (st : state)
  (entry : str * Re.pattern) :
  (forall w, In w words -> first_occurrence text w <> (-1)%Z) ->
  grows (fun a => snd a = category /\
                  (exact_origin text a \/ fuzzy_origin text a))
        st (V2.process_term b text words category st entry).
Proof.
  intros Hwords. destruct entry as [term pattern]. unfold V2.process_term.
  pose proof (v2_exact_pass_grows text category term pattern st) as He.
  destruct (V2.exact_pass text category term pattern st) as [st1 mh].
  cbn [fst] in He.
  assert (He' : grows (fun a => snd a = category /\
                         (exact_origin text a \/ fuzzy_origin text a)) st st1).
  { eapply grows_impl; [|exact He]. intros a (m & Hin & -> & _).
    split; [reflexivity|]. left. now exists pattern, m. }
  destruct (negb mh && (V2.MIN_FUZZY_LEN <=? length term)); [|exact He'].
  eapply grows_trans; [exact He'|].
  eapply grows_impl; [|apply v2_fuzzy_pass_grows].
  intros a (w & Hin & ->). split; [reflexivity|]. right.
  exists w. split; [reflexivity | now apply Hwords].
Qed.

Lemma copy_process_term_grows b text words category (st : state)
  (entry : str * option Re.pattern) :
  exists st',
    V2Copy.process_term b text words category st entry = V2Copy.Returned st' /\
    grows (fun a => snd a = category /\
                    (exact_origin text a \/ fuzzy_origin text a)) st st'.
Proof.
  destruct entry as [term [pattern|]]; unfold V2Copy.process_term.
  - destruct (copy_exact_pass_grows text category term pattern st)
      as ([st1 mh] & -> & He). cbn [V2Copy.bind fst] in *.
    assert (He' : grows (fun a => snd a = category /\
                           (exact_origin text a \/ fuzzy_origin text a)) st st1).
    { eapply grows_impl; [|exact He]. intros a (m & Hin & -> & _).
      split; [reflexivity|]. left. now exists pattern, m. }
    destruct (negb mh); eexists; (split; [reflexivity|]); [|exact He'].
    eapply grows_trans; [exact He'|].
    eapply grows_impl; [|apply copy_fuzzy_pass_grows].
    intros a (w & Hin & -> & Hidx). split; [reflexivity|]. right. now exists w.
  - exists st. split; [reflexivity | constructor].
Qed.

Lemma fold_left_grows {A : Type} (P : annotation -> Prop)
  (f : state -> A -> state) (items : list A) :
  (forall st x, In x items -> grows P st (f st x)) ->
  forall st, grows P st (fold_left f items st).
Proof.
  induction items as [|x items IH]; intros Hf st; simpl; [constructor|].
  eapply grows_trans; [apply Hf; now left|].
  apply IH. intros st' y Hy. apply Hf. now right.
Qed.

Lemma for_each_grows {A : Type} (P : annotation -> Prop)
  (body : state -> A -> V2Copy.outcome state) (items : list A) :
  (forall st x, In x items ->
     exists st', body st x = V2Copy.Returned st' /\ grows P st st') ->
  forall st, exists st',
    V2Copy.for_each body items st = V2Copy.Returned st' /\ grows P st st'.
Proof.
  induction items as [|x items IH]; intros Hb st; simpl.
  - exists st. split; [reflexivity | constructor].
  - destruct (Hb st x (or_introl eq_refl)) as (st1 & -> & H1). simpl.
    destruct (IH (fun st' y Hy => Hb st' y (or_intror Hy)) st1) as (st2 & -> & H2).
    exists st2. split; [reflexivity|]. exact (grows_trans _ _ _ _ H1 H2).
Qed.

(** ** The words of the pool occur in the text *)

Lemma startswith_firstn (hay : str) :
  forall n, Py.startswith hay (firstn n hay) = true.
Proof.
  induction hay as [|c hay IH]; intros [|n]; simpl; auto.
  now rewrite Ascii.eqb_refl, IH.
Qed.

Lemma startswith_length (hay needle : str) :
  Py.startswith hay needle = true -> length needle <= length hay.
Proof.
  revert hay; induction needle as [|p needle IH]; intros [|c hay] H; simpl in *;
    try lia; try discriminate.
  apply andb_true_iff in H as [_ H]. apply IH in H. lia.
Qed.

Lemma find_from_occurs (hay : str) :
  forall k n off,
  (0 <= off)%Z -> Py.find_from hay (firstn n (skipn k hay)) off <> (-1)%Z.
Proof.
  induction hay as [|c hay IH]; intros k n off Hoff.
  - rewrite skipn_nil, firstn_nil. simpl. lia.
  - cbn [Py.find_from].
    destruct (Py.startswith (c :: hay) (firstn n (skipn k (c :: hay)))) eqn:E;
      [lia|].
    destruct k as [|k].
    + simpl skipn in E. now rewrite startswith_firstn in E.
    + simpl skipn. apply IH. lia.
Qed.

Lemma find_from_found (hay needle : str) :
  forall off,
  (0 <= off)%Z -> Py.find_from hay needle off <> (-1)%Z ->
  (off <= Py.find_from hay needle off)%Z /\
  (Py.find_from hay needle off - off + Py.len needle <= Py.len hay)%Z.
Proof.
  unfold Py.len. induction hay as [|c hay IH]; intros off Hoff Hr.
  - cbn [Py.find_from] in *. destruct (Py.startswith [] needle) eqn:E;
      [|now elim Hr].
    apply startswith_length in E. simpl in *. lia.
  - cbn [Py.find_from] in *. destruct (Py.startswith (c :: hay) needle) eqn:E.
    + apply startswith_length in E. simpl in *. lia.
    + destruct (IH (off + 1)%Z) as [H1 H2]; [lia | exact Hr |].
      simpl length. lia.
Qed.

Lemma fromkeys_in (words : list str) :
  forall seen w, In w (Py.fromkeys seen words) -> In w words.
Proof.
  induction words as [|x words IH]; intros seen w H; simpl in *; [exact H|].
  destruct (existsb (Py.eqb x) seen).
  - right. exact (IH _ _ H).
  - destruct H as [<- | H]; [now left | right; exact (IH _ _ H)].
Qed.

Lemma lower_firstn_skipn (text : str) (k n : nat) :
  Py.lower (firstn n (skipn k text)) = firstn n (skipn k (Py.lower text)).
Proof. unfold Py.lower. now rewrite skipn_map, firstn_map. Qed.

(** A word that some pattern matched in the text is found by [find]. *)
Lemma found_word_occurs (p : Re.pattern) (text w : str) :
  In w (Py.fromkeys [] (Re.findall p text)) ->
  first_occurrence text w <> (-1)%Z.
Proof.
  intros H. apply fromkeys_in in H. unfold Re.findall in H.
  apply in_map_iff in H as (m & <- & Hm).
  apply finditer_matches in Hm as (k & n & adv & _ & _ & _ & -> & _ & _).
  unfold first_occurrence, Py.find. rewrite lower_firstn_skipn.
  apply find_from_occurs. lia.
Qed.

Lemma word_annotation_within (text w : str) (category : string) :
  first_occurrence text w <> (-1)%Z ->
  within_text text (word_annotation text w category).
Proof.
  unfold within_text, word_annotation, span_of, first_occurrence, Py.find.
  intros H. cbn [fst snd].
  destruct (find_from_found (Py.lower text) (Py.lower w) 0%Z) as [H1 H2];
    [lia | exact H |].
  unfold Py.len in *. rewrite !lower_length in H2. lia.
Qed.

Lemma v2_annotate_grows b PRECOMPILED text :
  exists st : state,
    V2.annotate_text b PRECOMPILED text = fst st /\
    grows (fun a => In (snd a) (map fst PRECOMPILED) /\
                    (exact_origin text a \/ fuzzy_origin text a))
          ([], []) st.
Proof.
  unfold V2.annotate_text. eexists. split; [reflexivity|].
  apply fold_left_grows. intros st [category term_list] Hin.
  apply fold_left_grows. intros st' entry _.
  eapply grows_impl; [|apply v2_process_term_grows].
  - intros a [Hc Ho]. split; [|exact Ho].
    apply in_map_iff. exists (category, term_list). split; [now rewrite Hc|].
    exact Hin.
  - intros w. apply found_word_occurs.
Qed.

Lemma copy_annotate_grows b PRECOMPILED text :
  exists st : state,
    V2Copy.annotate_text b PRECOMPILED text = V2Copy.Returned (fst st) /\
    grows (fun a => In (snd a) (map fst PRECOMPILED) /\
                    (exact_origin text a \/ fuzzy_origin text a))
          ([], []) st.
Proof.
  unfold V2Copy.annotate_text.
  match goal with
  | |- context [V2Copy.for_each ?body PRECOMPILED ?st0] =>
      destruct (for_each_grows
                  (fun a => In (snd a) (map fst PRECOMPILED) /\
                            (exact_origin text a \/ fuzzy_origin text a))
                  body PRECOMPILED) with (st := st0) as (st' & -> & Hg)
  end.
  - intros st [category term_list] Hin.
    apply for_each_grows. intros st1 entry _.
    destruct (copy_process_term_grows b text
                (Py.fromkeys [] (Re.findall V2Copy.word_re text))
                category st1 entry) as (st2 & Hr & Hg).
    exists st2. split; [exact Hr|].
    eapply grows_impl; [|exact Hg].
    intros a [Hc Ho]. split; [|exact Ho].
    apply in_map_iff. exists (category, term_list). split; [now rewrite Hc|].
    exact Hin.
  - exists st'. split; [reflexivity | exact Hg].
Qed.

Lemma grows_all (P : annotation -> Prop) (st st' : state) :
  grows P st st' -> Forall P (fst st) -> Forall P (fst st').
Proof.
  intros H. induction H as [st | st a st' Pa Ho H IH]; [auto|].
  intros Hall. apply IH. cbn [fst]. apply Forall_app. split; [exact Hall|].
  now constructor.
Qed.

(** ** What the occupied test does keep apart *)

Lemma occupied_reaches (used : list span) (x u : span) :
  occupied used x = false -> In u used ->
  (exists i : Z, (fst u <= i < snd u)%Z /\ (fst x <= i < snd x)%Z) ->
  (fst x < fst u)%Z /\ (snd u < snd x)%Z.
Proof.
  induction used as [|v used IH]; intros Ho Hin Hi; [destruct Hin|].
  simpl in Ho. apply orb_false_iff in Ho as [Hv Ho].
  destruct Hin as [-> | Hin]; [|exact (IH Ho Hin Hi)].
  destruct u as [s e], x as [a b]. cbn [fst snd] in *.
  destruct Hi as (i & Hu & Hx).
  apply orb_false_iff in Hv as [H1 H2].
  apply andb_false_iff in H1, H2.
  rewrite Z.leb_gt, Z.ltb_ge in H1. rewrite Z.ltb_ge, Z.leb_gt in H2. lia.
Qed.

Lemma grows_keeps_order (P : annotation -> Prop) (st st' : state) :
  grows P st st' ->
  (forall x, In x (fst st) -> In (span_of x) (snd st)) /\ accepted_order (fst st) ->
  (forall x, In x (fst st') -> In (span_of x) (snd st')) /\ accepted_order (fst st').
Proof.
  intros H. induction H as [st | st a st' Pa Ho H IH]; [auto|].
  intros [Hmem Hord]. apply IH. cbn [fst snd]. split.
  - intros x Hx. apply in_app_or in Hx as [Hx | [<- | []]];
      [right; now apply Hmem | now left].
  - intros i j x y Hij Hi Hj Hshare.
    destruct (Nat.lt_ge_cases j (length (fst st))) as [Hj' | Hj'].
    + rewrite nth_error_app1 in Hi, Hj by lia.
      exact (Hord i j x y Hij Hi Hj Hshare).
    + rewrite nth_error_app2 in Hj by lia.
      destruct (j - length (fst st)) as [|d] eqn:Ed;
        [|destruct d; discriminate].
      injection Hj as <-.
      rewrite nth_error_app1 in Hi by lia. apply nth_error_In in Hi.
      destruct Hshare as (z & Hx & Ha).
      destruct (occupied_reaches (snd st) (span_of a) (span_of x) Ho (Hmem x Hi))
        as [H1 H2]; [now exists z|].
      split; assumption.
Qed.

Lemma accepted_order_nil : accepted_order [].
Proof. intros i j x y _ Hi. destruct i; discriminate. Qed.

(** X2: in the list either file returns, two annotations that share a
    character index are always nested: the one accepted later starts before
    and ends after the one accepted earlier.  So a span never starts or ends
    inside a span accepted before it, and no non-empty span is accepted
    twice. *)
Theorem later_span_reaches_over (b : backend) (text : str) :
  (forall PRECOMPILED,
     accepted_order (V2.annotate_text b PRECOMPILED text)) /\
  (forall PRECOMPILED, exists spans,
     V2Copy.annotate_text b PRECOMPILED text = V2Copy.Returned spans /\
     accepted_order spans).
Proof.
  assert (H0 : (forall x, In x (fst (([], []) : state)) ->
                          In (span_of x) (snd (([], []) : state))) /\
               accepted_order (fst (([], []) : state))).
  { split; [intros x [] | apply accepted_order_nil]. }
  split; intros PRE.
  - destruct (v2_annotate_grows b PRE text) as (st & -> & Hg).
    exact (proj2 (grows_keeps_order _ _ _ Hg H0)).
  - destruct (copy_annotate_grows b PRE text) as (st & Hr & Hg).
    exists (fst st). split; [exact Hr|].
    exact (proj2 (grows_keeps_order _ _ _ Hg H0)).
Qed.

Lemma origin_within (text : str) (a : annotation) :
  exact_origin text a \/ fuzzy_origin text a -> within_text text a.
Proof.
  intros [(p & m & Hin & Hs) | (w & Hs & Hidx)].
  - apply finditer_within in Hin. unfold within_text, match_within in *.
    rewrite Hs. exact Hin.
  - pose proof (word_annotation_within text w ""%string Hidx) as H.
    unfold within_text in *. rewrite Hs. exact H.
Qed.

(** X3: on ASCII text, every annotation either file returns lies inside the
    text, [0 <= start <= end <= len(text)], and carries a category of the
    index.  In [annotate_doccano_v2.py], which does not test the answer of
    [find], this rests on every word of the pool occurring in the lower-cased
    text at the offsets it has in the text, which lower-casing ASCII text
    keeps. *)
Theorem annotations_within_text (b : backend) (text : str) :
  ascii_text text ->
  (forall PRECOMPILED,
     Forall (fun a => within_text text a /\ In (snd a) (map fst PRECOMPILED))
            (V2.annotate_text b PRECOMPILED text)) /\
  (forall PRECOMPILED, exists spans,
     V2Copy.annotate_text b PRECOMPILED text = V2Copy.Returned spans /\
     Forall (fun a => within_text text a /\ In (snd a) (map fst PRECOMPILED))
            spans).
Proof.
  intros _.
  assert (Hall : forall (B : Type) (PRE : list (string * B)) (st : state),
             grows (fun a => In (snd a) (map fst PRE) /\
                             (exact_origin text a \/ fuzzy_origin text a))
                   ([], []) st ->
             Forall (fun a => within_text text a /\ In (snd a) (map fst PRE))
                    (fst st)).
  { intros B PRE st Hg. apply grows_all in Hg; [|constructor].
    eapply Forall_impl; [|exact Hg]. intros a [Hc Ho].
    split; [now apply origin_within | exact Hc]. }
  split; intros PRE.
  - destruct (v2_annotate_grows b PRE text) as (st & -> & Hg). now apply Hall.
  - destruct (copy_annotate_grows b PRE text) as (st & Hr & Hg).
    exists (fst st). split; [exact Hr | now apply Hall].
Qed.

Lemma annotations_within_text_witness :
  Forall (fun a => within_text fatigue_text a /\
                   In (snd a) (map fst (V2.precompile fatigue_dictionary)))
         (V2.annotate_text without_rapidfuzz (V2.precompile fatigue_dictionary)
            fatigue_text).
Proof.
  apply (proj1 (annotations_within_text without_rapidfuzz fatigue_text eq_refl)).
Defined.

(** ** The index *)

Lemma insert_by_len_perm (t : str) (l : list str) :
  Permutation (t :: l) (insert_by_len t l).
Proof.
  induction l as [|u l IH]; simpl; [reflexivity|].
  destruct (length t <? length u); [|reflexivity].
  rewrite perm_swap. now constructor.
Qed.

Lemma insert_by_len_sorted (t : str) (l : list str) :
  StronglySorted not_longer l -> StronglySorted not_longer (insert_by_len t l).
Proof.
  induction l as [|u l IH]; intros Hs; simpl.
  - constructor; constructor.
  - apply StronglySorted_inv in Hs as [Hs Hu].
    destruct (Nat.ltb_spec (length t) (length u)).
    + constructor; [now apply IH|].
      apply (Permutation_Forall (insert_by_len_perm t l)).
      constructor; [unfold not_longer; lia | exact Hu].
    + constructor; [now constructor|].
      constructor; [exact H|].
      eapply Forall_impl; [|exact Hu]. unfold not_longer. intros x Hx. lia.
Qed.

Lemma insert_by_len_filter (n : nat) (t : str) (l : list str) :
  filter (fun x => length x =? n) (insert_by_len t l)
  = filter (fun x => length x =? n) (t :: l).
Proof.
  induction l as [|u l IH]; [reflexivity|]. cbn [insert_by_len].
  destruct (Nat.ltb_spec (length t) (length u)); [|reflexivity].
  cbn [filter] in *. rewrite IH.
  destruct (Nat.eqb_spec (length u) n), (Nat.eqb_spec (length t) n);
    try reflexivity. lia.
Qed.

Lemma sorted_longest_first_perm (terms : list str) :
  Permutation terms (sorted_longest_first terms).
Proof.
  unfold sorted_longest_first. induction terms as [|t terms IH]; simpl;
    [constructor|].
  rewrite <- insert_by_len_perm. now constructor.
Qed.

(** X4: the term list of a category is a rearrangement of the terms in which
    no term is longer than one before it, and terms of one length keep the
    order they have in the dictionary. *)
Theorem sorted_longest_first_stable (terms : list str) :
  Permutation terms (sorted_longest_first terms) /\
  StronglySorted not_longer (sorted_longest_first terms) /\
  (forall n,
     filter (fun t => length t =? n) (sorted_longest_first terms)
     = filter (fun t => length t =? n) terms).
Proof.
  unfold sorted_longest_first. induction terms as [|t terms (Hp & Hs & Hf)];
    simpl.
  - repeat split; constructor.
  - split; [|split].
    + rewrite <- insert_by_len_perm. now constructor.
    + now apply insert_by_len_sorted.
    + intros n. rewrite insert_by_len_filter. cbn [filter]. now rewrite Hf.
Qed.

(** X5: what the module-level loops put in [PRECOMPILED].  The categories
    keep the order of the dictionary.  In [annotate_doccano_v2.py] a category
    lists the terms of two characters or more, and only those, each with the
    pattern built for it.  In the copy it lists every term, whatever its
    length, each with the pattern of the first [build_flexible_pattern]: no
    entry is [None], also where the second definition would answer [None]. *)
Theorem index_terms (CATEGORIES : dictionary) :
  map fst (V2.precompile CATEGORIES) = map fst CATEGORIES /\
  map fst (V2Copy.precompile CATEGORIES) = map fst CATEGORIES /\
  Forall2 (fun (entry : string * list str)
               (indexed : string * list (str * Re.pattern)) =>
             (forall t, In t (map fst (snd indexed))
                        <-> In t (snd entry) /\ V2.MIN_TERM_LEN <= length t) /\
             Forall (fun e => snd e = V2.build_flexible_pattern (fst e))
                    (snd indexed))
          CATEGORIES (V2.precompile CATEGORIES) /\
  Forall2 (fun (entry : string * list str)
               (indexed : string * list (str * option Re.pattern)) =>
             Permutation (snd entry) (map fst (snd indexed)) /\
             Forall (fun e => snd e = Some (V2Copy.build_flexible_pattern (fst e)))
                    (snd indexed))
          CATEGORIES (V2Copy.precompile CATEGORIES).
Proof.
  split; [|split; [|split]].
  - unfold V2.precompile. rewrite map_map. apply map_ext. now intros [c ts].
  - unfold V2Copy.precompile. rewrite map_map. apply map_ext. now intros [c ts].
  - unfold V2.precompile. induction CATEGORIES as [|[c ts] rest IH]; simpl;
      constructor; [|exact IH]. cbn [fst snd]. split.
    + intros t. rewrite map_map. cbn [fst]. rewrite map_id.
      pose proof (sorted_longest_first_perm
                    (filter (fun t0 => V2.MIN_TERM_LEN <=? length t0) ts)) as Hp.
      split.
      * intros H. apply (Permutation_in _ (Permutation_sym Hp)) in H.
        apply filter_In in H as [H1 H2]. split; [exact H1|].
        now apply Nat.leb_le in H2.
      * intros [H1 H2]. apply (Permutation_in _ Hp). apply filter_In.
        split; [exact H1 | now apply Nat.leb_le].
    + apply Forall_forall. intros e He. apply in_map_iff in He as (t & <- & _).
      reflexivity.
  - unfold V2Copy.precompile. induction CATEGORIES as [|[c ts] rest IH]; simpl;
      constructor; [|exact IH]. cbn [fst snd]. split.
    + rewrite map_map. cbn [fst]. rewrite map_id.
      apply sorted_longest_first_perm.
    + apply Forall_forall. intros e He. apply in_map_iff in He as (t & <- & _).
      reflexivity.
Qed.

(** ** The fallback similarity and the threshold *)

Lemma matches_le pop (fuel : nat) :
  forall a b,
  Difflib.matches fuel pop a b <= length a /\
  Difflib.matches fuel pop a b <= length b.
Proof.
  induction fuel as [|fuel IH]; intros a b; simpl; [lia|].
  pose proof (find_longest_match_bounds pop a b) as Hb.
  destruct (Difflib.find_longest_match pop a b) as [[i j] k].
  cbn [fst snd] in Hb. destruct (k =? 0); [lia|].
  destruct (IH (firstn i a) (firstn j b)) as [H1 H2].
  destruct (IH (skipn (i + k) a) (skipn (j + k) b)) as [H3 H4].
  rewrite length_firstn in H1, H2. rewrite length_skipn in H3, H4. lia.
Qed.

Lemma pos_of_nat_Z (n : nat) : n <> 0 -> Z.pos (Pos.of_nat n) = Z.of_nat n.
Proof. intros H. rewrite <- positive_nat_Z, Nat2Pos.id by exact H. reflexivity. Qed.

(** What [sim >= 88] says of the fallback score: twice the matched
    characters, times 100, against 88 times the two lengths. *)
Lemma at_least_88_fallback (a b : str) :
  at_least_88 (fuzzy_similarity a b) = true ->
  88 * (length a + length b)
  <= 200 * Difflib.matches (S (length a)) (Difflib.popular b) a b.
Proof.
  unfold at_least_88, fuzzy_similarity, Difflib.ratio. intros H.
  apply Qle_bool_iff in H.
  destruct (Nat.eqb_spec (length a + length b) 0) as [E|E]; [lia|].
  unfold Qle in H. cbn [Qnum Qden Qmult] in H.
  rewrite Pos.mul_1_r, pos_of_nat_Z in H by exact E. lia.
Qed.

Lemma at_least_88_lengths (wn target : str) :
  at_least_88 (fuzzy_similarity wn target) = true ->
  11 * length wn <= 14 * length target /\
  11 * length target <= 14 * length wn.
Proof.
  intros H. apply at_least_88_fallback in H.
  destruct (matches_le (Difflib.popular target) (S (length wn)) wn target). lia.
Qed.

(** X6: with the fallback similarity, a word can score 88 or more against a
    term only when the two lengths are within the ratio 14 : 11 of each
    other. *)
Theorem fallback_threshold_lengths (wn target : str) :
  at_least_88 (fuzzy_similarity wn target) = true ->
  11 * length wn <= 14 * length target /\
  11 * length target <= 14 * length wn.
Proof. apply at_least_88_lengths. Qed.

Lemma fallback_threshold_lengths_witness :
  11 * length (lit "notes") <= 14 * length (lit "note") /\
  11 * length (lit "note") <= 14 * length (lit "notes").
Proof.
  apply (fallback_threshold_lengths (lit "notes") (lit "note")).
  vm_compute. reflexivity.
Defined.

(** X7: in the copy, whose fuzzy pass has no threshold on the term, an ASCII
    term of one or two characters still never gets a fuzzy span when the
    fallback similarity is in use: the normalised term is as short as the
    term, and the words that are scored have three characters or more, too
    long to score 88. *)
Theorem copy_short_term_no_fuzzy_span (b : backend) (text : str)
  (category : string) (term : str) (words_unique : list str) (st : state) :
  ascii_text term ->
  HAS_FUZZ b = false ->
  length term < 3 ->
  V2Copy.fuzzy_pass b text category term words_unique st = st.
Proof.
  intros _ Hb Hlen. rewrite copy_fuzzy_pass_find.
  destruct (find _ words_unique) as [w|] eqn:E; [|reflexivity].
  apply find_some in E as [_ Hstop]. unfold copy_stops_at in Hstop.
  apply andb_true_iff in Hstop as [Hstop _].
  apply andb_true_iff in Hstop as [Hstop Hsim].
  apply andb_true_iff in Hstop as [Hw _].
  apply negb_true_iff, Nat.ltb_ge in Hw.
  unfold similarity in Hsim. rewrite Hb in Hsim.
  apply at_least_88_lengths in Hsim as [H1 _].
  unfold V2Copy.normalize_text_for_matching, unicodedata_normalize in *.
  rewrite !lower_length in *. lia.
Qed.

Lemma copy_short_term_no_fuzzy_span_witness :
  V2Copy.fuzzy_pass without_rapidfuzz unit_text "Unit" (lit "pH")
    (Py.fromkeys [] (Re.findall V2Copy.word_re unit_text)) ([], [])
  = ([], []).
Proof.
  apply copy_short_term_no_fuzzy_span;
    [reflexivity | reflexivity | vm_compute; lia].
Defined.

(** ** The lemmatiser on short words *)

(** X8: an ASCII word of three characters or fewer is only lower-cased, and
    no ASCII word loses more than the seven characters of the longest
    suffix. *)
Theorem lemma_keeps_short_words (word : str) :
  ascii_text word ->
  (length word <= 3 -> lightweight_lemma word = Py.lower word) /\
  length word - 7 <= length (lightweight_lemma word) <= length word.
Proof.
  intros _. unfold lightweight_lemma.
  destruct (strip_first_suffix_cases (Py.lower word) suf_list suf_list_nonempty)
    as [[H _] | (suf & Hin & _ & H & Hl)].
  - rewrite H, lower_length. split; [auto | lia].
  - assert (Hsuf : 1 <= length suf <= 7).
    { unfold suf_list in Hin. simpl in Hin.
      repeat (destruct Hin as [<- | Hin]; [simpl; lia|]). destruct Hin. }
    apply (f_equal (@length ascii)) in H. rewrite length_app in H.
    rewrite lower_length in *. split; [lia | lia].
Qed.

Lemma lemma_keeps_short_words_witness :
  lightweight_lemma (lit "Bus") = Py.lower (lit "Bus").
Proof.
  apply (proj1 (lemma_keeps_short_words (lit "Bus") eq_refl)). vm_compute. lia.
Defined.

(** ** The shape of cleaned text *)

Lemma ws_len_rstrip (y : str) : ws_len y = 0 -> ws_len (Py.rstrip y) = 0.
Proof.
  intros H. destruct (rstrip_prefix y) as [r Hr].
  destruct (Py.rstrip y) as [|a z]; [reflexivity|].
  rewrite Hr in H. simpl in H |- *.
  destruct (Py.isspace a); [discriminate | reflexivity].
Qed.

Lemma sub_hyphen_length (n : nat) :
  forall s, length s <= n ->
            length (Re.sub hyphen_re (lit "-") s) <= length s.
Proof.
  induction n as [|n IH]; intros s Hn.
  - destruct s; [now rewrite sub_hyphen_nil | simpl in Hn; lia].
  - destruct s as [|c s]; [now rewrite sub_hyphen_nil|]. simpl in Hn.
    destruct (hyphen_ahead (c :: s)) eqn:E.
    + rewrite (sub_hyphen_match _ E).
      pose proof (after_hyphen_shorter _ E) as Hl. cbn [length] in Hl |- *.
      assert (Ha : length (after_hyphen (c :: s)) <= n) by lia.
      specialize (IH _ Ha). lia.
    + rewrite (sub_hyphen_copy _ _ E). cbn [length].
      assert (Ha : length s <= n) by lia. specialize (IH _ Ha). lia.
Qed.

Lemma sub_spaces_length (n : nat) :
  forall s, length s <= n ->
            length (Re.sub spaces_re (lit " ") s) <= length s.
Proof.
  induction n as [|n IH]; intros s Hn.
  - destruct s; [now rewrite sub_spaces_nil | simpl in Hn; lia].
  - destruct s as [|c s]; [now rewrite sub_spaces_nil|]. simpl in Hn.
    rewrite sub_spaces_cons. destruct (Py.isspace c); cbn [length].
    + pose proof (lstrip_length s) as Hl.
      assert (Ha : length (Py.lstrip s) <= n) by lia. specialize (IH _ Ha). lia.
    + assert (Ha : length s <= n) by lia. specialize (IH _ Ha). lia.
Qed.

Lemma strip_length (s : str) : length (Py.strip s) <= length s.
Proof.
  destruct (strip_infix s) as (l & r & H).
  apply (f_equal (@length ascii)) in H. rewrite !length_app in H. lia.
Qed.

(** X9: on ASCII text, cleaned text holds no whitespace but single spaces,
    none of them next to another or next to a hyphen, and none at either end;
    and cleaning never makes a text longer. *)
Theorem cleaned_text_shape (x : str) :
  (forall c, In c (clean_text x) -> Py.isspace c = true -> c = " "%char) /\
  (forall l a b r, clean_text x = l ++ a :: b :: r ->
     Py.isspace a && Py.isspace b = false /\
     Py.isspace a && is_hyphen b = false /\
     is_hyphen a && Py.isspace b = false) /\
  (forall c r, clean_text x = c :: r -> Py.isspace c = false) /\
  (forall l c, clean_text x = l ++ [c] -> Py.isspace c = false) /\
  length (clean_text x) <= length x.
Proof.
  destruct (clean_text_shape x) as (Ht & Hs & _).
  unfold single_spaced in Hs. apply andb_true_iff in Hs as [Hall Hadj].
  split; [|split; [|split; [|split]]].
  - intros c Hin Hc. rewrite forallb_forall in Hall. specialize (Hall c Hin).
    rewrite Hc in Hall. cbn [negb orb] in Hall.
    apply Ascii.eqb_eq in Hall. now subst c.
  - intros l a b r E. rewrite E in Ht, Hadj.
    apply adjacent_ok_suffix in Hadj. unfold hyphen_tight in Ht.
    apply adjacent_ok_suffix in Ht. simpl in Hadj, Ht.
    apply andb_true_iff in Hadj as [Hadj _]. apply andb_true_iff in Ht as [Ht _].
    apply negb_true_iff in Hadj, Ht. apply orb_false_iff in Ht as [Ht1 Ht2].
    now repeat split.
  - intros c r E.
    assert (Hw : ws_len (clean_text x) = 0).
    { unfold clean_text, Py.strip. apply ws_len_rstrip, ws_len_lstrip. }
    rewrite E in Hw. simpl in Hw. now destruct (Py.isspace c).
  - intros l c E.
    assert (Hw : ws_len (rev (clean_text x)) = 0).
    { unfold clean_text, Py.strip, Py.rstrip. rewrite rev_involutive.
      apply ws_len_lstrip. }
    rewrite E, rev_app_distr in Hw. simpl in Hw. now destruct (Py.isspace c).
  - unfold clean_text, unicodedata_normalize.
    pose proof (sub_hyphen_length (length x) x (le_n _)) as H1.
    pose proof (sub_spaces_length _ (Re.sub hyphen_re (lit "-") x) (le_n _)) as H2.
    pose proof (strip_length
                  (Re.sub spaces_re (lit " ") (Re.sub hyphen_re (lit "-") x))) as H3.
    lia.
Qed.

(** ** The exact pass of [annotate_doccano_v2.py] *)

Lemma grows_appends (P : annotation -> Prop) (st st' : state) :
  grows P st st' -> exists new, fst st' = fst st ++ new /\ Forall P new.
Proof.
  intros H. induction H as [st | st a st' Pa Ho H (new & Hn & Hall)].
  - exists []. now rewrite app_nil_r.
  - exists (a :: new). cbn [fst] in Hn. rewrite Hn, <- app_assoc.
    split; [reflexivity | now constructor].
Qed.

(** X10: in [annotate_doccano_v2.py], for an ASCII text and an ASCII term,
    every span the exact pass of the term accepts covers text equal to the
    term up to case, so it is as long as the term: a match that took an
    inflectional suffix of the pattern, or other whitespace between two words
    of the term, is never accepted by this pass. *)
Theorem v2_exact_pass_surface (text : str) (category : string) (term : str)
  (pattern : Re.pattern) (st : state) :
  ascii_text text -> ascii_text term ->
  exists new,
    fst (fst (V2.exact_pass text category term pattern st)) = fst st ++ new /\
    Forall (fun a =>
              snd a = category /\
              Py.lower (Py.slice text (fst (span_of a)) (snd (span_of a)))
              = Py.lower term /\
              (snd (span_of a) - fst (span_of a) = Py.len term)%Z)
           new.
Proof.
  intros _ _.
  destruct (grows_appends _ _ _ (v2_exact_pass_grows text category term pattern st))
    as (new & Hn & Hall).
  exists new. split; [exact Hn|]. eapply Forall_impl; [|exact Hall].
  intros a (m & Hin & -> & Hlow). cbn [fst snd span_of].
  split; [reflexivity|]. rewrite <- (finditer_group0 _ _ _ Hin).
  split; [exact Hlow|].
  apply finditer_matches in Hin as (k & n & adv & _ & H1 & H2 & Hg & Hle & _).
  apply (f_equal (@length ascii)) in Hlow. rewrite !lower_length, Hg in Hlow.
  rewrite length_firstn, length_skipn in Hlow. unfold Py.len. lia.
Qed.

(** "Fatigue" at the start of a sentence is accepted for the term
    "fatigue"; "fatigues" is matched by the pattern and passed over. *)
Lemma v2_exact_pass_surface_witness :
  exists new,
    fst (fst (V2.exact_pass (lit "Fatigue follows; it fatigues.") "Symptom"
                (lit "fatigue") (V2.build_flexible_pattern (lit "fatigue"))
                ([], [])))
    = [] ++ new /\
    Forall (fun a =>
              snd a = "Symptom"%string /\
              Py.lower (Py.slice (lit "Fatigue follows; it fatigues.")
                          (fst (span_of a)) (snd (span_of a)))
              = Py.lower (lit "fatigue") /\
              (snd (span_of a) - fst (span_of a) = Py.len (lit "fatigue"))%Z)
           new.
Proof.
  apply (v2_exact_pass_surface (lit "Fatigue follows; it fatigues.") "Symptom"
           (lit "fatigue") (V2.build_flexible_pattern (lit "fatigue")) ([], [])
           eq_refl eq_refl).
Defined.

(** ** The record of a chunk *)

(** X11: for a chunk of ASCII text, the text of the record written is the
    cleaned text, which cleaning leaves as it is, and the offsets of every
    label are offsets of that stored text, [0 <= start <= end <= len(text)];
    the chunk number is kept and the comment list is empty. *)
Theorem record_labels_index_stored_text (b : backend) (chunk_num : Z)
  (raw : str) :
  ascii_text raw ->
  (forall PRECOMPILED,
     let r := Doccano.json_line b PRECOMPILED chunk_num raw in
     Doccano.id r = chunk_num /\ Doccano.Comments r = [] /\
     Doccano.text r = clean_text raw /\
     clean_text (Doccano.text r) = Doccano.text r /\
     Forall (within_text (Doccano.text r)) (Doccano.label r)) /\
  (forall PRECOMPILED, exists r,
     Doccano.json_line_copy b PRECOMPILED chunk_num raw = V2Copy.Returned r /\
     Doccano.id r = chunk_num /\ Doccano.Comments r = [] /\
     Doccano.text r = clean_text raw /\
     clean_text (Doccano.text r) = Doccano.text r /\
     Forall (within_text (Doccano.text r)) (Doccano.label r)).
Proof.
  intros _.
  assert (Hall : forall (B : Type) (PRE : list (string * B)) (st : state),
             grows (fun a => In (snd a) (map fst PRE) /\
                             (exact_origin (clean_text raw) a
                              \/ fuzzy_origin (clean_text raw) a))
                   ([], []) st ->
             Forall (within_text (clean_text raw)) (fst st)).
  { intros B PRE st Hg. apply grows_all in Hg; [|constructor].
    eapply Forall_impl; [|exact Hg]. intros a [_ Ho]. now apply origin_within. }
  split; intros PRE.
  - unfold Doccano.json_line. cbn [Doccano.id Doccano.Comments Doccano.text
                                   Doccano.label].
    repeat split; [apply clean_text_fixed|].
    destruct (v2_annotate_grows b PRE (clean_text raw)) as (st & -> & Hg).
    now apply (Hall _ PRE).
  - unfold Doccano.json_line_copy.
    destruct (copy_annotate_grows b PRE (clean_text raw)) as (st & -> & Hg).
    cbn [V2Copy.bind]. eexists. split; [reflexivity|].
    cbn [Doccano.id Doccano.Comments Doccano.text Doccano.label].
    repeat split; [apply clean_text_fixed|]. now apply (Hall _ PRE).
Qed.

Lemma record_labels_index_stored_text_witness :
  Doccano.text (Doccano.json_line without_rapidfuzz
                  (V2.precompile fatigue_dictionary) 7
                  (lit " Patients reported  fatigued states. "))
  = fatigue_text /\
  Forall (within_text fatigue_text)
         (Doccano.label (Doccano.json_line without_rapidfuzz
                           (V2.precompile fatigue_dictionary) 7
                           (lit " Patients reported  fatigued states. "))).
Proof.
  destruct (proj1 (record_labels_index_stored_text without_rapidfuzz 7
                     (lit " Patients reported  fatigued states. ") eq_refl)
              (V2.precompile fatigue_dictionary))
    as (_ & _ & Ht & _ & Hl).
  split; [exact Ht | exact Hl].
Defined.

(** ** The pool of words *)

Lemma word_re_match (min : nat) prev (s : str) adv (n : nat) :
  Re.match_at
    (Re.compile (Re.Cat Re.WordBoundary
                   (Re.Cat (Re.Rep Re.WordOrHyphen min) Re.WordBoundary)) false)
    prev s adv = Some n ->
  min <= n /\ forallb (Re.in_class Re.WordOrHyphen) (firstn n s) = true.
Proof.
  unfold Re.match_at. cbn [Re.source Re.ignorecase Re.run]. intros H.
  destruct (xorb (Re.word_at prev) (Re.word_at (hd_error s))); [|discriminate].
  apply rep_greedy_reaches in H as (p' & m & Hm & Hall & H).
  destruct (xorb (Re.word_at p') (Re.word_at (hd_error (skipn m s))));
    [|discriminate].
  simpl in H. destruct (adv && (m =? 0)); [discriminate|].
  injection H as <-. split; [lia | exact Hall].
Qed.

Lemma existsb_eqb_in (x : str) (seen : list str) :
  existsb (Py.eqb x) seen = true <-> In x seen.
Proof.
  rewrite existsb_exists. split.
  - intros (y & Hy & E). apply str_eqb_eq in E. now subst y.
  - intros H. exists x. split; [exact H | apply str_eqb_refl].
Qed.

Lemma fromkeys_spec (words : list str) :
  forall seen,
  NoDup (Py.fromkeys seen words) /\
  (forall w, In w (Py.fromkeys seen words) <-> In w words /\ ~ In w seen).
Proof.
  induction words as [|x words IH]; intros seen; simpl.
  - split; [constructor | intros w; tauto].
  - destruct (existsb (Py.eqb x) seen) eqn:E.
    + apply existsb_eqb_in in E. destruct (IH seen) as [Hn Hi].
      split; [exact Hn|]. intros w. rewrite Hi. split; [tauto|].
      intros [[<- | H] Hs]; [contradiction | tauto].
    + assert (Hx : ~ In x seen).
      { intros H. apply existsb_eqb_in in H. congruence. }
      destruct (IH (x :: seen)) as [Hn Hi]. split.
      * constructor; [|exact Hn]. rewrite Hi. simpl. tauto.
      * intros w. simpl. rewrite Hi. simpl.
        destruct (list_eq_dec ascii_dec x w) as [<- | Hne]; tauto.
Qed.

(** X12: on ASCII text, the pool of words the fuzzy pass goes through holds
    each word the word pattern finds in the text once; each of them is made of
    word characters and hyphens only, has at least one character (three in
    the copy), and occurs in the text, case ignored, so that [find] answers an
    offset for it. *)
Theorem word_pool_spec (text : str) :
  ascii_text text ->
  let pool := Py.fromkeys [] (Re.findall V2.word_re text) in
  let pool_copy := Py.fromkeys [] (Re.findall V2Copy.word_re text) in
  NoDup pool /\ NoDup pool_copy /\
  (forall w, In w pool <-> In w (Re.findall V2.word_re text)) /\
  (forall w, In w pool_copy <-> In w (Re.findall V2Copy.word_re text)) /\
  Forall (fun w => 1 <= length w /\
                   forallb (Re.in_class Re.WordOrHyphen) w = true /\
                   (0 <= first_occurrence text w)%Z /\
                   (first_occurrence text w + Py.len w <= Py.len text)%Z)
         pool /\
  Forall (fun w => 3 <= length w /\
                   forallb (Re.in_class Re.WordOrHyphen) w = true /\
                   (0 <= first_occurrence text w)%Z /\
                   (first_occurrence text w + Py.len w <= Py.len text)%Z)
         pool_copy.
Proof.
  intros _. cbv zeta.
  assert (Hword : forall min w,
             In w (Py.fromkeys []
                     (Re.findall
                        (Re.compile
                           (Re.Cat Re.WordBoundary
                              (Re.Cat (Re.Rep Re.WordOrHyphen min) Re.WordBoundary))
                           false) text)) ->
             min <= length w /\
             forallb (Re.in_class Re.WordOrHyphen) w = true /\
             (0 <= first_occurrence text w)%Z /\
             (first_occurrence text w + Py.len w <= Py.len text)%Z).
  { intros min w Hin.
    pose proof (found_word_occurs _ _ _ Hin) as Hocc.
    pose proof (word_annotation_within text w ""%string Hocc) as Hwithin.
    unfold within_text, word_annotation, span_of in Hwithin.
    cbn [fst snd] in Hwithin.
    apply fromkeys_in in Hin. unfold Re.findall in Hin.
    apply in_map_iff in Hin as (m & <- & Hm).
    apply finditer_matches in Hm as (k & n & adv & _ & _ & _ & Hg & Hle & Hm).
    apply word_re_match in Hm as [Hmin Hall]. rewrite Hg in *.
    rewrite length_firstn, length_skipn. repeat split; try lia. exact Hall. }
  destruct (fromkeys_spec (Re.findall V2.word_re text) []) as [Hn1 Hi1].
  destruct (fromkeys_spec (Re.findall V2Copy.word_re text) []) as [Hn2 Hi2].
  split; [exact Hn1|]. split; [exact Hn2|].
  split; [intros w; rewrite Hi1; simpl; tauto|].
  split; [intros w; rewrite Hi2; simpl; tauto|].
  split; apply Forall_forall; intros w Hin.
  - exact (Hword 1 w Hin).
  - exact (Hword 3 w Hin).
Qed.

Lemma word_pool_spec_witness :
  NoDup (Py.fromkeys [] (Re.findall V2.word_re fatigue_text)) /\
  Forall (fun w => 3 <= length w /\
                   forallb (Re.in_class Re.WordOrHyphen) w = true /\
                   (0 <= first_occurrence fatigue_text w)%Z /\
                   (first_occurrence fatigue_text w + Py.len w
                    <= Py.len fatigue_text)%Z)
         (Py.fromkeys [] (Re.findall V2Copy.word_re fatigue_text)).
Proof.
  destruct (word_pool_spec fatigue_text eq_refl) as (Hn & _ & _ & _ & _ & Hc).
  split; [exact Hn | exact Hc].
Defined.

(** ** Case *)

Lemma in_class_lower (cls : Re.charclass) (c : ascii) :
  Re.in_class cls (Py.lower_char c) = Re.in_class cls c.
Proof.
  destruct cls; destruct c as [[] [] [] [] [] [] [] []]; reflexivity.
Qed.

Lemma word_at_lower (p : option ascii) :
  Re.word_at (option_map Py.lower_char p) = Re.word_at p.
Proof. destruct p as [c|]; [exact (in_class_lower Re.Word c) | reflexivity]. Qed.

Lemma rep_greedy_lower (cls : Re.charclass) (s : str) :
  forall min prev n (k k' : Re.cont),
  (forall p s' n', k p s' n' = k' (option_map Py.lower_char p) (Py.lower s') n') ->
  Re.rep_greedy cls min prev s n k
  = Re.rep_greedy cls min (option_map Py.lower_char prev) (Py.lower s) n k'.
Proof.
  induction s as [|c s IH]; intros min prev n k k' Hk; simpl.
  - now rewrite (Hk prev [] n).
  - rewrite in_class_lower, (Hk prev (c :: s) n).
    rewrite (IH (pred min) (Some c) (S n) k k' Hk). reflexivity.
Qed.

Lemma run_lower (r : Re.regex) :
  forall prev s n (k k' : Re.cont),
  (forall p s' n', k p s' n' = k' (option_map Py.lower_char p) (Py.lower s') n') ->
  Re.run true r prev s n k
  = Re.run true r (option_map Py.lower_char prev) (Py.lower s) n k'.
Proof.
  induction r as [|a|r1 IH1 r2 IH2|r1 IH1 r2 IH2|r1 IH1|cls min|cls|cls|];
    intros prev s n k k' Hk; simpl.
  - apply Hk.
  - destruct s as [|c s]; [reflexivity|]. simpl. unfold Re.chr_eq.
    rewrite lower_char_idem. rewrite (Hk (Some c) s (S n)). reflexivity.
  - apply IH1. intros p s' n'. now apply IH2.
  - now rewrite (IH1 prev s n k k' Hk), (IH2 prev s n k k' Hk).
  - now rewrite (IH1 prev s n k k' Hk), (Hk prev s n).
  - now apply rep_greedy_lower.
  - rewrite (Hk prev s n). destruct prev as [c|]; [|reflexivity]. simpl.
    now rewrite in_class_lower.
  - rewrite (Hk prev s n). destruct s as [|c s]; [reflexivity|]. simpl.
    now rewrite in_class_lower.
  - rewrite (Hk prev s n), word_at_lower.
    replace (hd_error (Py.lower s)) with (option_map Py.lower_char (hd_error s))
      by (now destruct s).
    now rewrite word_at_lower.
Qed.

Lemma attempt_lower (p : Re.pattern) prev (s : str) :
  Re.ignorecase p = true ->
  Re.attempt p (option_map Py.lower_char prev) (Py.lower s) = Re.attempt p prev s.
Proof.
  intros Hic.
  assert (Hm : forall adv,
             Re.match_at p (option_map Py.lower_char prev) (Py.lower s) adv
             = Re.match_at p prev s adv).
  { intros adv. unfold Re.match_at. rewrite Hic. symmetry.
    apply run_lower. reflexivity. }
  unfold Re.attempt. now rewrite !Hm.
Qed.

Lemma finditer_from_lower (p : Re.pattern) (s : str) :
  Re.ignorecase p = true ->
  forall prev pos skip,
  spans_of (Re.finditer_from p (option_map Py.lower_char prev) (Py.lower s) pos skip)
  = spans_of (Re.finditer_from p prev s pos skip).
Proof.
  intros Hic. unfold spans_of.
  induction s as [|c s IH]; intros prev pos skip.
  - destruct skip; [|reflexivity].
    pose proof (attempt_lower p prev [] Hic) as Hat.
    change (Py.lower []) with (@nil ascii) in *.
    cbn [Re.finditer_from]. rewrite Hat.
    rewrite !app_nil_r, !map_map. reflexivity.
  - pose proof (attempt_lower p prev (c :: s) Hic) as Hat.
    change (Py.lower (c :: s)) with (Py.lower_char c :: Py.lower s) in *.
    destruct skip as [|skip]; cbn [Re.finditer_from].
    + rewrite Hat. rewrite !map_app, !map_map. f_equal.
      exact (IH (Some c) (pos + 1)%Z _).
    + exact (IH (Some c) (pos + 1)%Z skip).
Qed.

Lemma split_from_lower (s : str) :
  forall cur,
  Py.split_from (Py.lower s) (Py.lower cur) = map Py.lower (Py.split_from s cur).
Proof.
  unfold Py.lower.
  induction s as [|c s IH]; intros cur; cbn [map Py.split_from].
  - now destruct cur.
  - assert (Hsp : Py.isspace (Py.lower_char c) = Py.isspace c)
      by exact (in_class_lower Re.Space c).
    rewrite Hsp. destruct (Py.isspace c).
    + destruct cur; cbn [map]; [exact (IH []) | f_equal; exact (IH [])].
    + rewrite <- IH. now rewrite map_app.
Qed.

(** X13: on ASCII text and terms, matching ignores case.  A pattern built
    for a term, in either file, finds the same spans in a text and in the
    lower-cased text; and in [annotate_doccano_v2.py] the pattern built for a
    term is the pattern built for the lower-cased term. *)
Theorem matching_ignores_case (term text : str) :
  ascii_text term -> ascii_text text ->
  spans_of (Re.finditer (V2.build_flexible_pattern term) (Py.lower text))
  = spans_of (Re.finditer (V2.build_flexible_pattern term) text) /\
  spans_of (Re.finditer (V2Copy.build_flexible_pattern term) (Py.lower text))
  = spans_of (Re.finditer (V2Copy.build_flexible_pattern term) text) /\
  V2.build_flexible_pattern (Py.lower term) = V2.build_flexible_pattern term.
Proof.
  intros _ _. split; [|split].
  - exact (finditer_from_lower (V2.build_flexible_pattern term) text eq_refl
             None 0%Z 0).
  - exact (finditer_from_lower (V2Copy.build_flexible_pattern term) text eq_refl
             None 0%Z 0).
  - assert (Hw : map (fun w => Re.escape (lightweight_lemma w))
                     (Py.split (Py.lower term))
                 = map (fun w => Re.escape (lightweight_lemma w)) (Py.split term)).
    { unfold Py.split. pose proof (split_from_lower term []) as H.
      change (Py.lower []) with (@nil ascii) in H. rewrite H, map_map.
      apply map_ext. intros w. f_equal. apply lemma_of_lower, lower_idem. }
    unfold V2.build_flexible_pattern. cbv zeta. now rewrite Hw, lower_length.
Qed.

Lemma matching_ignores_case_witness :
  spans_of (Re.finditer (V2.build_flexible_pattern (lit "Heart Failure"))
              (Py.lower (lit "Acute HEART  failures")))
  = spans_of (Re.finditer (V2.build_flexible_pattern (lit "Heart Failure"))
                (lit "Acute HEART  failures")) /\
  V2.build_flexible_pattern (Py.lower (lit "Heart Failure"))
  = V2.build_flexible_pattern (lit "Heart Failure").
Proof.
  destruct (matching_ignores_case (lit "Heart Failure")
              (lit "Acute HEART  failures") eq_refl eq_refl) as (H1 & _ & H3).
  split; [exact H1 | exact H3].
Defined.

(** ** Where the fuzzy pass puts a span *)

Lemma startswith_spec (hay needle : str) :
  Py.startswith hay needle = true <-> firstn (length needle) hay = needle.
Proof.
  revert hay; induction needle as [|p needle IH]; intros [|c hay]; simpl;
    split; try reflexivity; try discriminate.
  - intros H. apply andb_true_iff in H as [H1 H2].
    apply Ascii.eqb_eq in H1. apply IH in H2. congruence.
  - intros H. injection H as -> H. rewrite Ascii.eqb_refl. now apply IH.
Qed.

Lemma find_from_first (hay needle : str) :
  forall off,
  Py.find_from hay needle off <> (-1)%Z -> (0 <= off)%Z ->
  exists k,
    Py.find_from hay needle off = (off + Z.of_nat k)%Z /\
    firstn (length needle) (skipn k hay) = needle /\
    forall j, j < k -> firstn (length needle) (skipn j hay) <> needle.
Proof.
  induction hay as [|c hay IH]; intros off Hr Hoff; cbn [Py.find_from] in *.
  - destruct (Py.startswith [] needle) eqn:E; [|now elim Hr].
    exists 0. rewrite Z.add_0_r. split; [reflexivity|].
    split; [now apply startswith_spec | intros j Hj; lia].
  - destruct (Py.startswith (c :: hay) needle) eqn:E.
    + exists 0. rewrite Z.add_0_r. split; [reflexivity|].
      split; [now apply startswith_spec | intros j Hj; lia].
    + destruct (IH (off + 1)%Z Hr) as (k & Hk & Hat & Hbefore); [lia|].
      exists (S k). split; [lia|]. split; [exact Hat|].
      intros [|j] Hj.
      * simpl skipn. intros H. apply startswith_spec in H. congruence.
      * simpl skipn. apply Hbefore. lia.
Qed.

Lemma lower_slice (text : str) (a b : Z) :
  Py.lower (Py.slice text a b) = Py.slice (Py.lower text) a b.
Proof. unfold Py.slice. apply lower_firstn_skipn. Qed.

(** X14: on ASCII text, the span the fuzzy pass gives a word found in the
    text covers the leftmost place where the word stands, case ignored: the
    text there is the word up to case, and at no offset before it. *)
Theorem fuzzy_span_is_first_occurrence (text w : str) :
  ascii_text text -> ascii_text w ->
  first_occurrence text w <> (-1)%Z ->
  Py.lower (Py.slice text (fst (word_span text w)) (snd (word_span text w)))
  = Py.lower w /\
  forall j, (0 <= j < first_occurrence text w)%Z ->
            Py.lower (Py.slice text j (j + Py.len w)) <> Py.lower w.
Proof.
  intros _ _ Hocc. unfold word_span. cbn [fst snd]. rewrite lower_slice.
  unfold first_occurrence, Py.find in *.
  destruct (find_from_first (Py.lower text) (Py.lower w) 0%Z Hocc)
    as (k & Hk & Hat & Hbefore); [lia|].
  rewrite Hk. rewrite lower_length in *. unfold Py.slice, Py.len. split.
  - replace (Z.to_nat (0 + Z.of_nat k + Z.of_nat (length w) - (0 + Z.of_nat k)))
      with (length w) by lia.
    replace (Z.to_nat (0 + Z.of_nat k)) with k by lia. exact Hat.
  - intros j Hj. rewrite lower_firstn_skipn.
    replace (Z.to_nat (j + Z.of_nat (length w) - j)) with (length w) by lia.
    apply Hbefore. lia.
Qed.

Lemma fuzzy_span_is_first_occurrence_witness :
  Py.lower (Py.slice (lit "Fatigued, not fatigued")
              (fst (word_span (lit "Fatigued, not fatigued") (lit "fatigued")))
              (snd (word_span (lit "Fatigued, not fatigued") (lit "fatigued"))))
  = Py.lower (lit "fatigued").
Proof.
  apply (proj1 (fuzzy_span_is_first_occurrence (lit "Fatigued, not fatigued")
                  (lit "fatigued") eq_refl eq_refl
                  ltac:(vm_compute; discriminate))).
Defined.

(** ** The order of the dictionary *)

Lemma v2_categories_grow b text
  (PRECOMPILED : list (string * list (str * Re.pattern))) (st : state) :
  grows (fun _ => True) st
    (fold_left
       (fun (st : state) (entry : string * list (str * Re.pattern)) =>
          let (category, term_list) := entry in
          fold_left
            (V2.process_term b text
               (Py.fromkeys [] (Re.findall V2.word_re text)) category)
            term_list st)
       PRECOMPILED st).
Proof.
  apply fold_left_grows. intros st1 [category term_list] _.
  apply fold_left_grows. intros st2 entry _.
  eapply grows_impl; [|apply v2_process_term_grows].
  - auto.
  - intros w. apply found_word_occurs.
Qed.

Lemma for_each_app {A S : Type} (body : S -> A -> V2Copy.outcome S)
  (l1 l2 : list A) (st : S) :
  V2Copy.for_each body (l1 ++ l2) st
  = V2Copy.bind (V2Copy.for_each body l1 st) (V2Copy.for_each body l2).
Proof.
  revert st; induction l1 as [|x l1 IH]; intros st; simpl; [reflexivity|].
  destruct (body st x) as [st1|e]; simpl; [apply IH | reflexivity].
Qed.

(** X15: categories are served in the order of the dictionary: what either
    file returns for a dictionary is the start of what it returns once more
    categories are added after it.  Later categories never change the spans of
    earlier ones. *)
Theorem earlier_categories_first (b : backend) (text : str)
  (first more : dictionary) :
  (exists new,
     V2.annotate b (first ++ more) text = V2.annotate b first text ++ new) /\
  (exists spans new,
     V2Copy.annotate b first text = V2Copy.Returned spans /\
     V2Copy.annotate b (first ++ more) text = V2Copy.Returned (spans ++ new)).
Proof.
  split.
  - unfold V2.annotate, V2.annotate_text, V2.precompile.
    rewrite map_app, fold_left_app.
    match goal with
    | |- context [fold_left ?f (map ?g more) ?st1] =>
        destruct (grows_appends _ _ _
                    (v2_categories_grow b text (map g more) st1)) as (new & Hn & _)
    end.
    exists new. exact Hn.
  - unfold V2Copy.annotate, V2Copy.annotate_text, V2Copy.precompile.
    rewrite map_app, for_each_app.
    match goal with
    | |- context [V2Copy.for_each ?body (map ?g first) ?st0] =>
        destruct (for_each_grows (fun _ => True) body (map g first))
          with (st := st0) as (st1 & -> & _);
        [| destruct (for_each_grows (fun _ => True) body (map g more))
             with (st := st1) as (st2 & H2 & Hg) ]
    end.
    + intros st [category term_list] _. apply for_each_grows.
      intros st' entry _.
      destruct (copy_process_term_grows b text
                  (Py.fromkeys [] (Re.findall V2Copy.word_re text))
                  category st' entry) as (st'' & Hr & Hg).
      exists st''. split; [exact Hr|]. eapply grows_impl; [|exact Hg]. auto.
    + intros st [category term_list] _. apply for_each_grows.
      intros st' entry _.
      destruct (copy_process_term_grows b text
                  (Py.fromkeys [] (Re.findall V2Copy.word_re text))
                  category st' entry) as (st'' & Hr & Hg).
      exists st''. split; [exact Hr|]. eapply grows_impl; [|exact Hg]. auto.
    + apply grows_appends in Hg as (new & Hn & _).
      exists (fst st1), new. cbn [V2Copy.bind]. split; [reflexivity|].
      rewrite H2. cbn [V2Copy.bind]. now rewrite Hn.
Qed.
